(** * Business-card OCR pipeline (js/ocr.js): a shallow embedding

    The pixel transforms, the binarisation, the content localisation and the
    field extraction of [js/ocr.js] are embedded as Rocq functions and the
    properties stated about them are proved (or refuted) on that embedding.

    Conventions of the embedding:
    - a [Uint8ClampedArray] is a [list Z] of samples; [a !! i] is the read
      [a[i]] ([None] is JavaScript's [undefined], out of range) and
      [<[i:=v]> a] is the write [a[i] = v] (ignored out of range, as for a
      typed array);
    - integer-valued JavaScript numbers (indices, counts, samples) are [Z];
      genuinely fractional numbers (means, variances, confidences) are
      binary64 floats, Rocq's [PrimFloat.float];
    - a [for] loop is a left fold of its body over the list of its indices;
    - a JavaScript string is the list of its UTF-16 code units. *)

From Stdlib Require Import ZArith QArith Lia Bool Floats.
From Stdlib Require Uint63.
From stdpp Require Import base list numbers strings.

Local Open Scope Z_scope.

(** ** Loops and typed arrays *)

(** [for (let i = lo; i < lo + n; i++) body(i)] over a state [S]. *)
Definition for_range {S : Type} (lo n : nat) (body : nat -> S -> S) (s : S) : S :=
  foldl (fun acc i => body i acc) s (seq lo n).

(** [for (let k = lo; k < lo + n; k++) body(k)] with a signed counter. *)
Definition for_rangeZ {S : Type} (lo n : Z) (body : Z -> S -> S) (s : S) : S :=
  foldl (fun acc k => body k acc) s (seqZ lo n).

(** [new Uint8ClampedArray(n)]: [n] zero samples. *)
Definition new_u8 (n : nat) : list Z := replicate n 0.

(** A sample the operators treat as part of a BinaryMask. *)
Definition is_binary (v : Z) : Prop := v = 0 \/ v = 255.

(** Number of foreground (255) samples of a mask. *)
Definition count_fg (m : list Z) : nat :=
  length (filter (fun v => v = 255) m).

(** The value of a JavaScript expression that is a number or [NaN]
    ([None]); [Math.min]/[Math.max] with an [undefined] argument give [NaN],
    and [NaN] is absorbing. *)
Definition Math_min (acc : option Z) (v : option Z) : option Z :=
  match acc, v with
  | Some a, Some b => Some (Z.min a b)
  | _, _ => None
  end.

Definition Math_max (acc : option Z) (v : option Z) : option Z :=
  match acc, v with
  | Some a, Some b => Some (Z.max a b)
  | _, _ => None
  end.

(** Conversion on a store into a [Uint8ClampedArray]: [NaN] becomes 0, an
    integer is clamped to 0..255. *)
Definition to_u8_clamped (v : option Z) : Z :=
  match v with
  | Some a => Z.min 255 (Z.max 0 a)
  | None => 0
  end.

(** ** binaryUnion *)

(** [a[i] === 0 || b[i] === 0]; [undefined === 0] is false. *)
Definition is_zero_sample (v : option Z) : bool :=
  match v with
  | Some a => a =? 0
  | None => false
  end.

Definition binaryUnion (a b : list Z) : list Z :=
  let n := Nat.min (length a) (length b) in
  for_range 0 n
    (fun i out =>
       <[i := if is_zero_sample (a !! i) || is_zero_sample (b !! i)
              then 0 else 255]> out)
    (new_u8 n).


(** ** JavaScript numbers that are not integers *)

Definition num : Set := PrimFloat.float.

(** An integer as a JavaScript number (exact below 2^53 in magnitude, which
    covers every count and sum over a typed array). *)
Definition num_of_Z (z : Z) : num :=
  if z <? 0 then PrimFloat.opp (PrimFloat.of_uint63 (Uint63.of_Z (- z)))
  else PrimFloat.of_uint63 (Uint63.of_Z z).

(** [a > b] and [a >= b] on JavaScript numbers (false when either is NaN). *)
Definition js_gt (a b : num) : bool := PrimFloat.ltb b a.
Definition js_ge (a b : num) : bool := PrimFloat.leb b a.

(** [Math.floor]. *)
Definition Math_floor (x : num) : num :=
  match Prim2SF x with
  | S754_finite s m e =>
      if 0 <=? e then x
      else
        let q := Z.pos m / 2 ^ (- e) in
        let exact := Z.pos m mod 2 ^ (- e) =? 0 in
        if s then num_of_Z (- (if exact then q else q + 1))
        else num_of_Z q
  | _ => x
  end.

(** [Math.max(a, b)] on numbers: NaN if either is NaN. *)
Definition Math_max_num (a b : num) : num :=
  if PrimFloat.is_nan a then a
  else if PrimFloat.is_nan b then b
  else if PrimFloat.ltb a b then b
  else if PrimFloat.ltb b a then a
  else if PrimFloat.get_sign a then b else a.

(** ** Raster scans and 3x3 / kxk windows *)

(** [binary[i]] for a computed index [i]. *)
Definition read_px (img : list Z) (i : Z) : option Z :=
  if i <? 0 then None else img !! Z.to_nat i.

(** [for (y = 0; y < height; y++) for (x = 0; x < width; x++)
       out[y * width + x] = pix(x, y)]. *)
Definition raster (width height : nat) (pix : Z -> Z -> Z) (out : list Z) : list Z :=
  for_range 0 height
    (fun y out =>
       for_range 0 width
         (fun x out => <[(y * width + x)%nat := pix (Z.of_nat x) (Z.of_nat y)]> out)
         out)
    out.

(** The border-replicating neighbour of [(x, y)] at offset [(kx, ky)]:
    [px = Math.min(width - 1, Math.max(0, x + kx))], likewise [py], and the
    sample index [py * width + px]. *)
Definition neighbour (width height : nat) (x y kx ky : Z) : Z :=
  let px := Z.min (Z.of_nat width - 1) (Z.max 0 (x + kx)) in
  let py := Z.min (Z.of_nat height - 1) (Z.max 0 (y + ky)) in
  py * Z.of_nat width + px.

(** [for (ky = -r; ky <= r; ky++) for (kx = -r; kx <= r; kx++)
       acc = op(acc, img[neighbour])]. *)
Definition window_fold {A : Type} (op : A -> option Z -> A) (init : A)
    (img : list Z) (width height : nat) (r : Z) (x y : Z) : A :=
  for_rangeZ (- r) (2 * r + 1)
    (fun ky acc =>
       for_rangeZ (- r) (2 * r + 1)
         (fun kx acc => op acc (read_px img (neighbour width height x y kx ky)))
         acc)
    init.

(** Erosion: the window minimum, from 255. *)
Definition erode (img : list Z) (width height : nat) (r : Z) : list Z :=
  raster width height
    (fun x y => to_u8_clamped (window_fold Math_min (Some 255) img width height r x y))
    (new_u8 (length img)).

(** Dilation: the window maximum, from 0. *)
Definition dilate (img : list Z) (width height : nat) (r : Z) : list Z :=
  raster width height
    (fun x y => to_u8_clamped (window_fold Math_max (Some 0) img width height r x y))
    (new_u8 (length img)).

(** The samples a window visits, in visiting order. *)
Definition window_reads (img : list Z) (width height : nat) (r : Z) (x y : Z)
  : list (option Z) :=
  ky ← seqZ (- r) (2 * r + 1);
  (fun kx => read_px img (neighbour width height x y kx ky)) <$> seqZ (- r) (2 * r + 1).

(** An accumulator over a BinaryMask: NaN, 0 or 255. *)
Definition nan_or_binary (acc : option Z) : Prop :=
  match acc with
  | Some a => is_binary a
  | None => True
  end.

(** ** morphologyOpen: erode, then dilate, 3x3 *)
Definition morphologyOpen (binary : list Z) (width height : nat) : list Z :=
  let eroded := erode binary width height 1 in
  let dilated := dilate eroded width height 1 in
  dilated.

(** ** morphologyCloseK: dilate, then erode, k x k *)

(** [k | 0]: ToInt32. *)
Definition to_int32 (k : Z) : Z := (k + 2 ^ 31) mod 2 ^ 32 - 2 ^ 31.

(** [r = Math.max(1, ((k | 0) - 1) >> 1)]. *)
Definition close_radius (k : Z) : Z :=
  Z.max 1 (Z.shiftr (to_int32 (to_int32 k - 1)) 1).

Definition morphologyCloseK (binary : list Z) (width height : nat) (k : Z) : list Z :=
  let r := close_radius k in
  let dil := dilate binary width height r in
  let ero := erode dil width height r in
  ero.

(** ** binaryMajority3x3 *)

(** [sum += input[...] === 255 ? 1 : 0]. *)
Definition count_255 (sum : Z) (v : option Z) : Z :=
  match v with
  | Some a => if a =? 255 then sum + 1 else sum
  | None => sum
  end.

Definition binaryMajority3x3 (input : list Z) (width height : nat) : list Z :=
  raster width height
    (fun x y =>
       let sum := window_fold count_255 0 input width height 1 x y in
       if 5 <=? sum then 255 else 0)
    (new_u8 (length input)).

(** ** computeAutoCropBox *)

(** The [opts] argument; an absent member takes its [??] default. *)
Record crop_opts : Set := {
  opt_minFrac : option num;
  opt_minRun : option Z;
  opt_pad : option Z
}.

(** The returned box [{ x, y, w, h }]; [None] is [null]. *)
Record crop_box : Set := { box_x : Z; box_y : Z; box_w : Z; box_h : Z }.

(** A [for] loop over the indices [idx] whose body either goes on with a new
    state ([inl]) or returns from the enclosing function ([inr]). *)
Fixpoint for_each_until {S R : Type} (idx : list nat) (body : nat -> S -> S + R)
    (s : S) : S + R :=
  match idx with
  | [] => inl s
  | i :: rest =>
      match body i s with
      | inl s' => for_each_until rest body s'
      | inr r => inr r
      end
  end.

(** A store into a [Uint32Array]. *)
Definition to_u32 (s : Z) : Z := s mod 2 ^ 32.

(** [binary[i] === 255]. *)
Definition is_255 (v : option Z) : bool :=
  match v with
  | Some a => a =? 255
  | None => false
  end.

(** [rowSum[y]]: the white samples of row [y]. *)
Definition rowSums (binary : list Z) (width height : nat) : list Z :=
  for_range 0 height
    (fun y rowSum =>
       let base := (y * width)%nat in
       let s := for_range 0 width
                  (fun x s => if is_255 (binary !! (base + x)%nat) then s + 1 else s) 0 in
       <[y := to_u32 s]> rowSum)
    (replicate height 0).

(** [colSum[x]]: the white samples of column [x]. *)
Definition colSums (binary : list Z) (width height : nat) : list Z :=
  for_range 0 width
    (fun x colSum =>
       let s := for_range 0 height
                  (fun y s => if is_255 (binary !! (y * width + x)%nat) then s + 1 else s) 0 in
       <[x := to_u32 s]> colSum)
    (replicate width 0).

(** [arr[i] > thresh]. *)
Definition above (v : option Z) (thresh : num) : bool :=
  match v with
  | Some a => js_gt (num_of_Z a) thresh
  | None => false
  end.

Definition firstRunAbove (arr : list Z) (thresh : num) (runReq : Z) : Z :=
  match
    for_each_until (seq 0 (length arr))
      (fun i run =>
         if above (arr !! i) thresh then
           let run := run + 1 in
           if runReq <=? run then inr (Z.of_nat i - run + 1) else inl run
         else inl 0)
      0
  with
  | inr r => r
  | inl _ => 0
  end.

Definition lastRunAbove (arr : list Z) (thresh : num) (runReq : Z) : Z :=
  match
    for_each_until (reverse (seq 0 (length arr)))
      (fun i run =>
         if above (arr !! i) thresh then
           let run := run + 1 in
           if runReq <=? run then inr (Z.of_nat i + run - 1) else inl run
         else inl 0)
      0
  with
  | inr r => r
  | inl _ => Z.of_nat (length arr) - 1
  end.

(** The default [minFrac], the double nearest to 0.35. *)
Definition default_minFrac : num := 0x1.6666666666666p-2%float.

(** [Math.max(1, Math.floor(dim * minFrac))]. *)
Definition density_thresh (dim : nat) (minFrac : num) : num :=
  Math_max_num 1%float (Math_floor (PrimFloat.mul (num_of_Z (Z.of_nat dim)) minFrac)).

Definition computeAutoCropBox (binary : list Z) (width height : nat)
    (opts : crop_opts) : option crop_box :=
  let minFrac := default default_minFrac (opt_minFrac opts) in
  let minRun := default 10 (opt_minRun opts) in
  let pad := default 8 (opt_pad opts) in
  let rowSum := rowSums binary width height in
  let colSum := colSums binary width height in
  let rowThresh := density_thresh width minFrac in
  let colThresh := density_thresh height minFrac in
  let top := firstRunAbove rowSum rowThresh minRun in
  let bottom := lastRunAbove rowSum rowThresh minRun in
  let left := firstRunAbove colSum colThresh minRun in
  let right := lastRunAbove colSum colThresh minRun in
  if (bottom <=? top + 2) || (right <=? left + 2) then None
  else
    let top := Z.max 0 (top - pad) in
    let bottom := Z.min (Z.of_nat height - 1) (bottom + pad) in
    let left := Z.max 0 (left - pad) in
    let right := Z.min (Z.of_nat width - 1) (right + pad) in
    Some {| box_x := left; box_y := top;
            box_w := right - left + 1; box_h := bottom - top + 1 |}.

(** The options [preprocessImage] passes:
    [{ minFrac: 0.35, minRun: 10, pad: 8 }]. *)
Definition preprocess_crop_opts : crop_opts :=
  {| opt_minFrac := Some default_minFrac; opt_minRun := Some 10; opt_pad := Some 8 |}.

(** What [preprocessImage] returns as its canvas after the auto-crop step:
    the scaled canvas itself when the box is [null], a new canvas cut to the
    box (and an [auto-crop-otsu-WxH] entry in the steps) otherwise. *)
Inductive out_canvas : Set :=
  | ScaledCanvas
  | AutoCanvas (box : crop_box).

Definition auto_crop_step (box : option crop_box) : out_canvas :=
  match box with
  | Some b => AutoCanvas b
  | None => ScaledCanvas
  end.

(** A run of [runReq] consecutive entries of [arr] above [thresh]. *)
Definition has_run (arr : list Z) (thresh : num) (runReq : Z) : Prop :=
  exists s : nat, forall d : nat, Z.of_nat d < runReq ->
    above (arr !! (s + d)%nat) thresh = true.

(** ** otsuThreshold *)

(** [histogram[v]++] on the 256-bin array; a [v] outside 0..255 (which a
    [Uint8ClampedArray] never holds) leaves the 256 bins alone. *)
Definition hist_incr (histogram : list Z) (v : Z) : list Z :=
  if v <? 0 then histogram
  else match histogram !! Z.to_nat v with
       | Some c => <[Z.to_nat v := c + 1]> histogram
       | None => histogram
       end.

(** [new Array(256).fill(0)] after [values.forEach((v) => histogram[v]++)]. *)
Definition histogram_of (values : list Z) : list Z :=
  foldl hist_incr (replicate 256 0) values.

(** [histogram[i]] for a bin [i] of the 256 (0 stands for [undefined], which
    is never read: the array has 256 entries and [i < 256]). *)
Definition bin (histogram : list Z) (i : nat) : Z := default 0 (histogram !! i).

(** The loop variables [sumB], [wB], [maximum], [threshold]. *)
Record otsu_state : Set := {
  st_sumB : Z;
  st_wB : Z;
  st_maximum : num;
  st_threshold : Z
}.

(** [wB * wF * (mB - mF) * (mB - mF)] with [mB = sumB / wB] and
    [mF = (sum - sumB) / wF], in double precision, in the order JavaScript
    evaluates it. *)
Definition between_class (wB wF sumB sum : Z) : num :=
  let mB := (num_of_Z sumB / num_of_Z wB)%float in
  let mF := (num_of_Z (sum - sumB) / num_of_Z wF)%float in
  (num_of_Z wB * num_of_Z wF * (mB - mF) * (mB - mF))%float.

(** One iteration of the threshold loop: [inl] goes on to [i + 1] (also on
    [continue]), [inr] is [break]. *)
Definition otsu_body (histogram : list Z) (total sum : Z) (i : nat)
    (st : otsu_state) : otsu_state + otsu_state :=
  let wB := st_wB st + bin histogram i in
  if wB =? 0 then
    inl {| st_sumB := st_sumB st; st_wB := wB;
           st_maximum := st_maximum st; st_threshold := st_threshold st |}
  else
    let wF := total - wB in
    if wF =? 0 then
      inr {| st_sumB := st_sumB st; st_wB := wB;
             st_maximum := st_maximum st; st_threshold := st_threshold st |}
    else
      let sumB := st_sumB st + Z.of_nat i * bin histogram i in
      let between := between_class wB wF sumB sum in
      if js_gt between (st_maximum st) then
        inl {| st_sumB := sumB; st_wB := wB;
               st_maximum := between; st_threshold := Z.of_nat i |}
      else
        inl {| st_sumB := sumB; st_wB := wB;
               st_maximum := st_maximum st; st_threshold := st_threshold st |}.

Definition otsuThreshold (values : list Z) : Z :=
  let histogram := histogram_of values in
  let total := Z.of_nat (length values) in
  let sum := for_range 0 256 (fun i sum => sum + Z.of_nat i * bin histogram i) 0 in
  let st0 := {| st_sumB := 0; st_wB := 0; st_maximum := 0%float; st_threshold := 0 |} in
  match for_each_until (seq 0 256) (otsu_body histogram total sum) st0 with
  | inl st => st_threshold st
  | inr st => st_threshold st
  end.

(** *** The quantity Otsu's method maximises, read off the histogram *)

(** Number of samples in bins [0 .. k-1]. *)
Fixpoint weight_below (histogram : list Z) (k : nat) : Z :=
  match k with
  | O => 0
  | S k' => weight_below histogram k' + bin histogram k'
  end.

(** Sum of the intensities of the samples in bins [0 .. k-1]. *)
Fixpoint moment_below (histogram : list Z) (k : nat) : Z :=
  match k with
  | O => 0
  | S k' => moment_below histogram k' + Z.of_nat k' * bin histogram k'
  end.

(** Threshold [t] splits the samples into a background class (intensity at
    most [t]) and a foreground class (above [t]), both non-empty. *)
Definition splits (values : list Z) (t : nat) : bool :=
  let wB := weight_below (histogram_of values) (S t) in
  (0 <? wB) && (0 <? Z.of_nat (length values) - wB).

(** The between-class variance [wB * wF * (mB - mF)^2] of threshold [t] as
    computed in double precision from the histogram; 0 when a class is
    empty. *)
Definition variance_at (values : list Z) (t : nat) : num :=
  let histogram := histogram_of values in
  let wB := weight_below histogram (S t) in
  let wF := Z.of_nat (length values) - wB in
  if splits values t
  then between_class wB wF (moment_below histogram (S t)) (moment_below histogram 256)
  else 0%float.

(** *** The between-class variance of a threshold, read off the samples *)

(** The sum of a list of intensities. *)
Definition sum_of (l : list Z) : Z := foldr Z.add 0 l.

(** [wB * wF * (mB - mF)^2] for the threshold [t]: the background class is
    the samples at most [t], the foreground class the samples above [t];
    [wB] and [wF] are the sizes of the classes, [mB] and [mF] their means.
    The value is the double obtained from the two rounded means by
    multiplying the four factors from left to right; it is 0 when a class is
    empty. *)
Definition class_variance (values : list Z) (t : Z) : num :=
  let background := filter (fun v => v <= t) values in
  let foreground := filter (fun v => t < v) values in
  let wB := Z.of_nat (length background) in
  let wF := Z.of_nat (length foreground) in
  if (wB =? 0) || (wF =? 0) then 0%float
  else
    let mB := (num_of_Z (sum_of background) / num_of_Z wB)%float in
    let mF := (num_of_Z (sum_of foreground) / num_of_Z wF)%float in
    (num_of_Z wB * num_of_Z wF * (mB - mF) * (mB - mF))%float.

(** The same quantity in exact arithmetic, a rational number. *)
Definition exact_variance (values : list Z) (t : Z) : Q :=
  let background := filter (fun v => v <= t) values in
  let foreground := filter (fun v => t < v) values in
  let wB := Z.of_nat (length background) in
  let wF := Z.of_nat (length foreground) in
  if (wB =? 0) || (wF =? 0) then 0%Q
  else
    let mB := (inject_Z (sum_of background) / inject_Z wB)%Q in
    let mF := (inject_Z (sum_of foreground) / inject_Z wF)%Q in
    (inject_Z wB * inject_Z wF * (mB - mF) * (mB - mF))%Q.

(** Four samples on which two thresholds have the same exact variance. *)
Definition tie_samples : list Z := [0; 1; 1; 2].

(** ** Vocabulary for the order on JavaScript numbers *)

(** The order key of a float that is not NaN: [<] and [<=] on floats are the
    lexicographic order on keys, and NaN (no key) compares false. *)
Definition sf_key (x : spec_float) : option (Z * Z * Z) :=
  match x with
  | S754_nan => None
  | S754_zero _ => Some (0, 0, 0)
  | S754_infinity s => Some (if s then -2 else 2, 0, 0)
  | S754_finite s m e => Some (if s then (-1, - e, - Z.pos m) else (1, e, Z.pos m))
  end.

Definition key_lt (a b : Z * Z * Z) : Prop :=
  a.1.1 < b.1.1 \/ (a.1.1 = b.1.1 /\ (a.1.2 < b.1.2 \/ (a.1.2 = b.1.2 /\ a.2 < b.2))).

Definition key_cmp (a b : Z * Z * Z) : comparison :=
  match a.1.1 ?= b.1.1 with
  | Eq => match a.1.2 ?= b.1.2 with Eq => a.2 ?= b.2 | c => c end
  | c => c
  end.

(** The sign bit of a float; [None] for NaN. *)
Definition sf_sign (x : spec_float) : option bool :=
  match x with
  | S754_nan => None
  | S754_zero s | S754_infinity s | S754_finite s _ _ => Some s
  end.

(** The variance the loop computes when it reaches threshold [t], for a
    given value of the variable [sum]. *)
Definition between_at (values : list Z) (sum : Z) (t : nat) : num :=
  let histogram := histogram_of values in
  let wB := weight_below histogram (S t) in
  between_class wB (Z.of_nat (length values) - wB) (moment_below histogram (S t)) sum.

(** What the loop has established about [maximum] and [threshold] once the
    thresholds below [k] are settled: no splitting threshold below [k] has a
    variance above [maximum]; and either nothing was selected yet, or the
    selected threshold [t0] splits, has the variance [maximum], which is
    positive, and no splitting threshold below [t0] reaches it. *)
Definition otsu_best (values : list Z) (sum : Z) (k : nat) (st : otsu_state) : Prop :=
  (forall t, (t < k)%nat -> splits values t = true ->
     js_gt (between_at values sum t) (st_maximum st) = false) /\
  ((st_threshold st = 0 /\ st_maximum st = 0%float) \/
   (exists t0, (t0 < k)%nat /\ st_threshold st = Z.of_nat t0 /\
      splits values t0 = true /\ st_maximum st = between_at values sum t0 /\
      js_gt (between_at values sum t0) 0%float = true /\
      forall t, (t < t0)%nat -> splits values t = true ->
        js_ge (between_at values sum t) (between_at values sum t0) = false)).

(** The loop invariant at the head of iteration [k]. *)
Definition otsu_inv (values : list Z) (sum : Z) (k : nat) (st : otsu_state) : Prop :=
  st_wB st = weight_below (histogram_of values) k /\
  st_sumB st = moment_below (histogram_of values) k /\
  otsu_best values sum k st.

(** ** Strings *)

(** A JavaScript string: its UTF-16 code units. *)
Abbreviation jsstring := (list Z) (only parsing).

(** The string of an ASCII literal. *)
Definition js (s : string) : jsstring :=
  (fun a => Z.of_N (Ascii.N_of_ascii a)) <$> String.list_ascii_of_string s.

(** Character classes of the regular expressions. *)
Definition is_digit (c : Z) : bool := (48 <=? c) && (c <=? 57).
Definition is_upper (c : Z) : bool := (65 <=? c) && (c <=? 90).
Definition is_lower (c : Z) : bool := (97 <=? c) && (c <=? 122).
Definition is_alnum (c : Z) : bool := is_digit c || is_upper c || is_lower c.

(** [\s]: white space and line terminators. *)
Definition is_space (c : Z) : bool :=
  ((9 <=? c) && (c <=? 13)) || (c =? 32) || (c =? 160) || (c =? 5760) ||
  ((8192 <=? c) && (c <=? 8202)) || (c =? 8232) || (c =? 8233) ||
  (c =? 8239) || (c =? 8287) || (c =? 12288) || (c =? 65279).

(** [String.prototype.toLowerCase] on a code unit below 128. *)
Definition lower_ascii (c : Z) : Z := if is_upper c then c + 32 else c.

(** ** normalizeEmailCandidate *)

(** [.replace(/[’‘`]/g, "'").replace(/[·•]/g, '.')
     .replace(/＠/g, '@')], one code unit at a time. *)
Definition normalize_punct (c : Z) : Z :=
  let c := if (c =? 8217) || (c =? 8216) || (c =? 96) then 39 else c in
  let c := if (c =? 183) || (c =? 8226) then 46 else c in
  if c =? 65312 then 64 else c.

(** [map[ch] || ch] for
    [{ 'O': 'o', 'I': 'l', 'S': 's', 'B': 'b', 'Z': 'z', '0': 'o', '1': 'l', '5': 's' }]. *)
Definition confusion_map (c : Z) : Z :=
  if c =? 79 then 111        (* O -> o *)
  else if c =? 73 then 108   (* I -> l *)
  else if c =? 83 then 115   (* S -> s *)
  else if c =? 66 then 98    (* B -> b *)
  else if c =? 90 then 122   (* Z -> z *)
  else if c =? 48 then 111   (* 0 -> o *)
  else if c =? 49 then 108   (* 1 -> l *)
  else if c =? 53 then 115   (* 5 -> s *)
  else c.

(** [.replace(/\.{2,}/g, '.')]: every maximal run of dots becomes one dot. *)
Fixpoint collapse_dots (s : jsstring) : jsstring :=
  match s with
  | [] => []
  | c :: rest =>
      if c =? 46 then
        match rest with
        | d :: _ => if d =? 46 then collapse_dots rest else c :: collapse_dots rest
        | [] => [c]
        end
      else c :: collapse_dots rest
  end.

(** The class [[A-Za-z0-9._%+@-]]. *)
Definition email_alphabet (c : Z) : bool :=
  is_alnum c || (c =? 46) || (c =? 95) || (c =? 37) || (c =? 43) || (c =? 64) || (c =? 45).

Definition normalizeEmailCandidate (str : jsstring) : jsstring :=
  match str with
  | [] => []
  | _ =>
      let s := filter (fun c => is_space c = false) str in
      let s := normalize_punct <$> s in
      let s := confusion_map <$> s in
      let s := collapse_dots s in
      let s := filter (fun c => email_alphabet c = true) s in
      (* only code units below 128 are left: toLowerCase acts on A-Z alone *)
      lower_ascii <$> s
  end.

(** The code units [normalizeEmailCandidate] can return: lower-case letters,
    the digits other than 0, 1 and 5, and [. _ % + @ -]. The function leaves
    each of them as it is. *)
Definition stable_char (c : Z) : bool :=
  is_lower c || (is_digit c && negb ((c =? 48) || (c =? 49) || (c =? 53))) ||
  (c =? 46) || (c =? 95) || (c =? 37) || (c =? 43) || (c =? 64) || (c =? 45).

(** ** normalizePhoneValue *)

(** A string or [null]: truthy when it is a non-empty string. *)
Definition truthy (v : option jsstring) : bool :=
  match v with
  | Some (_ :: _) => true
  | _ => false
  end.

Definition normalizePhoneValue (value : option jsstring) : option jsstring :=
  match value with
  | None | Some [] => None
  | Some value =>
      let digits := filter (fun c => is_digit c || (c =? 43) = true) value in
      match digits with
      | [] => None
      | c :: rest =>
          if c =? 43 then
            (* parts = ['+'], then every digit of digits[1..] *)
            Some (43 :: filter (fun ch => is_digit ch = true) rest)
          else Some (filter (fun ch => is_digit ch = true) digits)
      end
  end.

(** The digits of a string, in order. *)
Definition digits_of (s : jsstring) : jsstring :=
  filter (fun ch => is_digit ch = true) s.

(** The digits and plus signs of a string, in order: what is left of a phone
    text once its punctuation is dropped. *)
Definition phone_chars (s : jsstring) : jsstring :=
  filter (fun c => is_digit c || (c =? 43) = true) s.

(** ** Regular expressions and string helpers of the field extractor *)

Fixpoint drop_while (p : Z -> bool) (s : jsstring) : jsstring :=
  match s with
  | c :: rest => if p c then drop_while p rest else s
  | [] => []
  end.

(** [String.prototype.trim]. *)
Definition js_trim (s : jsstring) : jsstring :=
  reverse (drop_while is_space (reverse (drop_while is_space s))).

(** [parts.join(sep)]. *)
Fixpoint js_join (sep : jsstring) (parts : list jsstring) : jsstring :=
  match parts with
  | [] => []
  | [a] => a
  | a :: rest => a ++ sep ++ js_join sep rest
  end.

(** [s.split(/\s+/)]: [cur] is the piece being read, [in_sep] tells that the
    last code unit belonged to a separator. *)
Fixpoint split_ws (s : jsstring) (cur : jsstring) (in_sep : bool) : list jsstring :=
  match s with
  | [] => [cur]
  | c :: rest =>
      if is_space c then
        if in_sep then split_ws rest cur true else cur :: split_ws rest [] true
      else split_ws rest (cur ++ [c]) false
  end.

(** The longest prefix of [s] in the class [p], and the rest. *)
Fixpoint span (p : Z -> bool) (s : jsstring) : jsstring * jsstring :=
  match s with
  | c :: rest =>
      if p c then let '(a, b) := span p rest in (c :: a, b) else ([], s)
  | [] => ([], [])
  end.

Fixpoint first_some {A B : Type} (f : A -> option B) (l : list A) : option B :=
  match l with
  | [] => None
  | a :: rest => match f a with Some b => Some b | None => first_some f rest end
  end.

(** An unanchored regular expression: the match at the leftmost position
    where [here] succeeds. *)
Fixpoint regex_search (here : jsstring -> option jsstring) (s : jsstring)
  : option jsstring :=
  match here s with
  | Some m => Some m
  | None => match s with
            | [] => None
            | _ :: rest => regex_search here rest
            end
  end.

(** [EMAIL_REGEX = /[A-Z0-9._%+-]+@[A-Z0-9.-]+\.[A-Z]{2,}/i]. *)
Definition local_char (c : Z) : bool :=
  is_alnum c || (c =? 46) || (c =? 95) || (c =? 37) || (c =? 43) || (c =? 45).
Definition domain_char (c : Z) : bool := is_alnum c || (c =? 46) || (c =? 45).
Definition is_letter (c : Z) : bool := is_upper c || is_lower c.

(** [\.[A-Z]{2,}] after the first [d] code units of the domain run [D]: the
    text matched from the start of [D]. *)
Definition tld_at (D : jsstring) (d : nat) : option jsstring :=
  match drop d D with
  | c :: after =>
      if c =? 46 then
        let '(T, _) := span is_letter after in
        if (2 <=? length T)%nat then Some (take d D ++ 46 :: T) else None
      else None
  | [] => None
  end.

(** The match of [EMAIL_REGEX] that starts at the head of [s]: the local
    part is the whole run up to the ['@'] (no shorter one is followed by
    ['@']); the domain gives back code units, longest first, until a dot and
    two letters follow. *)
Definition email_match_here (s : jsstring) : option jsstring :=
  let '(L, r1) := span local_char s in
  match L, r1 with
  | _ :: _, c :: r2 =>
      if c =? 64 then
        let '(D, _) := span domain_char r2 in
        match first_some (tld_at D) (reverse (seq 1 (length D))) with
        | Some m => Some (L ++ 64 :: m)
        | None => None
        end
      else None
  | _, _ => None
  end.

(** [s.match(EMAIL_REGEX)]: [match[0]], or [None] for [null]. *)
Definition EMAIL_REGEX_match (s : jsstring) : option jsstring :=
  regex_search email_match_here s.

(** [PHONE_REGEX]: an optional group (a plus sign, one to three digits, any
    white space), then seven or more code units of the class [[\d() -]]. *)
Definition phone_class (c : Z) : bool :=
  is_digit c || (c =? 40) || (c =? 41) || (c =? 32) || (c =? 45).

(** What can follow the optional group at the head of [s],
    in the order the engine tries it: the group with fewer and fewer code
    units, then no group. *)
Definition phone_group_rests (s : jsstring) : list jsstring :=
  match s with
  | c :: r =>
      if c =? 43 then
        (d ← reverse (seq 1 (Nat.min 3 (length (span is_digit r).1)));
         (fun k => drop k (drop d r))
           <$> reverse (seq 0 (S (length (span is_space (drop d r)).1))))
        ++ [s]
      else [s]
  | [] => [s]
  end.

Definition phone_match_here (s : jsstring) : bool :=
  existsb (fun r => (7 <=? length (span phone_class r).1)%nat) (phone_group_rests s).

Fixpoint regex_test (here : jsstring -> bool) (s : jsstring) : bool :=
  here s || match s with
            | [] => false
            | _ :: rest => regex_test here rest
            end.

(** [regex.test(combined)] on a fresh copy of [PHONE_REGEX]. *)
Definition PHONE_REGEX_test (s : jsstring) : bool := regex_test phone_match_here s.

(** The code points of a string, as a regular expression with the [u] flag
    reads it. *)
Fixpoint codepoints (s : jsstring) : list Z :=
  match s with
  | [] => []
  | h :: tl =>
      match tl with
      | l :: rest =>
          if (55296 <=? h) && (h <=? 56319) && (56320 <=? l) && (l <=? 57343)
          then (65536 + (h - 55296) * 1024 + (l - 56320)) :: codepoints rest
          else h :: codepoints tl
      | [] => [h]
      end
  end.

(** The class [[A-ZÀ-ÝŚŁŹŻĆŃÓ]]. *)
Definition name_initial (c : Z) : bool :=
  is_upper c || ((192 <=? c) && (c <=? 221)) || (c =? 346) || (c =? 321) ||
  (c =? 377) || (c =? 379) || (c =? 262) || (c =? 323) || (c =? 211).

(** ** Recognised words, lines and fields *)

(** A value that is a number, or is not of type number ([None]). *)
Definition to_number (v : option num) : num := default PrimFloat.nan v.

Record bbox : Set := {
  bx0 : option num; by0 : option num; bx1 : option num; by1 : option num
}.

(** A word of the recognition engine; a member may be absent. *)
Record word : Set := {
  w_text : option jsstring;
  w_bbox : option bbox;
  w_confidence : option num
}.

Record line : Set := {
  l_text : option jsstring;
  l_words : option (list word)
}.

(** A field [{ value, confidence, words, bbox }]; [None] is [null]. *)
Record field : Set := {
  f_value : option jsstring;
  f_confidence : num;
  f_words : option (list word);
  f_bbox : option bbox
}.

(** [{ value: null, confidence: 0, words: null, bbox: null }]. *)
Definition empty_field : field :=
  {| f_value := None; f_confidence := 0%float; f_words := None; f_bbox := None |}.

(** [Math.min] and [Math.max] on numbers. *)
Definition Math_min_num (a b : num) : num :=
  if PrimFloat.is_nan a then a
  else if PrimFloat.is_nan b then b
  else if PrimFloat.ltb b a then b
  else if PrimFloat.ltb a b then a
  else if PrimFloat.get_sign a then a else b.

(** [word.confidence || 0]. *)
Definition confidence_or_0 (c : option num) : num :=
  match c with
  | Some c => if PrimFloat.is_nan c || PrimFloat.is_zero c then 0%float else c
  | None => 0%float
  end.

Definition meanConfidence (words : option (list word)) : num :=
  match words with
  | None | Some [] => 0%float
  | Some ws =>
      let total := foldl (fun acc w => (acc + confidence_or_0 (w_confidence w))%float)
                         0%float ws in
      (total / num_of_Z (Z.of_nat (length ws)))%float
  end.

Definition summarizeWords (words : option (list word)) : option bbox :=
  match words with
  | None | Some [] => None
  | Some ws =>
      let '(x0, y0, x1, y1) :=
        foldl (fun '(x0, y0, x1, y1) w =>
                 match w_bbox w with
                 | Some b =>
                     (Math_min_num x0 (to_number (bx0 b)),
                      Math_min_num y0 (to_number (by0 b)),
                      Math_max_num x1 (to_number (bx1 b)),
                      Math_max_num y1 (to_number (by1 b)))
                 | None => (x0, y0, x1, y1)
                 end)
              (PrimFloat.infinity, PrimFloat.infinity,
               PrimFloat.neg_infinity, PrimFloat.neg_infinity) ws in
      if negb (PrimFloat.is_finite x0) || negb (PrimFloat.is_finite x1) then None
      else Some {| bx0 := Some x0; by0 := Some y0; bx1 := Some x1; by1 := Some y1 |}
  end.

(** ** extractEmailFromLines *)

Definition js_le (a b : num) : bool := PrimFloat.leb a b.

(** [typeof w.text === 'string' && w.text.includes('@')]. *)
Definition has_at (t : option jsstring) : bool :=
  match t with
  | Some s => existsb (fun c => c =? 64) s
  | None => false
  end.

(** The vertical centre of the word lies in the band [yMin .. yMax]. *)
Definition in_band (yMin yMax : num) (w : word) : bool :=
  match w_bbox w with
  | None => false
  | Some b =>
      let cy := ((to_number (by0 b) + to_number (by1 b)) / 2)%float in
      js_ge cy yMin && js_le cy yMax
  end.

(** One iteration of the loop over the lines, up to the comparison of the
    confidences: the email matched on the line and the gated words, or
    [None] where the iteration [continue]s. *)
Definition email_line_candidate (ln : line) : option (jsstring * list word) :=
  match l_words ln with
  | None | Some [] => None
  | Some ws =>
      match List.find (fun w => has_at (w_text w)) ws with
      | None => None
      | Some atWord =>
          match w_bbox atWord with
          | None => None
          | Some b =>
              let tol := 2%float in
              let yMin := (to_number (by0 b) - tol)%float in
              let yMax := (to_number (by1 b) + tol)%float in
              let gatedWords := List.filter (in_band yMin yMax) ws in
              match gatedWords with
              | [] => None
              | _ =>
                  let combined :=
                    js_join [] ((fun w => js_trim (default [] (w_text w))) <$> gatedWords) in
                  let norm := normalizeEmailCandidate combined in
                  match EMAIL_REGEX_match norm with
                  | None => None
                  | Some candidate => Some (candidate, gatedWords)
                  end
              end
          end
      end
  end.

Definition extractEmailFromLines (lines : list line) : field :=
  foldl
    (fun best ln =>
       match email_line_candidate ln with
       | None => best
       | Some (candidate, gatedWords) =>
           let confidence := meanConfidence (Some gatedWords) in
           if js_gt confidence (f_confidence best) then
             {| f_value := Some candidate; f_confidence := confidence;
                f_words := Some gatedWords;
                f_bbox := summarizeWords (Some gatedWords) |}
           else best
       end)
    empty_field lines.

(** ** extractName *)

Section Names.

(** The Unicode property [\p{L}] (general category Letter) of a code point:
    a table of the JavaScript engine. *)
Variable unicode_letter : Z -> bool.

(** [uppercaseToken.test(token)] for
    [/^[A-ZÀ-ÝŚŁŹŻĆŃÓ][\p{L}'’.-]*$/u]. *)
Definition uppercaseToken_test (token : jsstring) : bool :=
  match codepoints token with
  | c :: rest =>
      name_initial c &&
      forallb (fun c => unicode_letter c || (c =? 39) || (c =? 8217) ||
                        (c =? 46) || (c =? 45)) rest
  | [] => false
  end.

(** One iteration of the loop over the lines, up to the comparison of the
    confidences: the name read on the line, or [None] where the iteration
    [continue]s. *)
Definition name_line_candidate (ln : line) : option jsstring :=
  match l_text ln with
  | None | Some [] => None
  | Some text =>
      let tokens := filter (fun t => t <> []) (split_ws (js_trim text) [] false) in
      if (length tokens <? 2)%nat then None
      else if existsb (fun c => is_digit c || (c =? 64) || (c =? 40) || (c =? 41) ||
                                (c =? 43)) text then None
      else if negb (forallb uppercaseToken_test (take 2 tokens)) then None
      else Some (js_trim (js_join [32] tokens))
  end.

Definition extractName (lines : list line) : field :=
  foldl
    (fun best ln =>
       match name_line_candidate ln with
       | None => best
       | Some value =>
           let words := default [] (l_words ln) in
           let confidence := meanConfidence (Some words) in
           if js_gt confidence (f_confidence best) then
             {| f_value := Some value; f_confidence := confidence;
                f_words := Some words; f_bbox := summarizeWords (Some words) |}
           else best
       end)
    empty_field lines.

End Names.

(** ** extractPhone *)

(** A call either returns or throws. *)
Inductive js_error : Set := TypeError.

Inductive outcome (A : Type) : Type :=
  | Returned (a : A)
  | Thrown (e : js_error).
Arguments Returned {A} a.
Arguments Thrown {A} e.

(** [segment.map((w) => w.text.trim())]: [trim] of an absent text throws. *)
Fixpoint trimmed_texts (segment : list word) : outcome (list jsstring) :=
  match segment with
  | [] => Returned []
  | w :: rest =>
      match w_text w with
      | None => Thrown TypeError
      | Some t =>
          match trimmed_texts rest with
          | Returned ts => Returned (js_trim t :: ts)
          | Thrown e => Thrown e
          end
      end
  end.

(** A loop whose body may throw. *)
Fixpoint fold_outcome {A S : Type} (f : A -> S -> outcome S) (l : list A) (s : S)
  : outcome S :=
  match l with
  | [] => Returned s
  | a :: rest =>
      match f a s with
      | Returned s' => fold_outcome f rest s'
      | Thrown e => Thrown e
      end
  end.

(** The body of the inner loop, for the window of [len] words at [i]. *)
Definition phone_window (words : list word) (i len : nat) (best : field)
  : outcome field :=
  let segment := take len (drop i words) in
  match trimmed_texts segment with
  | Thrown e => Thrown e
  | Returned ts =>
      let combined := js_join [32] ts in
      if negb (PHONE_REGEX_test combined) then Returned best
      else
        let confidence := meanConfidence (Some segment) in
        let formatted := normalizePhoneValue (Some (js_trim combined)) in
        if negb (truthy formatted) then Returned best
        else if js_gt confidence (f_confidence best) then
          Returned {| f_value := formatted; f_confidence := confidence;
                      f_words := Some segment;
                      f_bbox := summarizeWords (Some segment) |}
        else Returned best
  end.

Definition extractPhone (words : list word) : outcome field :=
  fold_outcome
    (fun i best =>
       fold_outcome (fun len best => phone_window words i len best)
         (seq 1 (Nat.min 6 (length words - i))) best)
    (seq 0 (length words)) empty_field.


(** ** maybeRefineLowConfidence *)

(** [Math.round]: the nearest integer, a tie going up. *)
Definition Math_round (x : num) : num :=
  match Prim2SF x with
  | S754_finite s m e =>
      if 0 <=? e then x
      else
        let den := 2 ^ (- e) in
        let n := if s then - Z.pos m else Z.pos m in
        let r := (2 * n + den) / (2 * den) in
        if (r =? 0) && s then (-0)%float else num_of_Z r
  | _ => x
  end.

Record canvas : Set := { canvas_width : Z; canvas_height : Z }.

(** The source rectangle [(sx, sy, sWidth, sHeight)] drawn into the region
    canvas. *)
Record region : Set := { r_sx : num; r_sy : num; r_sWidth : num; r_sHeight : num }.

(** The parameters set on the engine for the pass. *)
Record engine_params : Set := { p_pageseg_mode : Z; p_char_whitelist : jsstring }.

(** [refined.data]: the text and the words the engine returns. *)
Record recognition : Set := {
  rec_text : option jsstring;
  rec_words : option (list word)
}.

(** [typeof v !== 'number' || Number.isNaN(v)] is false. *)
Definition valid_coord (v : option num) : bool :=
  match v with
  | Some x => negb (PrimFloat.is_nan x)
  | None => false
  end.

(** The first guard falls through: [!(field.confidence >= 70 && field.value)]. *)
Definition eligible (fld : field) : bool :=
  negb (js_ge (f_confidence fld) 70%float && truthy (f_value fld)).

Definition refine_region (cv : canvas) (b : bbox) : region :=
  let x0 := to_number (bx0 b) in
  let y0 := to_number (by0 b) in
  let x1 := to_number (bx1 b) in
  let y1 := to_number (by1 b) in
  let padding := 6%float in
  let sx := Math_max_num 0%float (Math_round (x0 - padding)%float) in
  let sy := Math_max_num 0%float (Math_round (y0 - padding)%float) in
  let sWidth :=
    Math_max_num 1%float
      (Math_min_num (num_of_Z (canvas_width cv) - sx)%float
                    (Math_round (x1 - x0 + padding * 2)%float)) in
  let sHeight :=
    Math_max_num 1%float
      (Math_min_num (num_of_Z (canvas_height cv) - sy)%float
                    (Math_round (y1 - y0 + padding * 2)%float)) in
  {| r_sx := sx; r_sy := sy; r_sWidth := sWidth; r_sHeight := sHeight |}.

(** [refinedValue] after [postExtract] and [postProcess] (each optional; a
    value is a string or [null]). *)
Definition refined_value (refined : recognition)
    (postProcess postExtract : option (option jsstring -> option jsstring))
  : option jsstring :=
  let refinedValue := Some (js_trim (default [] (rec_text refined))) in
  let refinedValue :=
    match postExtract with Some f => f refinedValue | None => refinedValue end in
  match postProcess with Some f => f refinedValue | None => refinedValue end.

(** [meanConfidence(refined.data.words || [])]. *)
Definition refined_confidence (refined : recognition) : num :=
  meanConfidence (Some (default [] (rec_words refined))).

(** The field after the call (the code updates it in place). [recognize] is
    the recognition engine: what [worker.recognize(region)] returns under the
    parameters just set. *)
Definition maybeRefineLowConfidence
    (recognize : engine_params -> region -> recognition)
    (cv : canvas) (fld : field) (whitelist : jsstring) (psm : Z)
    (postProcess postExtract : option (option jsstring -> option jsstring))
  : field :=
  match f_bbox fld with
  | None => fld
  | Some b =>
      if negb (eligible fld) then fld
      else if negb (forallb valid_coord [bx0 b; by0 b; bx1 b; by1 b]) then fld
      else
        let refined :=
          recognize {| p_pageseg_mode := psm; p_char_whitelist := whitelist |}
                    (refine_region cv b) in
        let refinedConfidence := refined_confidence refined in
        let refinedValue := refined_value refined postProcess postExtract in
        if negb (truthy refinedValue) then fld
        else if negb (truthy (f_value fld))
                || js_gt refinedConfidence (f_confidence fld) then
          {| f_value := refinedValue; f_confidence := refinedConfidence;
             f_words := f_words fld; f_bbox := f_bbox fld |}
        else fld
  end.

(** The refined value is accepted: the box coordinates are numbers, the
    refined value is non-empty, and the original value is empty or the
    refined confidence exceeds the original one. *)
Definition refine_accepts (fld : field) (b : bbox) (refinedValue : option jsstring)
    (refinedConfidence : num) : bool :=
  forallb valid_coord [bx0 b; by0 b; bx1 b; by1 b] &&
  truthy refinedValue &&
  (negb (truthy (f_value fld)) || js_gt refinedConfidence (f_confidence fld)).

(** Inputs of the refinement examples: a 200 x 100 canvas, a box, an engine
    that reads ["x"] with the given confidence whatever the region. *)
Definition example_canvas : canvas := {| canvas_width := 200; canvas_height := 100 |}.

Definition example_bbox : bbox :=
  {| bx0 := Some 10%float; by0 := Some 20%float;
     bx1 := Some 90%float; by1 := Some 40%float |}.

Definition example_engine (confidence : num) (_ : engine_params) (_ : region)
  : recognition :=
  {| rec_text := Some (js "x");
     rec_words := Some [{| w_text := Some (js "x"); w_bbox := None;
                           w_confidence := Some confidence |}] |}.

(** Inputs of the extraction examples: a line and a word reading ["hello"],
    and a letter table that knows the ASCII letters. *)
Definition example_word : word :=
  {| w_text := Some (js "hello"); w_bbox := None; w_confidence := Some 90%float |}.

Definition example_line : line :=
  {| l_text := Some (js "hello"); l_words := Some [example_word] |}.

(** ** morphologyClose: dilate, then erode, 3x3 *)
Definition morphologyClose (binary : list Z) (width height : nat) : list Z :=
  let dilated := dilate binary width height 1 in
  let eroded := erode dilated width height 1 in
  eroded.

(** *** Vocabulary for the morphology properties *)

(** The array holds exactly the [width * height] samples of the grid. *)
Definition grid_sized (img : list Z) (width height : nat) : Prop :=
  length img = (height * width)%nat.

(** Sample [p] is one the [(2r+1) x (2r+1)] window centred on sample [j]
    reads, borders replicated. *)
Definition near (width height : nat) (r : Z) (j p : nat) : Prop :=
  exists kx ky, - r <= kx <= r /\ - r <= ky <= r /\
    neighbour width height (Z.of_nat (j mod width)) (Z.of_nat (j / width)) kx ky
    = Z.of_nat p.

(** The mask with ink and background exchanged. *)
Definition invert_mask (m : list Z) : list Z :=
  (fun v => if v =? 255 then 0 else 255) <$> m.

(** ** computeAutoCropBoxSmart *)

(** [binary[i] === 0]. *)
Definition is_0 (v : option Z) : bool :=
  match v with
  | Some a => a =? 0
  | None => false
  end.

(** [rowBlack[y]]: the black samples of row [y]. *)
Definition rowBlacks (binary : list Z) (width height : nat) : list Z :=
  for_range 0 height
    (fun y rowBlack =>
       let base := (y * width)%nat in
       let s := for_range 0 width
                  (fun x s => s + (if is_0 (binary !! (base + x)%nat) then 1 else 0)) 0 in
       <[y := to_u32 s]> rowBlack)
    (replicate height 0).

(** [colBlack[x]]: the black samples of column [x]. *)
Definition colBlacks (binary : list Z) (width height : nat) : list Z :=
  for_range 0 width
    (fun x colBlack =>
       let s := for_range 0 height
                  (fun y s => s + (if is_0 (binary !! (y * width + x)%nat) then 1 else 0)) 0 in
       <[x := to_u32 s]> colBlack)
    (replicate width 0).

(** The double nearest to 0.60. *)
Definition edge_frac : num := 0x1.3333333333333p-1%float.

(** [Math.floor(dim * 0.60)]. *)
Definition edge_thresh (dim : nat) : num :=
  Math_floor (PrimFloat.mul (num_of_Z (Z.of_nat dim)) edge_frac).

(** [arr[i] >= thresh]. *)
Definition at_least (v : option Z) (thresh : num) : bool :=
  match v with
  | Some a => js_ge (num_of_Z a) thresh
  | None => false
  end.

(** The two run finders local to [computeAutoCropBoxSmart]: they compare
    with [>=] and answer [-1] when there is no run. *)
Module Smart.

Definition firstRunAbove (arr : list Z) (thresh : num) (runReq : Z) : Z :=
  match
    for_each_until (seq 0 (length arr))
      (fun i run =>
         if at_least (arr !! i) thresh then
           let run := run + 1 in
           if runReq <=? run then inr (Z.of_nat i - run + 1) else inl run
         else inl 0)
      0
  with
  | inr r => r
  | inl _ => -1
  end.

Definition lastRunAbove (arr : list Z) (thresh : num) (runReq : Z) : Z :=
  match
    for_each_until (reverse (seq 0 (length arr)))
      (fun i run =>
         if at_least (arr !! i) thresh then
           let run := run + 1 in
           if runReq <=? run then inr (Z.of_nat i + run - 1) else inl run
         else inl 0)
      0
  with
  | inr r => r
  | inl _ => -1
  end.

End Smart.

(** The box of the border branch, [None] when the branch is not taken or its
    box is too small. *)
Definition border_box (binary : list Z) (width height : nat) : option crop_box :=
  let rowBlack := rowBlacks binary width height in
  let colBlack := colBlacks binary width height in
  let rowEdgeThresh := edge_thresh width in
  let colEdgeThresh := edge_thresh height in
  let topEdge := Smart.firstRunAbove rowBlack rowEdgeThresh 2 in
  let bottomEdge := Smart.lastRunAbove rowBlack rowEdgeThresh 2 in
  let leftEdge := Smart.firstRunAbove colBlack colEdgeThresh 2 in
  let rightEdge := Smart.lastRunAbove colBlack colEdgeThresh 2 in
  if (0 <=? topEdge) && (0 <=? bottomEdge) && (0 <=? leftEdge) && (0 <=? rightEdge)
     && (topEdge + 4 <? bottomEdge) && (leftEdge + 4 <? rightEdge)
  then
    let padIn := 1 in
    let x := Z.max 0 (leftEdge + padIn) in
    let y := Z.max 0 (topEdge + padIn) in
    let w := Z.min (Z.of_nat width - x) (rightEdge - leftEdge - padIn * 2 + 1) in
    let h := Z.min (Z.of_nat height - y) (bottomEdge - topEdge - padIn * 2 + 1) in
    if (8 <? w) && (8 <? h)
    then Some {| box_x := x; box_y := y; box_w := w; box_h := h |}
    else None
  else None.

Definition computeAutoCropBoxSmart (binary : list Z) (width height : nat)
  : option crop_box :=
  match border_box binary width height with
  | Some box => Some box
  | None =>
      let fallback := computeAutoCropBox binary width height
                        {| opt_minFrac := Some default_minFrac;
                           opt_minRun := Some 10; opt_pad := Some 8 |} in
      fallback
  end.

(** The box is a part of the [width] x [height] image at least [least]
    samples wide and high. *)
Definition box_within (box : crop_box) (width height : nat) (least : Z) : Prop :=
  0 <= box_x box /\ 0 <= box_y box /\
  least <= box_w box /\ least <= box_h box /\
  box_x box + box_w box <= Z.of_nat width /\
  box_y box + box_h box <= Z.of_nat height.

(** ** convolveGray *)

(** The integer a number holds ([kOffset], a [Math.floor], is one); 0 for
    NaN and the infinities, which [Math.floor(Math.sqrt(n) / 2)] never is. *)
Definition int_of_num (x : num) : Z :=
  match Prim2SF x with
  | S754_finite s m e =>
      let a := if 0 <=? e then Z.pos m * 2 ^ e else Z.pos m / 2 ^ (- e) in
      if s then - a else a
  | _ => 0
  end.

(** [kernel[i]] for a number [i]: an element when [i] is an integer within
    the array, [undefined] otherwise. *)
Definition kernel_at (kernel : list num) (i : num) : option num :=
  match Prim2SF i with
  | S754_zero _ => kernel !! 0%nat
  | S754_finite false m e =>
      let at_int (n : Z) :=
        if n <? Z.of_nat (length kernel) then kernel !! Z.to_nat n else None in
      if 0 <=? e then at_int (Z.pos m * 2 ^ e)
      else if Z.pos m mod 2 ^ (- e) =? 0 then at_int (Z.pos m / 2 ^ (- e))
      else None
  | _ => None
  end.

(** A sample or a weight in arithmetic: [undefined] is [NaN]. *)
Definition sample_num (v : option Z) : num :=
  match v with
  | Some a => num_of_Z a
  | None => PrimFloat.nan
  end.

(** The conversion on a store of a number into a [Uint8ClampedArray]: [NaN]
    becomes 0, the number is clamped to 0..255 and rounded to the nearest
    integer, a tie going to the even one. *)
Definition u8_of_num (x : num) : Z :=
  match Prim2SF x with
  | S754_finite false m e =>
      if 0 <=? e then Z.min 255 (Z.pos m * 2 ^ e)
      else
        let den := 2 ^ (- e) in
        let q := Z.pos m / den in
        let r := Z.pos m mod den in
        Z.min 255 (if 2 * r <? den then q
                   else if den <? 2 * r then q + 1
                   else if Z.even q then q else q + 1)
  | S754_infinity false => 255
  | _ => 0
  end.

(** [(ky + kOffset) * kSize + (kx + kOffset)]. *)
Definition kernel_index (kSize : num) (K ky kx : Z) : num :=
  (num_of_Z (ky + K) * kSize + num_of_Z (kx + K))%float.

(** The sample stored at [(x, y)]; [K] is [kOffset]. *)
Definition convolve_pixel (input : list Z) (width height : nat) (kernel : list num)
    (kSize : num) (K : Z) (divisor : num) (x y : Z) : Z :=
  let acc :=
    for_rangeZ (- K) (2 * K + 1)
      (fun ky acc =>
         for_rangeZ (- K) (2 * K + 1)
           (fun kx acc =>
              let weight := kernel_at kernel (kernel_index kSize K ky kx) in
              (acc + sample_num (read_px input (neighbour width height x y kx ky))
                     * default PrimFloat.nan weight)%float)
           acc)
      0%float in
  u8_of_num (Math_min_num 255%float (Math_max_num 0%float (Math_round (acc / divisor)%float))).

Definition convolveGray (input : list Z) (width height : nat) (kernel : list num)
    (divisor : num) : list Z :=
  let kSize := PrimFloat.sqrt (num_of_Z (Z.of_nat (length kernel))) in
  let kOffset := Math_floor (kSize / 2)%float in
  raster width height
    (convolve_pixel input width height kernel kSize (int_of_num kOffset) divisor)
    (new_u8 (length input)).

(** The kernel [[1, 2, 1, 2, 4, 2, 1, 2, 1]] both callers pass, with the
    divisor 16. *)
Definition gaussian_kernel : list num :=
  [1%float; 2%float; 1%float; 2%float; 4%float; 2%float; 1%float; 2%float; 1%float].

(** ** applyUnsharpBinary *)

(** The default [amount], the double nearest to 0.4. *)
Definition default_amount : num := 0x1.999999999999ap-2%float.

Definition applyUnsharpBinary (input : list Z) (width height : nat)
    (amount : option num) : list Z :=
  let amount := default default_amount amount in
  let blurred := convolveGray input width height gaussian_kernel 16%float in
  for_range 0 (length input)
    (fun i output =>
       let sharpened :=
         (sample_num (input !! i)
          + amount * (sample_num (input !! i) - sample_num (blurred !! i)))%float in
       <[i := if js_gt sharpened 128%float then 255 else 0]> output)
    (new_u8 (length input)).

(** ** computeAutoCropBoxCC *)

(** The [opts] argument; [stride] and [pad] are read through [| 0]. *)
Record cc_opts : Set := {
  cc_stride : option Z;
  cc_blockWhite : option num;
  cc_pad : option Z
}.

(** [(v | 0) || d]. *)
Definition int_or (v : option Z) (d : Z) : Z :=
  let i := to_int32 (default 0 v) in
  if i =? 0 then d else i.

(** [v || d] on numbers: [d] when [v] is absent, 0 or [NaN]. *)
Definition num_or (v : option num) (d : num) : num :=
  match v with
  | Some x => if PrimFloat.is_nan x || PrimFloat.is_zero x then d else x
  | None => d
  end.

(** The double nearest to 0.6, and the one nearest to 0.3. *)
Definition default_blockWhite : num := 0x1.3333333333333p-1%float.
Definition least_blockWhite : num := 0x1.3333333333333p-2%float.

(** The integral image of the white indicator, a [Uint32Array] of
    [(width + 1) * (height + 1)] cells. A cell read outside the array is
    [undefined], the sum [NaN], and the store 0. *)
Definition white_integral (binary : list Z) (width height : nat) : list Z :=
  let W := S width in
  for_range 1 height
    (fun y integ =>
       let src := ((y - 1) * width)%nat in
       snd (for_range 1 width
              (fun x '(rowsum, integ) =>
                 let rowsum := rowsum + (if is_255 (binary !! (src + (x - 1))%nat)
                                         then 1 else 0) in
                 (rowsum,
                  <[(y * W + x)%nat :=
                      match integ !! ((y - 1) * W + x)%nat with
                      | Some above => to_u32 (above + rowsum)
                      | None => 0
                      end]> integ))
              (0, integ)))
    (replicate (W * S height) 0).

(** [sumRect(x0, y0, x1, y1)]; [None] is [NaN]. *)
Definition sumRect (integ : list Z) (W : Z) (x0 y0 x1 y1 : Z) : option Z :=
  match read_px integ (y1 * W + x1), read_px integ (y0 * W + x1),
        read_px integ (y1 * W + x0), read_px integ (y0 * W + x0) with
  | Some d, Some b, Some c, Some a => Some (d - b - c + a)
  | _, _, _, _ => None
  end.

(** The coarse grid: 1 where the block is mostly white. *)
Definition coarse_grid (integ : list Z) (width height : nat) (stride : Z)
    (blockWhite : num) (w2 h2 : nat) : list Z :=
  raster w2 h2
    (fun gx gy =>
       let y0 := gy * stride in
       let y1 := Z.min (Z.of_nat height) (y0 + stride) in
       let x0 := gx * stride in
       let x1 := Z.min (Z.of_nat width) (x0 + stride) in
       let area := (x1 - x0) * (y1 - y0) in
       let whites := sumRect integ (Z.of_nat (S width)) x0 y0 x1 y1 in
       if js_ge (sample_num whites / num_of_Z area)%float blockWhite then 1 else 0)
    (replicate (w2 * h2) 0).

(** The variables of the search: the arrays [visited], [qx] and [qy], the
    queue ends, the extent of the component and its area. *)
Record bfs_state : Set := {
  b_visited : list Z;
  b_qx : list Z;
  b_qy : list Z;
  b_head : nat;
  b_tail : nat;
  b_minx : Z; b_miny : Z; b_maxx : Z; b_maxy : Z;
  b_area : Z
}.

(** [!visited[i]]: true on 0 and on [undefined]. *)
Definition not_visited (v : option Z) : bool :=
  match v with
  | Some a => a =? 0
  | None => true
  end.

(** [grid[i] === 1]. *)
Definition is_1 (v : option Z) : bool :=
  match v with
  | Some a => a =? 1
  | None => false
  end.

(** The body of the loop over the four neighbours, for the neighbour
    [(xx, yy)]. *)
Definition bfs_visit (grid : list Z) (w2 h2 : nat) (st : bfs_state) (n : Z * Z)
  : bfs_state :=
  let '(xx, yy) := n in
  if (xx <? 0) || (yy <? 0) || (Z.of_nat w2 <=? xx) || (Z.of_nat h2 <=? yy) then st
  else
    let nidx := Z.to_nat (yy * Z.of_nat w2 + xx) in
    if is_1 (grid !! nidx) && not_visited (b_visited st !! nidx) then
      {| b_visited := <[nidx := 1]> (b_visited st);
         b_qx := <[b_tail st := to_int32 xx]> (b_qx st);
         b_qy := <[b_tail st := to_int32 yy]> (b_qy st);
         b_head := b_head st; b_tail := S (b_tail st);
         b_minx := b_minx st; b_miny := b_miny st;
         b_maxx := b_maxx st; b_maxy := b_maxy st; b_area := b_area st |}
    else st.

(** One turn of the [while] loop. A queue cell read outside the array is
    [undefined]: it compares false and has no neighbour. *)
Definition bfs_step (grid : list Z) (w2 h2 : nat) (st : bfs_state) : bfs_state :=
  let cx := b_qx st !! b_head st in
  let cy := b_qy st !! b_head st in
  let lower (c : option Z) (m : Z) :=
    match c with Some c => if c <? m then c else m | None => m end in
  let upper (c : option Z) (m : Z) :=
    match c with Some c => if m <? c then c else m | None => m end in
  let st :=
    {| b_visited := b_visited st; b_qx := b_qx st; b_qy := b_qy st;
       b_head := S (b_head st); b_tail := b_tail st;
       b_minx := lower cx (b_minx st); b_miny := lower cy (b_miny st);
       b_maxx := upper cx (b_maxx st); b_maxy := upper cy (b_maxy st);
       b_area := b_area st + 1 |} in
  match cx, cy with
  | Some cx, Some cy =>
      foldl (bfs_visit grid w2 h2) st
        [(cx - 1, cy); (cx + 1, cy); (cx, cy - 1); (cx, cy + 1)]
  | _, _ => st
  end.

(** [while (head < tail) { ... }], for at most [fuel] turns; [None] when the
    turns run out before the queue does. *)
Fixpoint bfs_loop (fuel : nat) (grid : list Z) (w2 h2 : nat) (st : bfs_state)
  : option bfs_state :=
  if (b_head st <? b_tail st)%nat then
    match fuel with
    | O => None
    | S fuel => bfs_loop fuel grid w2 h2 (bfs_step grid w2 h2 st)
    end
  else Some st.

(** Number of cells not visited yet. *)
Definition unvisited (visited : list Z) : nat :=
  length (filter (fun a => a = 0) visited).

(** The queue never holds more cells than were marked: its length plus the
    number of cells not visited yet stays within the grid. *)
Definition bfs_inv (w2 h2 : nat) (st : bfs_state) : Prop :=
  length (b_visited st) = (w2 * h2)%nat /\
  (b_tail st + unvisited (b_visited st) <= w2 * h2)%nat.

(** What the two loops over the grid carry along. *)
Record cc_state : Set := {
  cc_visited : list Z;
  cc_qx : list Z;
  cc_qy : list Z;
  cc_bestArea : Z;
  cc_best : option (Z * Z * Z * Z)
}.

(** The body of the loops over the grid at the cell [(x, y)]. *)
Definition cc_cell (grid : list Z) (w2 h2 : nat) (x y : nat) (s : cc_state)
  : option cc_state :=
  let idx := (y * w2 + x)%nat in
  if is_zero_sample (grid !! idx) || negb (not_visited (cc_visited s !! idx))
  then Some s
  else
    let st :=
      {| b_visited := <[idx := 1]> (cc_visited s);
         b_qx := <[0%nat := to_int32 (Z.of_nat x)]> (cc_qx s);
         b_qy := <[0%nat := to_int32 (Z.of_nat y)]> (cc_qy s);
         b_head := 0; b_tail := 1;
         b_minx := Z.of_nat x; b_miny := Z.of_nat y;
         b_maxx := Z.of_nat x; b_maxy := Z.of_nat y; b_area := 0 |} in
    match bfs_loop (length (cc_visited s)) grid w2 h2 st with
    | None => None
    | Some st =>
        Some {| cc_visited := b_visited st; cc_qx := b_qx st; cc_qy := b_qy st;
                cc_bestArea := if cc_bestArea s <? b_area st then b_area st
                               else cc_bestArea s;
                cc_best := if cc_bestArea s <? b_area st
                           then Some (b_minx st, b_miny st, b_maxx st, b_maxy st)
                           else cc_best s |}
    end.

(** A [for] loop whose body may run out of turns. *)
Fixpoint for_each_opt {S : Type} (idx : list nat) (body : nat -> S -> option S) (s : S)
  : option S :=
  match idx with
  | [] => Some s
  | i :: rest =>
      match body i s with
      | Some s' => for_each_opt rest body s'
      | None => None
      end
  end.

(** The result, [Some null] or [Some box]; [None] only if a search ran out
    of turns, which the properties below exclude. *)
Definition computeAutoCropBoxCC (binary : list Z) (width height : nat) (opts : cc_opts)
  : option (option crop_box) :=
  let stride := Z.max 2 (int_or (cc_stride opts) 3) in
  let blockWhite :=
    Math_min_num 1%float
      (Math_max_num least_blockWhite (num_or (cc_blockWhite opts) default_blockWhite)) in
  let pad := int_or (cc_pad opts) 8 in
  let integ := white_integral binary width height in
  let w2 := Z.to_nat (int_of_num (Math_max_num 1%float
              (Math_floor (num_of_Z (Z.of_nat width) / num_of_Z stride)%float))) in
  let h2 := Z.to_nat (int_of_num (Math_max_num 1%float
              (Math_floor (num_of_Z (Z.of_nat height) / num_of_Z stride)%float))) in
  let grid := coarse_grid integ width height stride blockWhite w2 h2 in
  let s0 := {| cc_visited := replicate (w2 * h2) 0; cc_qx := replicate (w2 * h2) 0;
               cc_qy := replicate (w2 * h2) 0; cc_bestArea := 0; cc_best := None |} in
  match
    for_each_opt (seq 0 h2)
      (fun y s => for_each_opt (seq 0 w2) (fun x s => cc_cell grid w2 h2 x y s) s) s0
  with
  | None => None
  | Some s =>
      match cc_best s with
      | None => Some None
      | Some (minx, miny, maxx, maxy) =>
          let left := Z.max 0 (minx * stride - pad) in
          let top := Z.max 0 (miny * stride - pad) in
          let right := Z.min (Z.of_nat width - 1) ((maxx + 1) * stride + pad - 1) in
          let bottom := Z.min (Z.of_nat height - 1) ((maxy + 1) * stride + pad - 1) in
          if (bottom <=? top + 2) || (right <=? left + 2) then Some None
          else Some (Some {| box_x := left; box_y := top;
                             box_w := right - left + 1; box_h := bottom - top + 1 |})
      end
  end.

(** ** The crop box of preprocessImage *)

(** [computeAutoCropBoxCC(m, w, h) || computeAutoCropBoxSmart(m, w, h) ||
     computeAutoCropBox(m, w, h, { minFrac: 0.35, minRun: 10, pad: 8 })]. *)
Definition crop_box_choice (otsuForCrop : list Z) (width height : nat)
  : option (option crop_box) :=
  match computeAutoCropBoxCC otsuForCrop width height
          {| cc_stride := None; cc_blockWhite := None; cc_pad := None |} with
  | None => None
  | Some (Some box) => Some (Some box)
  | Some None =>
      match computeAutoCropBoxSmart otsuForCrop width height with
      | Some box => Some (Some box)
      | None => Some (computeAutoCropBox otsuForCrop width height preprocess_crop_opts)
      end
  end.

(** *** Vocabulary for the runs of computeAutoCropBox *)

(** The [runReq] entries of [arr] from index [s] on are all above [thresh]. *)
Definition run_at (arr : list Z) (thresh : num) (runReq : Z) (s : nat) : Prop :=
  forall d : nat, Z.of_nat d < runReq -> above (arr !! (s + d)%nat) thresh = true.

(** [s] is where the first such run starts. *)
Definition first_run (arr : list Z) (thresh : num) (runReq : Z) (s : nat) : Prop :=
  run_at arr thresh runReq s /\
  forall s' : nat, (s' < s)%nat -> ~ run_at arr thresh runReq s'.

(** [s] is where the last such run starts. *)
Definition last_run (arr : list Z) (thresh : num) (runReq : Z) (s : nat) : Prop :=
  run_at arr thresh runReq s /\
  forall s' : nat, (s < s')%nat -> ~ run_at arr thresh runReq s'.

(** Inputs of the crop examples: an all-white 4 x 4 mask, read with runs of
    2 and no padding. *)
Definition example_white_mask : list Z := replicate 16 255.

Definition example_crop_opts : crop_opts :=
  {| opt_minFrac := None; opt_minRun := Some 2; opt_pad := Some 0 |}.

(** ** The global binarization step of preprocessImage *)

(** [otsuBinary] after
    [for (let i = 0; i < denoised.length; i++)
       otsuBinary[i] = denoised[i] > otsuT ? 255 : 0]. *)
Definition otsuBinary (denoised : list Z) (width height : nat) : list Z :=
  let otsuT := otsuThreshold denoised in
  for_range 0 (length denoised)
    (fun i otsuBinary =>
       <[i := match denoised !! i with
              | Some v => if otsuT <? v then 255 else 0
              | None => 0
              end]> otsuBinary)
    (new_u8 (width * height)).

(** ** contrastStretch *)

(** [hist[v]++] on the [Uint32Array] of 256 bins; an index outside the array
    leaves it alone. *)
Definition hist_incr_u32 (hist : list Z) (v : Z) : list Z :=
  if v <? 0 then hist
  else match hist !! Z.to_nat v with
       | Some c => <[Z.to_nat v := to_u32 (c + 1)]> hist
       | None => hist
       end.

(** The first index of [idx] at which the running sum of the bins reaches
    [count]; [start] when none does (the loop ends without [break]). *)
Definition percentile_bin (hist : list Z) (idx : list nat) (count : num) (start : Z) : Z :=
  match
    for_each_until idx
      (fun i acc =>
         let acc := acc + bin hist i in
         if js_ge (num_of_Z acc) count then inr (Z.of_nat i) else inl acc)
      0
  with
  | inr i => i
  | inl _ => start
  end.

(** The sample written for the gray level [v]. *)
Definition stretch_sample (lo hi : Z) (scale : num) (v : Z) : Z :=
  if v <=? lo then 0
  else if hi <=? v then 255
  else u8_of_num (Math_max_num 0%float
                    (Math_min_num 255%float (Math_round (num_of_Z (v - lo) * scale)%float))).

Definition contrastStretch (gray : list Z) (width height : nat)
    (lowPct highPct : option num) : list Z :=
  let lowPct := default 1%float lowPct in
  let highPct := default 99%float highPct in
  let total := length gray in
  let hist := foldl hist_incr_u32 (replicate 256 0) gray in
  let lowCount := Math_floor (lowPct / 100 * num_of_Z (Z.of_nat total))%float in
  let highCount := Math_floor (highPct / 100 * num_of_Z (Z.of_nat total))%float in
  let lo := percentile_bin hist (seq 0 256) lowCount 0 in
  let hi := percentile_bin hist (reverse (seq 0 256))
              (num_of_Z (Z.of_nat total) - highCount)%float 255 in
  if hi <=? lo then gray
  else
    let scale := (255 / num_of_Z (hi - lo))%float in
    for_range 0 total
      (fun i out =>
         <[i := match gray !! i with
                | Some v => stretch_sample lo hi scale v
                | None => 0
                end]> out)
      (new_u8 total).

(** ** extractEmail: the fallback over word windows *)

(** The body of the inner loop, for the window of [len] words at [i].
    [toLowerCase] acts on a match of [EMAIL_REGEX], whose code units are all
    below 128. *)
Definition email_window (words : list word) (i len : nat) (best : field) : field :=
  let segment := take len (drop i words) in
  let combined := js_join [] ((fun w => js_trim (default [] (w_text w))) <$> segment) in
  match EMAIL_REGEX_match combined with
  | None => best
  | Some emailOnly =>
      let confidence := meanConfidence (Some segment) in
      if js_gt confidence (f_confidence best) then
        {| f_value := Some (lower_ascii <$> emailOnly); f_confidence := confidence;
           f_words := Some segment; f_bbox := summarizeWords (Some segment) |}
      else best
  end.

(** [best] after the two loops. *)
Definition email_windows_best (words : list word) : field :=
  foldl
    (fun best i =>
       foldl (fun best len => email_window words i len best) best
         (seq 1 (Nat.min 3 (length words - i))))
    empty_field (seq 0 (length words)).

(** The final sanitation: [best.value] is matched once more. *)
Definition revalidate (best : field) : field :=
  if truthy (f_value best) then
    let finalMatch := EMAIL_REGEX_match (default [] (f_value best)) in
    {| f_value := match finalMatch with
                  | Some m => Some (lower_ascii <$> m)
                  | None => None
                  end;
       f_confidence := f_confidence best;
       f_words := f_words best; f_bbox := f_bbox best |}
  else best.

Definition extractEmail (words : list word) : field :=
  revalidate (email_windows_best words).

(** ** roundConfidence *)

(** [value == null] is [None]. *)
Definition roundConfidence (value : option num) : num :=
  match value with
  | None => 0%float
  | Some value =>
      Math_max_num 0%float
        (Math_min_num 100%float (Math_round (value * 100)%float / 100)%float)
  end.

(** *** Vocabulary for the extraction properties *)

(** The text is a whole email as [EMAIL_REGEX] reads it: a local part, an
    ['@'], a domain, a dot and two letters or more. *)
Definition email_shape (m : jsstring) : Prop :=
  exists L D T, m = L ++ 64 :: D ++ 46 :: T /\
    L <> [] /\ Forall (fun c => local_char c = true) L /\
    D <> [] /\ Forall (fun c => domain_char c = true) D /\
    Forall (fun c => is_letter c = true) T /\ (2 <= length T)%nat.

(** Inputs of the extraction examples: a line whose only word reads an email
    as the engine may return it, and a word that reads a phone number. *)
Definition example_email_lines : list line :=
  [{| l_text := None;
      l_words := Some [{| w_text := Some (js "Bob@Site.C0M");
                          w_bbox := Some example_bbox;
                          w_confidence := Some 90%float |}] |}].

Definition example_phone_words : list word :=
  [{| w_text := Some (js "+1 (555) 123-4567"); w_bbox := None;
      w_confidence := Some 80%float |}].

(** Two words with boxes, side by side. *)
Definition example_box_words : list word :=
  [{| w_text := None; w_bbox := Some example_bbox; w_confidence := None |};
   {| w_text := None;
      w_bbox := Some {| bx0 := Some 95%float; by0 := Some 18%float;
                        bx1 := Some 140%float; by1 := Some 39%float |};
      w_confidence := None |}].

(** ** detectExtraLanguage *)

(** [EXTRA_LANGUAGE_MAP]: each language with the code units of its pattern,
    a character class. *)
Definition EXTRA_LANGUAGE_MAP : list (jsstring * list Z) :=
  [ (js "pol", [261; 263; 281; 322; 324; 243; 347; 378; 380;
                260; 262; 280; 321; 323; 211; 346; 377; 379]);
    (js "deu", [228; 246; 252; 223; 196; 214; 220; 7838]);
    (js "fra", [224; 226; 230; 231; 233; 232; 234; 235; 238; 239; 244; 339;
                249; 251; 252; 255; 192; 194; 198; 199; 201; 200; 202; 203;
                206; 207; 212; 338; 217; 219; 220; 376]);
    (js "spa", [225; 233; 237; 243; 250; 241; 252;
                193; 201; 205; 211; 218; 209; 220]) ].

(** [entry.pattern.test(text)]. *)
Definition pattern_test (class : list Z) (text : jsstring) : bool :=
  existsb (fun c => existsb (Z.eqb c) class) text.

(** [loadedLanguages] is [state.loadedLanguages]. *)
Definition detectExtraLanguage (loadedLanguages : list jsstring) (text : option jsstring)
  : option jsstring :=
  match text with
  | None | Some [] => None
  | Some text =>
      match List.find (fun entry => negb (bool_decide (entry.1 ∈ loadedLanguages))
                                    && pattern_test entry.2 text)
                      EXTRA_LANGUAGE_MAP with
      | Some entry => Some entry.1
      | None => None
      end
  end.

(** * js/crm.js *)

(** ** buildContactFromStructured *)

(** [structured.fields]: the three fields [extractCardData] fills in; each
    may be absent. *)
Record card_fields : Set := {
  cf_name : option field;
  cf_email : option field;
  cf_phone : option field
}.

(** [structured]: [{ raw_text, fields }], each possibly absent. *)
Record structured : Set := {
  s_raw_text : option jsstring;
  s_fields : option card_fields
}.

(** The contact [parseContactInfo] builds and [buildContactFromStructured]
    returns: five strings. *)
Record contact : Set := {
  c_name : jsstring;
  c_email : jsstring;
  c_phone : jsstring;
  c_company : jsstring;
  c_title : jsstring
}.

(** [a || b] on strings: [a] unless it is empty. *)
Definition or_else (a b : jsstring) : jsstring :=
  match a with
  | [] => b
  | _ => a
  end.

(** [fields.f && fields.f.value ? trimValue(fields.f.value) : fallback.f],
    then [(this || fallback.f || '').trim()]. *)
Definition contact_text (fld : option field) (fallback : jsstring) : jsstring :=
  let picked :=
    match fld with
    | Some f => if truthy (f_value f) then js_trim (default [] (f_value f)) else fallback
    | None => fallback
    end in
  js_trim (or_else (or_else picked fallback) []).

Section Contacts.

(** The text parser of the same file, which reads a contact off the raw
    text with its own regular expressions. *)
Variable parseContactInfo : jsstring -> contact.

Definition buildContactFromStructured (s : structured) : contact :=
  let fields := default {| cf_name := None; cf_email := None; cf_phone := None |}
                        (s_fields s) in
  let rawText := default [] (s_raw_text s) in
  let fallback := parseContactInfo rawText in
  {| c_name := contact_text (cf_name fields) (c_name fallback);
     c_email := contact_text (cf_email fields) (c_email fallback);
     c_phone := contact_text (cf_phone fields) (c_phone fallback);
     c_company := or_else (c_company fallback) [];
     c_title := or_else (c_title fallback) [] |}.

End Contacts.

(** The text has no white space at either end. *)
Definition trimmed (s : jsstring) : Prop :=
  match s with
  | [] => True
  | c :: _ => is_space c = false /\ exists c', last s = Some c' /\ is_space c' = false
  end.

(** * Properties *)

(** *** Generic facts on loops that fill an array *)

Lemma for_range_S {S : Type} (lo n : nat) (body : nat -> S -> S) (s : S) :
  for_range lo (Datatypes.S n) body s = body (lo + n)%nat (for_range lo n body s).
Proof.
  unfold for_range. rewrite seq_S, foldl_app. reflexivity.
Qed.

Lemma for_range_0 {S : Type} (lo : nat) (body : nat -> S -> S) (s : S) :
  for_range lo 0 body s = s.
Proof. reflexivity. Qed.

Lemma for_range_invariant {S : Type} (P : nat -> S -> Prop) lo n
    (body : nat -> S -> S) (s : S) :
  P 0%nat s ->
  (forall k acc, (k < n)%nat -> P k acc -> P (Datatypes.S k) (body (lo + k)%nat acc)) ->
  P n (for_range lo n body s).
Proof.
  intros H0 Hstep. induction n as [|n IH].
  - exact H0.
  - rewrite for_range_S. apply Hstep; [lia|]. apply IH.
    intros k acc Hk. apply Hstep. lia.
Qed.

(** A loop writing [out[base + i] = f i] for [i < n] leaves the length alone
    and determines every cell. *)
Lemma fill_length (f : nat -> Z) base n (init : list Z) :
  length (for_range 0 n (fun i out => <[(base + i)%nat := f i]> out) init)
  = length init.
Proof.
  apply (for_range_invariant (fun _ acc => length acc = length init)).
  - reflexivity.
  - intros k acc _ Hk. rewrite length_insert. exact Hk.
Qed.

Lemma fill_lookup (f : nat -> Z) base n (init : list Z) (j : nat) :
  (j < length init)%nat ->
  for_range 0 n (fun i out => <[(base + i)%nat := f i]> out) init !! j
  = if decide (base <= j < base + n)%nat then Some (f (j - base)%nat)
    else init !! j.
Proof.
  intros Hj.
  refine (proj2 (for_range_invariant
           (fun k acc => length acc = length init /\
              acc !! j = if decide (base <= j < base + k)%nat
                         then Some (f (j - base)%nat) else init !! j)
           0%nat n _ init _ _)).
  - split; [reflexivity|]. case_decide; [lia|reflexivity].
  - intros k acc Hk [Hlen Hacc]. split; [by rewrite length_insert|].
    simpl. destruct (decide (j = base + k)%nat) as [->|Hne].
    + clear Hacc. rewrite list_lookup_insert_eq by lia.
      case_decide; [|lia]. f_equal. f_equal. lia.
    + rewrite list_lookup_insert_ne by lia. rewrite Hacc. clear Hacc.
      repeat case_decide; try lia; reflexivity.
Qed.

Lemma binaryUnion_length (a b : list Z) :
  length (binaryUnion a b) = Nat.min (length a) (length b).
Proof.
  unfold binaryUnion.
  rewrite (fill_length (fun i => if is_zero_sample (a !! i) || is_zero_sample (b !! i)
                                 then 0 else 255) 0).
  apply length_replicate.
Qed.

Lemma binaryUnion_lookup (a b : list Z) (i : nat) :
  (i < Nat.min (length a) (length b))%nat ->
  binaryUnion a b !! i
  = Some (if is_zero_sample (a !! i) || is_zero_sample (b !! i) then 0 else 255).
Proof.
  intros Hi. unfold binaryUnion.
  rewrite (fill_lookup (fun i => if is_zero_sample (a !! i) || is_zero_sample (b !! i)
                                 then 0 else 255) 0)
    by (unfold new_u8; rewrite length_replicate; exact Hi).
  case_decide; [|lia]. by rewrite Nat.sub_0_r.
Qed.

Lemma is_zero_sample_true (v : option Z) :
  is_zero_sample v = true <-> v = Some 0.
Proof.
  destruct v as [a|]; simpl; [|split; discriminate].
  rewrite Z.eqb_eq. split; [intros ->; reflexivity | intros [= ->]; reflexivity].
Qed.

(** C4. [binaryUnion] is commutative on every pair of arrays, and idempotent
    on every mask whose samples are all 0 or 255. *)
Theorem binaryUnion_comm_idem :
  (forall a b : list Z, binaryUnion a b = binaryUnion b a) /\
  (forall a : list Z, Forall is_binary a -> binaryUnion a a = a).
Proof.
  split.
  - intros a b. apply list_eq. intros i.
    destruct (decide (i < Nat.min (length a) (length b))%nat) as [Hi|Hi].
    + rewrite !binaryUnion_lookup by lia. by rewrite orb_comm.
    + rewrite !lookup_ge_None_2; [reflexivity| |];
        rewrite binaryUnion_length; lia.
  - intros a Ha. apply list_eq. intros i.
    destruct (a !! i) as [v|] eqn:Hv.
    + assert (i < length a)%nat by (apply lookup_lt_is_Some; eauto).
      rewrite binaryUnion_lookup by lia. rewrite Hv. f_equal.
      rewrite Forall_lookup in Ha. destruct (Ha i v Hv) as [-> | ->]; reflexivity.
    + apply lookup_ge_None in Hv. apply lookup_ge_None.
      rewrite binaryUnion_length. lia.
Qed.

Lemma binaryUnion_comm_idem_witness :
  Forall is_binary [0; 255; 255; 0] /\
  binaryUnion [0; 255; 255; 0] [0; 255; 255; 0] = [0; 255; 255; 0].
Proof.
  assert (H : Forall is_binary [0; 255; 255; 0]).
  { repeat constructor; unfold is_binary; lia. }
  split; [exact H | exact (proj2 binaryUnion_comm_idem _ H)].
Defined.

(** C10. [binaryUnion] is defined on arrays of any lengths and contents: the
    result has the shorter length, and each of its samples is 0 or 255, being
    0 exactly when the sample of [a] or of [b] at that index is 0. *)
Theorem binaryUnion_total (a b : list Z) :
  length (binaryUnion a b) = Nat.min (length a) (length b) /\
  forall i, (i < Nat.min (length a) (length b))%nat ->
    exists v, binaryUnion a b !! i = Some v /\
      (v = 0 \/ v = 255) /\
      (v = 0 <-> (a !! i = Some 0 \/ b !! i = Some 0)).
Proof.
  split; [apply binaryUnion_length|].
  intros i Hi. rewrite binaryUnion_lookup by exact Hi.
  eexists; split; [reflexivity|].
  destruct (is_zero_sample (a !! i) || is_zero_sample (b !! i)) eqn:Hz.
  - split; [by left|]. split; [|done]. intros _.
    apply orb_true_iff in Hz. by rewrite <- !is_zero_sample_true.
  - split; [by right|]. split; [done|]. intros Hor. exfalso.
    apply orb_false_iff in Hz. destruct Hz as [Hza Hzb].
    rewrite <- !is_zero_sample_true in Hor. destruct Hor; congruence.
Qed.

(** *** Raster scans *)

Lemma raster_inv (width height : nat) (pix : Z -> Z -> Z) (init : list Z) (j : nat) :
  (j < length init)%nat ->
  length (raster width height pix init) = length init /\
  raster width height pix init !! j
  = if decide (j < height * width)%nat
    then Some (pix (Z.of_nat (j mod width)) (Z.of_nat (j / width)))
    else init !! j.
Proof.
  intros Hj. unfold raster.
  refine (for_range_invariant
           (fun k acc => length acc = length init /\
              acc !! j = if decide (j < k * width)%nat
                         then Some (pix (Z.of_nat (j mod width)) (Z.of_nat (j / width)))
                         else init !! j)
           0%nat height _ init _ _).
  - split; [reflexivity|]. case_decide; [lia|reflexivity].
  - intros k acc Hk [Hlen Hacc]. simpl.
    split.
    + rewrite (fill_length (fun x => pix (Z.of_nat x) (Z.of_nat k)) (k * width)).
      exact Hlen.
    + rewrite (fill_lookup (fun x => pix (Z.of_nat x) (Z.of_nat k)) (k * width))
        by lia.
      rewrite Hacc. clear Hacc.
      destruct (decide (k * width <= j < k * width + width)%nat) as [Hin|Hout].
      * assert (Hq : (j / width = k)%nat).
        { symmetry. apply (Nat.div_unique j width k (j - k * width)); lia. }
        assert (Hr : (j mod width = j - k * width)%nat).
        { symmetry. apply (Nat.mod_unique j width k (j - k * width)); lia. }
        rewrite Hq, Hr. case_decide; [reflexivity|lia].
      * repeat case_decide; try lia; reflexivity.
Qed.

Lemma raster_length (width height : nat) (pix : Z -> Z -> Z) (init : list Z) :
  length (raster width height pix init) = length init.
Proof.
  unfold raster.
  apply (for_range_invariant (fun _ acc => length acc = length init)).
  - reflexivity.
  - intros k acc _ Hacc. simpl.
    rewrite (fill_length (fun x => pix (Z.of_nat x) (Z.of_nat k)) (k * width)).
    exact Hacc.
Qed.

Lemma raster_lookup (width height : nat) (pix : Z -> Z -> Z) (init : list Z) (j : nat) :
  (j < length init)%nat ->
  raster width height pix init !! j
  = if decide (j < height * width)%nat
    then Some (pix (Z.of_nat (j mod width)) (Z.of_nat (j / width)))
    else init !! j.
Proof. intros Hj. apply raster_inv, Hj. Qed.

(** Every cell of a raster over a fresh array is 0 or a computed pixel. *)
Lemma raster_new_cases (width height : nat) (pix : Z -> Z -> Z) (n j : nat) (v : Z) :
  raster width height pix (new_u8 n) !! j = Some v ->
  v = 0 \/
  ((j < height * width)%nat /\
   v = pix (Z.of_nat (j mod width)) (Z.of_nat (j / width))).
Proof.
  intros Hv.
  assert (Hj : (j < length (new_u8 n))%nat).
  { rewrite <- (raster_length width height pix). apply lookup_lt_is_Some. eauto. }
  rewrite raster_lookup in Hv by exact Hj.
  case_decide.
  - right. split; [assumption|]. congruence.
  - left. unfold new_u8 in Hv. apply lookup_replicate in Hv. tauto.
Qed.

(** *** Window folds *)

Lemma foldl_nested {A K B : Type} (op : A -> B -> A) (g : K -> K -> B)
    (rows cols : list K) (init : A) :
  foldl (fun acc ky => foldl (fun acc kx => op acc (g kx ky)) acc cols) init rows
  = foldl op init (ky ← rows; (fun kx => g kx ky) <$> cols).
Proof.
  revert init. induction rows as [|ky rows IH]; intros init; [reflexivity|].
  simpl. rewrite foldl_app, <- IH. f_equal.
  rewrite foldl_fmap. reflexivity.
Qed.

Lemma window_fold_reads {A : Type} (op : A -> option Z -> A) (init : A)
    (img : list Z) (width height : nat) (r x y : Z) :
  window_fold op init img width height r x y
  = foldl op init (window_reads img width height r x y).
Proof.
  unfold window_fold, window_reads, for_rangeZ.
  apply (foldl_nested op
           (fun kx ky => read_px img (neighbour width height x y kx ky))).
Qed.

Lemma elem_of_window_reads (img : list Z) (width height : nat) (r x y : Z) (v : option Z) :
  v ∈ window_reads img width height r x y <->
  exists kx ky, - r <= kx <= r /\ - r <= ky <= r /\
    v = read_px img (neighbour width height x y kx ky).
Proof.
  unfold window_reads. rewrite list_elem_of_bind. split.
  - intros (ky & Hv & Hky). apply list_elem_of_fmap in Hv as (kx & -> & Hkx).
    apply elem_of_seqZ in Hky, Hkx. exists kx, ky. repeat split; lia.
  - intros (kx & ky & Hkx & Hky & ->). exists ky. split.
    + apply list_elem_of_fmap. exists kx. split; [reflexivity|].
      apply elem_of_seqZ. lia.
    + apply elem_of_seqZ. lia.
Qed.

Lemma read_px_elem (img : list Z) (i v : Z) :
  read_px img i = Some v -> v ∈ img.
Proof.
  unfold read_px. destruct (i <? 0); [discriminate|].
  intros H. eapply list_elem_of_lookup_2, H.
Qed.

Lemma foldl_Math_min_Some (reads : list (option Z)) (acc : option Z) (m : Z) :
  foldl Math_min acc reads = Some m ->
  (exists a, acc = Some a /\ m <= a) /\
  (forall r, r ∈ reads -> exists v, r = Some v /\ m <= v).
Proof.
  revert acc. induction reads as [|r reads IH]; intros acc Hm; simpl in Hm.
  - split; [exists m; split; [assumption|lia]|]. intros r Hr. inversion Hr.
  - destruct (IH _ Hm) as [(a0 & Ha0 & Hle) Hrest].
    destruct acc as [a1|], r as [v|]; simpl in Ha0; try discriminate.
    injection Ha0 as <-. split; [exists a1; split; [reflexivity|lia]|].
    intros r' Hr'. apply elem_of_cons in Hr' as [-> | Hr'].
    + exists v. split; [reflexivity|lia].
    + apply Hrest, Hr'.
Qed.

Lemma foldl_Math_max_Some (reads : list (option Z)) (acc : option Z) (m : Z) :
  foldl Math_max acc reads = Some m ->
  acc = Some m \/ Some m ∈ reads.
Proof.
  revert acc. induction reads as [|r reads IH]; intros acc Hm; simpl in Hm.
  - by left.
  - destruct (IH _ Hm) as [Hacc | Hin].
    + destruct acc as [a1|], r as [v|]; simpl in Hacc; try discriminate.
      injection Hacc as <-.
      destruct (Z.max_spec a1 v) as [[_ ->] | [_ ->]].
      * right. apply elem_of_cons. by left.
      * by left.
    + right. apply elem_of_cons. by right.
Qed.

Lemma foldl_min_max_binary (op : option Z -> option Z -> option Z)
    (reads : list (option Z)) (acc : option Z) :
  op = Math_min \/ op = Math_max ->
  nan_or_binary acc ->
  (forall r, r ∈ reads -> nan_or_binary r) ->
  nan_or_binary (foldl op acc reads).
Proof.
  intros Hop. revert acc.
  induction reads as [|r reads IH]; intros acc Hacc Hreads; [exact Hacc|].
  simpl. apply IH.
  - assert (Hr : nan_or_binary r) by (apply Hreads, elem_of_cons; by left).
    destruct Hop as [-> | ->], acc as [a|], r as [v|]; simpl in *; try exact I;
      unfold is_binary in *; lia.
  - intros r' Hr'. apply Hreads, elem_of_cons. by right.
Qed.

Lemma to_u8_clamped_binary (acc : option Z) :
  nan_or_binary acc -> is_binary (to_u8_clamped acc).
Proof.
  destruct acc as [a|]; simpl; unfold is_binary; lia.
Qed.

Lemma window_reads_binary (img : list Z) (width height : nat) (r x y : Z) :
  Forall is_binary img ->
  forall v, v ∈ window_reads img width height r x y -> nan_or_binary v.
Proof.
  intros Himg v Hv. apply elem_of_window_reads in Hv as (kx & ky & _ & _ & ->).
  destruct (read_px _ _) as [s|] eqn:Hs; [|exact I]. simpl.
  rewrite list.Forall_forall in Himg. apply Himg. eapply read_px_elem, Hs.
Qed.

Lemma erode_binary (img : list Z) (width height : nat) (r : Z) :
  Forall is_binary img -> Forall is_binary (erode img width height r).
Proof.
  intros Himg. apply Forall_lookup. intros j v Hv. unfold erode in Hv.
  apply raster_new_cases in Hv as [-> | [_ ->]]; [by left|].
  apply to_u8_clamped_binary. rewrite window_fold_reads.
  apply foldl_min_max_binary; [by left | by right | by apply window_reads_binary].
Qed.

Lemma dilate_binary (img : list Z) (width height : nat) (r : Z) :
  Forall is_binary img -> Forall is_binary (dilate img width height r).
Proof.
  intros Himg. apply Forall_lookup. intros j v Hv. unfold dilate in Hv.
  apply raster_new_cases in Hv as [-> | [_ ->]]; [by left|].
  apply to_u8_clamped_binary. rewrite window_fold_reads.
  apply foldl_min_max_binary; [by right | by left | by apply window_reads_binary].
Qed.

(** C7. On a mask whose samples are all 0 or 255, [morphologyOpen],
    [morphologyCloseK] (for every odd [k >= 3]) and [binaryMajority3x3] give
    arrays whose samples are all 0 or 255. *)
Theorem morphology_two_valued (input : list Z) (width height : nat) :
  Forall is_binary input ->
  Forall is_binary (morphologyOpen input width height) /\
  (forall k, 3 <= k -> Z.odd k = true ->
     Forall is_binary (morphologyCloseK input width height k)) /\
  Forall is_binary (binaryMajority3x3 input width height).
Proof.
  intros Hin. repeat split.
  - unfold morphologyOpen. by apply dilate_binary, erode_binary.
  - intros k _ _. unfold morphologyCloseK. by apply erode_binary, dilate_binary.
  - apply Forall_lookup. intros j v Hv. unfold binaryMajority3x3 in Hv.
    apply raster_new_cases in Hv as [-> | [_ ->]]; [by left|].
    destruct (5 <=? _); [by right | by left].
Qed.

(** *** Opening is anti-extensive *)

Lemma to_u8_clamped_255 (acc : option Z) :
  to_u8_clamped acc = 255 -> exists m, acc = Some m /\ 255 <= m.
Proof.
  destruct acc as [a|]; simpl; [|discriminate].
  intros H. exists a. split; [reflexivity|lia].
Qed.

Lemma index_decompose (width : nat) (px py : Z) :
  0 <= px < Z.of_nat width -> 0 <= py ->
  Z.of_nat (Z.to_nat (py * Z.of_nat width + px) mod width) = px /\
  Z.of_nat (Z.to_nat (py * Z.of_nat width + px) / width) = py.
Proof.
  intros Hpx Hpy.
  rewrite Nat2Z.inj_mod, Nat2Z.inj_div, Z2Nat.id by nia.
  split.
  - symmetry. apply (Z.mod_unique _ _ py); [lia|lia].
  - symmetry. apply (Z.div_unique _ _ _ px); [lia|lia].
Qed.

Lemma coords_of_index (width height j : nat) :
  (j < height * width)%nat ->
  0 <= Z.of_nat (j mod width) < Z.of_nat width /\
  0 <= Z.of_nat (j / width) < Z.of_nat height /\
  Z.of_nat (j / width) * Z.of_nat width + Z.of_nat (j mod width) = Z.of_nat j.
Proof.
  intros Hj. assert (Hw : (width <> 0)%nat) by lia.
  pose proof (Nat.mod_upper_bound j width Hw) as Hm.
  pose proof (Nat.div_mod_eq j width) as Hd.
  assert (Hq : (j / width < height)%nat).
  { apply Nat.Div0.div_lt_upper_bound. lia. }
  repeat split; try lia.
Qed.

(** Where the opened mask is foreground, the input mask is foreground. *)
Lemma morphologyOpen_pointwise (binary : list Z) (width height j : nat) :
  Forall is_binary binary ->
  morphologyOpen binary width height !! j = Some 255 ->
  binary !! j = Some 255.
Proof.
  intros Hbin Hj. unfold morphologyOpen, dilate in Hj.
  apply raster_new_cases in Hj as [Hj | [Hjlt Hj]]; [discriminate|].
  destruct (coords_of_index _ _ _ Hjlt) as (Hx & Hy & Hxy).
  set (x := Z.of_nat (j mod width)) in *. set (y := Z.of_nat (j / width)) in *.
  symmetry in Hj. apply to_u8_clamped_255 in Hj as (m & Hm & Hm255).
  rewrite window_fold_reads in Hm.
  apply foldl_Math_max_Some in Hm as [Hm | Hm]; [injection Hm; lia|].
  apply elem_of_window_reads in Hm as (kx & ky & Hkx & Hky & Hm).
  unfold neighbour in Hm.
  set (px := Z.min (Z.of_nat width - 1) (Z.max 0 (x + kx))) in *.
  set (py := Z.min (Z.of_nat height - 1) (Z.max 0 (y + ky))) in *.
  assert (Hpx : 0 <= px < Z.of_nat width) by lia.
  assert (Hpy : 0 <= py < Z.of_nat height) by lia.
  unfold read_px in Hm.
  destruct (py * Z.of_nat width + px <? 0) eqn:Hneg; [discriminate|].
  symmetry in Hm. unfold erode in Hm.
  apply raster_new_cases in Hm as [Hm | [_ Hm]]; [lia|].
  destruct (index_decompose width px py) as [Hmod Hdiv]; [lia|lia|].
  rewrite Hmod, Hdiv in Hm.
  assert (Hm' : to_u8_clamped
                  (window_fold Math_min (Some 255) binary width height 1 px py) = 255).
  { pose proof (to_u8_clamped_binary
                  (window_fold Math_min (Some 255) binary width height 1 px py)) as Hb.
    rewrite window_fold_reads in Hb |- *. rewrite window_fold_reads in Hm.
    assert (is_binary m) as [-> | ->]; [|lia|by symmetry].
    rewrite Hm. apply Hb. apply foldl_min_max_binary;
      [by left | by right | by apply window_reads_binary]. }
  apply to_u8_clamped_255 in Hm' as (m' & Hmin & Hm'255).
  rewrite window_fold_reads in Hmin.
  apply foldl_Math_min_Some in Hmin as [_ Hall].
  destruct (Hall (read_px binary (neighbour width height px py (x - px) (y - py))))
    as (v & Hv & Hle).
  { apply elem_of_window_reads. exists (x - px), (y - py). repeat split; try lia. }
  assert (Hidx : neighbour width height px py (x - px) (y - py) = Z.of_nat j).
  { unfold neighbour. rewrite <- Hxy. f_equal; [f_equal|]; lia. }
  rewrite Hidx in Hv. unfold read_px in Hv.
  destruct (Z.of_nat j <? 0) eqn:Hjneg; [lia|].
  rewrite Nat2Z.id in Hv. rewrite Hv. f_equal.
  assert (is_binary v) as [-> | ->]; [|lia|reflexivity].
  rewrite list.Forall_forall in Hbin. apply Hbin.
  eapply list_elem_of_lookup_2, Hv.
Qed.

Lemma count_fg_cons (v : Z) (m : list Z) :
  count_fg (v :: m)
  = Nat.add (if decide (v = 255) then 1%nat else 0%nat) (count_fg m).
Proof.
  unfold count_fg. rewrite filter_cons. by case_decide.
Qed.

Lemma count_fg_pointwise (a b : list Z) :
  length a = length b ->
  (forall j, a !! j = Some 255 -> b !! j = Some 255) ->
  (count_fg a <= count_fg b)%nat.
Proof.
  revert b. induction a as [|v a IH]; intros [|w b] Hlen Hpt; try discriminate.
  - reflexivity.
  - rewrite !count_fg_cons.
    assert (count_fg a <= count_fg b)%nat as Hrec.
    { apply IH; [simpl in Hlen; lia|]. intros j Hj. exact (Hpt (S j) Hj). }
    destruct (decide (v = 255)) as [->|Hv].
    + specialize (Hpt 0%nat eq_refl). injection Hpt as ->.
      case_decide; [lia|congruence].
    + case_decide; lia.
Qed.

Lemma morphologyOpen_length (binary : list Z) (width height : nat) :
  length (morphologyOpen binary width height) = length binary.
Proof.
  unfold morphologyOpen, dilate, erode, new_u8.
  by rewrite !raster_length, !length_replicate.
Qed.

(** C5. On every BinaryMask (samples all 0 or 255), of any width and height,
    [morphologyOpen] gives a mask with at most as many foreground (255)
    samples as its input. *)
Theorem morphologyOpen_anti_extensive (binary : list Z) (width height : nat) :
  Forall is_binary binary ->
  (count_fg (morphologyOpen binary width height) <= count_fg binary)%nat.
Proof.
  intros Hbin. apply count_fg_pointwise.
  - apply morphologyOpen_length.
  - intros j. by apply morphologyOpen_pointwise.
Qed.

(** *** The white-run crop when no run exists *)

Lemma for_each_until_inl {S R : Type} (P : nat -> S -> Prop) (idx : list nat)
    (body : nat -> S -> S + R) (s : S) :
  P 0%nat s ->
  (forall k i st, idx !! k = Some i -> P k st ->
     exists st', body i st = inl st' /\ P (Datatypes.S k) st') ->
  exists st', for_each_until idx body s = inl st' /\ P (length idx) st'.
Proof.
  revert P s. induction idx as [|i idx IH]; intros P s H0 Hstep.
  - exists s. split; [reflexivity|exact H0].
  - simpl. destruct (Hstep 0%nat i s eq_refl H0) as (s1 & -> & H1).
    apply (IH (fun k => P (Datatypes.S k))); [exact H1|].
    intros k j st Hk Hst. exact (Hstep (Datatypes.S k) j st Hk Hst).
Qed.

Lemma firstRunAbove_no_run (arr : list Z) (thresh : num) (runReq : Z) :
  1 <= runReq -> ~ has_run arr thresh runReq ->
  firstRunAbove arr thresh runReq = 0.
Proof.
  intros Hreq Hno. unfold firstRunAbove.
  match goal with |- context [for_each_until ?l ?b ?s] =>
    destruct (for_each_until_inl
      (fun k run => 0 <= run < runReq /\ run <= Z.of_nat k /\
         forall d : nat, Z.of_nat d < run ->
           above (arr !! (k - Z.to_nat run + d)%nat) thresh = true)
      l b s) as (st & -> & _); [| |reflexivity]
  end.
  - split; [lia|]. split; [lia|]. intros d Hd. lia.
  - intros k i run Hki (Hrun & Hle & Hall).
    apply lookup_seq in Hki as [-> _]. simpl.
    destruct (above (arr !! k) thresh) eqn:Hk.
    + destruct (runReq <=? run + 1) eqn:Hfull.
      * exfalso. apply Hno. exists (k - Z.to_nat run)%nat. intros d Hd.
        destruct (decide (Z.of_nat d < run)) as [Hlt|Hge]; [by apply Hall|].
        replace (k - Z.to_nat run + d)%nat with k by lia. exact Hk.
      * eexists. split; [reflexivity|]. split; [lia|]. split; [lia|].
        intros d Hd.
        destruct (decide (Z.of_nat d < run)) as [Hlt|Hge].
        -- replace (S k - Z.to_nat (run + 1) + d)%nat
             with (k - Z.to_nat run + d)%nat by lia. by apply Hall.
        -- replace (S k - Z.to_nat (run + 1) + d)%nat with k by lia. exact Hk.
    + eexists. split; [reflexivity|]. split; [lia|]. split; [lia|].
      intros d Hd. lia.
Qed.

Lemma lastRunAbove_no_run (arr : list Z) (thresh : num) (runReq : Z) :
  1 <= runReq -> ~ has_run arr thresh runReq ->
  lastRunAbove arr thresh runReq = Z.of_nat (length arr) - 1.
Proof.
  intros Hreq Hno. unfold lastRunAbove.
  match goal with |- context [for_each_until ?l ?b ?s] =>
    destruct (for_each_until_inl
      (fun k run => 0 <= run < runReq /\ run <= Z.of_nat k /\
         forall d : nat, Z.of_nat d < run ->
           above (arr !! (length arr - k + d)%nat) thresh = true)
      l b s) as (st & -> & _); [| |reflexivity]
  end.
  - split; [lia|]. split; [lia|]. intros d Hd. lia.
  - intros k i run Hki (Hrun & Hle & Hall).
    assert (Hk : (k < length arr)%nat).
    { apply lookup_lt_Some in Hki. by rewrite length_reverse, length_seq in Hki. }
    rewrite reverse_lookup in Hki by (rewrite length_seq; exact Hk).
    rewrite length_seq in Hki. apply lookup_seq in Hki as [-> _]. simpl.
    destruct (above (arr !! (length arr - S k)%nat) thresh) eqn:Hi.
    + destruct (runReq <=? run + 1) eqn:Hfull.
      * exfalso. apply Hno. exists (length arr - S k)%nat. intros d Hd.
        destruct d as [|d]; [by rewrite Nat.add_0_r|].
        replace (length arr - S k + S d)%nat with (length arr - k + d)%nat by lia.
        apply Hall. lia.
      * eexists. split; [reflexivity|]. split; [lia|]. split; [lia|].
        intros d Hd. destruct d as [|d]; [by rewrite Nat.add_0_r|].
        replace (length arr - S k + S d)%nat with (length arr - k + d)%nat by lia.
        apply Hall. lia.
    + eexists. split; [reflexivity|]. split; [lia|]. split; [lia|].
      intros d Hd. lia.
Qed.

Lemma rowSums_length (binary : list Z) (width height : nat) :
  length (rowSums binary width height) = height.
Proof.
  unfold rowSums.
  match goal with |- length (for_range _ _ ?b ?i) = _ =>
    apply (for_range_invariant (fun _ acc => length acc = height) 0 height b i)
  end.
  - apply length_replicate.
  - intros k acc _ Hacc. by rewrite length_insert.
Qed.

Lemma colSums_length (binary : list Z) (width height : nat) :
  length (colSums binary width height) = width.
Proof.
  unfold colSums.
  match goal with |- length (for_range _ _ ?b ?i) = _ =>
    apply (for_range_invariant (fun _ acc => length acc = width) 0 width b i)
  end.
  - apply length_replicate.
  - intros k acc _ Hacc. by rewrite length_insert.
Qed.

(** What the code does where C2 promises [null]: on a mask wider and higher
    than 3 with no sufficiently long run of rows nor of columns above the
    density threshold, [computeAutoCropBox] returns the box of the whole
    image, and the caller cuts a new canvas to it. *)
Theorem computeAutoCropBox_no_run_full_frame (binary : list Z)
    (width height : nat) (opts : crop_opts) :
  (3 < width)%nat -> (3 < height)%nat ->
  1 <= default 10 (opt_minRun opts) ->
  0 <= default 8 (opt_pad opts) ->
  ~ has_run (rowSums binary width height)
      (density_thresh width (default default_minFrac (opt_minFrac opts)))
      (default 10 (opt_minRun opts)) ->
  ~ has_run (colSums binary width height)
      (density_thresh height (default default_minFrac (opt_minFrac opts)))
      (default 10 (opt_minRun opts)) ->
  computeAutoCropBox binary width height opts
  = Some {| box_x := 0; box_y := 0;
            box_w := Z.of_nat width; box_h := Z.of_nat height |} /\
  auto_crop_step (computeAutoCropBox binary width height opts) <> ScaledCanvas.
Proof.
  intros Hw Hh Hrun Hpad Hrows Hcols.
  assert (Hbox : computeAutoCropBox binary width height opts
                 = Some {| box_x := 0; box_y := 0;
                           box_w := Z.of_nat width; box_h := Z.of_nat height |}).
  { unfold computeAutoCropBox.
    rewrite !firstRunAbove_no_run, !lastRunAbove_no_run by assumption.
    rewrite rowSums_length, colSums_length.
    destruct (Z.of_nat height - 1 <=? 0 + 2) eqn:H1; [lia|].
    destruct (Z.of_nat width - 1 <=? 0 + 2) eqn:H2; [lia|].
    simpl. f_equal. f_equal; lia. }
  split; [exact Hbox|]. rewrite Hbox. discriminate.
Qed.

(** *** The order on JavaScript numbers *)

Lemma SFcompare_key (x y : spec_float) :
  SFcompare x y =
  match sf_key x, sf_key y with
  | Some a, Some b =>
      Some (match a.1.1 ?= b.1.1 with
            | Eq => match a.1.2 ?= b.1.2 with Eq => a.2 ?= b.2 | c => c end
            | c => c end)
  | _, _ => None
  end.
Proof.
  destruct x as [sx|sx| |sx mx ex], y as [sy|sy| |sy my ey]; simpl;
    try reflexivity; try (destruct sx; reflexivity); try (destruct sy; reflexivity);
    try (destruct sx, sy; reflexivity).
  destruct sx, sy; simpl; try reflexivity.
  rewrite Z.compare_opp. rewrite (Z.compare_antisym ey ex).
    destruct (ey ?= ex) eqn:He; reflexivity.
Qed.

Lemma key_cmp_lt (a b : Z * Z * Z) : key_cmp a b = Lt <-> key_lt a b.
Proof.
  unfold key_cmp, key_lt.
  destruct (Z.compare_spec a.1.1 b.1.1), (Z.compare_spec a.1.2 b.1.2),
    (Z.compare_spec a.2 b.2); split; intros Hc; try discriminate; try reflexivity; lia.
Qed.

Lemma key_cmp_eq (a b : Z * Z * Z) : key_cmp a b = Eq <-> a = b.
Proof.
  unfold key_cmp. destruct a as [[a1 a2] a3], b as [[b1 b2] b3]. simpl.
  destruct (Z.compare_spec a1 b1), (Z.compare_spec a2 b2),
    (Z.compare_spec a3 b3); split; intros Hc; try discriminate; try reflexivity;
    try (injection Hc; lia); subst; reflexivity.
Qed.

Lemma ltb_key (x y : float) :
  PrimFloat.ltb x y = true <->
  exists a b : Z * Z * Z, sf_key (Prim2SF x) = Some a /\ sf_key (Prim2SF y) = Some b /\ key_lt a b.
Proof.
  rewrite ltb_spec. unfold SFltb. rewrite SFcompare_key.
  destruct (sf_key (Prim2SF x)) as [a|], (sf_key (Prim2SF y)) as [b|].
  - fold (key_cmp a b). split.
    + intros H. exists a, b. repeat split. apply key_cmp_lt.
      destruct (key_cmp a b); congruence.
    + intros (a' & b' & [= <-] & [= <-] & H). apply key_cmp_lt in H. by rewrite H.
  - split; [discriminate|]. intros (a' & b' & _ & [=] & _).
  - split; [discriminate|]. intros (a' & b' & [=] & _).
  - split; [discriminate|]. intros (a' & b' & [=] & _).
Qed.

Lemma leb_key (x y : float) :
  PrimFloat.leb x y = true <->
  exists a b : Z * Z * Z, sf_key (Prim2SF x) = Some a /\ sf_key (Prim2SF y) = Some b /\
    (key_lt a b \/ a = b).
Proof.
  rewrite leb_spec. unfold SFleb. rewrite SFcompare_key.
  destruct (sf_key (Prim2SF x)) as [a|], (sf_key (Prim2SF y)) as [b|].
  - fold (key_cmp a b). split.
    + intros H. exists a, b. repeat split.
      destruct (key_cmp a b) eqn:Hc; try discriminate.
      * right. by apply key_cmp_eq.
      * left. by apply key_cmp_lt.
    + intros (a' & b' & [= <-] & [= <-] & [H | H]).
      * apply key_cmp_lt in H. by rewrite H.
      * apply key_cmp_eq in H. by rewrite H.
  - split; [discriminate|]. intros (a' & b' & _ & [=] & _).
  - split; [discriminate|]. intros (a' & b' & [=] & _).
  - split; [discriminate|]. intros (a' & b' & [=] & _).
Qed.

Lemma ltb_irrefl (x : float) : PrimFloat.ltb x x = false.
Proof.
  apply not_true_is_false. intros H. apply ltb_key in H as (a & b & Ha & Hb & Hlt).
  rewrite Ha in Hb. injection Hb as <-. unfold key_lt in Hlt. lia.
Qed.

Lemma ltb_trans (x y z : float) :
  PrimFloat.ltb x y = true -> PrimFloat.ltb y z = true -> PrimFloat.ltb x z = true.
Proof.
  intros H1 H2. apply ltb_key in H1 as (a & b & Ha & Hb & Hab).
  apply ltb_key in H2 as (b' & c & Hb' & Hc & Hbc).
  rewrite Hb in Hb'. injection Hb' as <-.
  apply ltb_key. exists a, c. repeat split; try assumption.
  unfold key_lt in *. lia.
Qed.

Lemma ltb_leb_trans (x y z : float) :
  PrimFloat.ltb x y = true -> PrimFloat.leb y z = true -> PrimFloat.ltb x z = true.
Proof.
  intros H1 H2. apply ltb_key in H1 as (a & b & Ha & Hb & Hab).
  apply leb_key in H2 as (b' & c & Hb' & Hc & Hbc).
  rewrite Hb in Hb'. injection Hb' as <-.
  apply ltb_key. exists a, c. repeat split; try assumption.
  destruct Hbc as [Hbc | <-]; [|assumption]. unfold key_lt in *. lia.
Qed.

(** A number that is neither below nor above 0 compares like 0. *)
Lemma ltb_zero_like (x v : float) :
  PrimFloat.ltb x 0 = false -> PrimFloat.ltb 0 x = false ->
  PrimFloat.ltb 0 v = false -> PrimFloat.ltb x v = false.
Proof.
  intros Hx0 H0x H0v. apply not_true_is_false. intros Hxv.
  apply ltb_key in Hxv as (a & b & Ha & Hb & Hab).
  assert (H0 : sf_key (Prim2SF 0) = Some (0, 0, 0)) by reflexivity.
  assert (Hlt : ~ key_lt a (0, 0, 0)).
  { intros Hlt. rewrite <- not_true_iff_false in Hx0. apply Hx0.
    apply ltb_key. by exists a, (0, 0, 0). }
  assert (Hgt : ~ key_lt (0, 0, 0) a).
  { intros Hgt. rewrite <- not_true_iff_false in H0x. apply H0x.
    apply ltb_key. by exists (0, 0, 0), a. }
  rewrite <- not_true_iff_false in H0v. apply H0v.
  apply ltb_key. exists (0, 0, 0), b. repeat split; try assumption.
  destruct a as [[a1 a2] a3], b as [[b1 b2] b3].
  unfold key_lt in *. simpl in *. lia.
Qed.

Lemma binary_round_aux_sign (s : bool) (m e : Z) (l : location) :
  sf_sign (binary_round_aux prec emax s m e l) = None \/
  sf_sign (binary_round_aux prec emax s m e l) = Some s.
Proof.
  unfold binary_round_aux.
  destruct (shr_fexp prec emax m e l) as [mrs' e'].
  destruct (shr_fexp prec emax _ e' loc_Exact) as [mrs'' e''].
  destruct (shr_m mrs''); [by right| |by left].
  destruct (e'' <=? emax - prec); by right.
Qed.

Lemma SF64mul_sign (x y : spec_float) (s : bool) :
  sf_sign (SF64mul x y) = Some s ->
  exists sx sy, sf_sign x = Some sx /\ sf_sign y = Some sy /\ s = xorb sx sy.
Proof.
  unfold SF64mul, SFmul.
  destruct x as [sx|sx| |sx mx ex], y as [sy|sy| |sy my ey]; simpl;
    try discriminate; try (intros [= <-]; by exists sx, sy).
  intros Hs. exists sx, sy. repeat split.
  destruct (binary_round_aux_sign (xorb sx sy) (Z.pos (mx * my)) (ex + ey) loc_Exact)
    as [Hn | Hn]; congruence.
Qed.

Lemma num_of_Z_sign (z : Z) (s : bool) :
  0 <= z -> sf_sign (Prim2SF (num_of_Z z)) = Some s -> s = false.
Proof.
  intros Hz. unfold num_of_Z. destruct (z <? 0) eqn:Hneg; [lia|].
  rewrite of_uint63_spec. unfold binary_normalize.
  pose proof (Uint63.to_Z_bounded (Uint63.of_Z z)) as Hb.
  destruct (Uint63Axioms.to_Z (Uint63.of_Z z)) as [|p|p] eqn:Hp.
  - by intros [= <-].
  - unfold binary_round.
    destruct (shl_align _ _ _) as [mz ez].
    destruct (binary_round_aux_sign false (Z.pos mz) ez loc_Exact) as [Hn | Hn];
      congruence.
  - change (Uint63Axioms.to_Z (Uint63.of_Z z)) with (Uint63.to_Z (Uint63.of_Z z)) in Hp.
    lia.
Qed.

(** The computed between-class variance is never below 0. *)
Lemma between_class_not_negative (wB wF sumB sum : Z) :
  0 <= wB -> 0 <= wF ->
  PrimFloat.ltb (between_class wB wF sumB sum) 0 = false.
Proof.
  intros HwB HwF. unfold between_class.
  set (d := (num_of_Z sumB / num_of_Z wB - num_of_Z (sum - sumB) / num_of_Z wF)%float).
  assert (Hsign : forall s, sf_sign (Prim2SF (num_of_Z wB * num_of_Z wF * d * d)%float)
                            = Some s -> s = false).
  { intros s Hs. rewrite mul_spec in Hs.
    apply SF64mul_sign in Hs as (s1 & s2 & Hs1 & Hs2 & ->).
    rewrite mul_spec in Hs1.
    apply SF64mul_sign in Hs1 as (s3 & s4 & Hs3 & Hs4 & ->).
    rewrite mul_spec in Hs3.
    apply SF64mul_sign in Hs3 as (s5 & s6 & Hs5 & Hs6 & ->).
    apply num_of_Z_sign in Hs5; [|assumption].
    apply num_of_Z_sign in Hs6; [|assumption].
    subst. rewrite Hs4 in Hs2. injection Hs2 as <-. by destruct s4. }
  rewrite ltb_spec. unfold SFltb.
  destruct (Prim2SF (num_of_Z wB * num_of_Z wF * d * d)%float) as [s|s| |s m e] eqn:Hp;
    try reflexivity; rewrite (Hsign s eq_refl); reflexivity.
Qed.

(** *** The histogram *)

Lemma hist_incr_length (h : list Z) (v : Z) :
  length (hist_incr h v) = length h.
Proof.
  unfold hist_incr. destruct (v <? 0); [reflexivity|].
  destruct (h !! Z.to_nat v); [apply length_insert|reflexivity].
Qed.

Lemma hist_incr_lookup (h : list Z) (v : Z) (i : nat) :
  0 <= v -> (Z.to_nat v < length h)%nat ->
  bin (hist_incr h v) i = bin h i + (if decide (i = Z.to_nat v) then 1 else 0).
Proof.
  intros Hv Hlt. unfold bin, hist_incr. destruct (v <? 0) eqn:Hneg; [lia|].
  destruct (h !! Z.to_nat v) as [c|] eqn:Hc.
  - case_decide as Hi.
    + subst i. rewrite list_lookup_insert_eq by exact Hlt. by rewrite Hc.
    + rewrite list_lookup_insert_ne by congruence. lia.
  - apply lookup_ge_None in Hc. lia.
Qed.

Lemma hist_entry_nonneg (h : list Z) (i : nat) :
  Forall (fun c => 0 <= c) h -> 0 <= bin h i.
Proof.
  intros Hpos. unfold bin. destruct (h !! i) as [c|] eqn:Hc; [|reflexivity].
  rewrite Forall_lookup in Hpos. exact (Hpos i c Hc).
Qed.

Lemma histogram_of_inv (values : list Z) (h0 : list Z) :
  length h0 = 256%nat -> Forall (fun c => 0 <= c) h0 ->
  Forall (fun v => 0 <= v <= 255) values ->
  let h := foldl hist_incr h0 values in
  length h = 256%nat /\ Forall (fun c => 0 <= c) h /\
  weight_below h 256 = weight_below h0 256 + Z.of_nat (length values).
Proof.
  revert h0. induction values as [|v values IH]; intros h0 Hlen Hpos Hvals;
    cbv zeta in *; cbn [foldl length].
  - repeat split; try assumption. lia.
  - inversion Hvals as [|v' values' Hv Hvals']; subst v' values'.
    assert (Hlt : (Z.to_nat v < length h0)%nat) by lia.
    destruct (IH (hist_incr h0 v)) as (H1 & H2 & H3); try assumption.
    + by rewrite hist_incr_length.
    + apply Forall_lookup. intros i c Hc.
      assert (Hb : bin (hist_incr h0 v) i = c) by (unfold bin; by rewrite Hc).
      rewrite hist_incr_lookup in Hb by lia.
      pose proof (hist_entry_nonneg h0 i Hpos). case_decide; lia.
    + repeat split; try assumption. rewrite H3.
      assert (Hw : forall k, weight_below (hist_incr h0 v) k
                = weight_below h0 k + (if decide (Z.to_nat v < k)%nat then 1 else 0)).
      { induction k as [|k IHk]; cbn [weight_below].
        - repeat case_decide; lia.
        - rewrite IHk, hist_incr_lookup by lia. repeat case_decide; lia. }
      rewrite Hw. case_decide; lia.
Qed.

Lemma weight_below_replicate (k : nat) : weight_below (replicate 256 0) k = 0.
Proof.
  induction k as [|k IH]; cbn [weight_below]; [reflexivity|]. rewrite IH.
  unfold bin. destruct (replicate 256 0 !! k) as [c|] eqn:Hc; [|reflexivity].
  apply lookup_replicate in Hc as [-> _]. reflexivity.
Qed.

Lemma histogram_of_facts (values : list Z) :
  Forall (fun v => 0 <= v <= 255) values ->
  length (histogram_of values) = 256%nat /\
  Forall (fun c => 0 <= c) (histogram_of values) /\
  weight_below (histogram_of values) 256 = Z.of_nat (length values).
Proof.
  intros Hvals. unfold histogram_of.
  destruct (histogram_of_inv values (replicate 256 0)) as (H1 & H2 & H3);
    try assumption.
  - apply length_replicate.
  - apply Forall_replicate. lia.
  - repeat split; [exact H1|exact H2|].
    rewrite H3, weight_below_replicate. lia.
Qed.

Lemma weight_below_mono (h : list Z) (k k' : nat) :
  Forall (fun c => 0 <= c) h -> (k <= k')%nat ->
  0 <= weight_below h k <= weight_below h k'.
Proof.
  intros Hpos Hle.
  assert (H0 : forall n, 0 <= weight_below h n).
  { induction n as [|n IH]; cbn [weight_below]; [lia|].
    pose proof (hist_entry_nonneg h n Hpos). lia. }
  split; [apply H0|].
  induction Hle as [|k' Hle IH]; [lia|]. cbn [weight_below].
  pose proof (hist_entry_nonneg h k' Hpos). lia.
Qed.

Lemma otsu_sum_moment (h : list Z) :
  for_range 0 256 (fun i sum => sum + Z.of_nat i * bin h i) 0 = moment_below h 256.
Proof.
  apply (for_range_invariant (fun k acc => acc = moment_below h k)).
  - reflexivity.
  - intros k acc _ ->. reflexivity.
Qed.
(** *** The threshold loop *)

Lemma for_each_until_inv {S R : Type} (P : nat -> S -> Prop) (Q : R -> Prop)
    (idx : list nat) (body : nat -> S -> S + R) (s : S) :
  P 0%nat s ->
  (forall k i st, idx !! k = Some i -> P k st ->
     match body i st with
     | inl st' => P (Datatypes.S k) st'
     | inr r => Q r
     end) ->
  match for_each_until idx body s with
  | inl st => P (length idx) st
  | inr r => Q r
  end.
Proof.
  revert P s. induction idx as [|i idx IH]; intros P s H0 Hstep.
  - exact H0.
  - simpl. pose proof (Hstep 0%nat i s eq_refl H0) as H1.
    destruct (body i s) as [s1|r]; [|exact H1].
    apply (IH (fun k => P (Datatypes.S k))); [exact H1|].
    intros k j st Hk Hst. exact (Hstep (Datatypes.S k) j st Hk Hst).
Qed.

Lemma splits_spec (values : list Z) (t : nat) :
  splits values t = true <->
  0 < weight_below (histogram_of values) (S t) /\
  0 < Z.of_nat (length values) - weight_below (histogram_of values) (S t).
Proof.
  unfold splits. cbv zeta. rewrite andb_true_iff, !Z.ltb_lt. reflexivity.
Qed.

Lemma otsu_best_weaken (values : list Z) (sum : Z) (k k' : nat) (st : otsu_state) :
  (k <= k')%nat ->
  (forall t, (k <= t < k')%nat -> splits values t = true ->
     js_gt (between_at values sum t) (st_maximum st) = false) ->
  otsu_best values sum k st -> otsu_best values sum k' st.
Proof.
  intros Hle Hnew [Hg1 Hg2]. split.
  - intros t Ht Hs. destruct (decide (t < k)%nat); [by apply Hg1|].
    apply Hnew; [lia|exact Hs].
  - destruct Hg2 as [Hz | (t0 & Ht0 & Hrest)]; [by left|].
    right. exists t0. split; [lia|exact Hrest].
Qed.

Lemma otsu_step (values : list Z) (sum : Z) (k : nat) (st : otsu_state) :
  Forall (fun v => 0 <= v <= 255) values ->
  (k < 256)%nat ->
  otsu_inv values sum k st ->
  match otsu_body (histogram_of values) (Z.of_nat (length values)) sum k st with
  | inl st' => otsu_inv values sum (S k) st'
  | inr st' => otsu_best values sum 256 st'
  end.
Proof.
  intros Hvals Hk (HwB & HsumB & Hbest).
  destruct (histogram_of_facts values Hvals) as (Hlen & Hpos & Htotal).
  pose proof (hist_entry_nonneg (histogram_of values) k Hpos) as Hbin.
  pose proof (weight_below_mono (histogram_of values) k (S k) Hpos ltac:(lia)) as Hmono.
  pose proof (weight_below_mono (histogram_of values) (S k) 256 Hpos ltac:(lia)) as Hmono'.
  unfold otsu_body. rewrite HwB, HsumB.
  change (weight_below (histogram_of values) k + bin (histogram_of values) k)
    with (weight_below (histogram_of values) (S k)).
  change (moment_below (histogram_of values) k
          + Z.of_nat k * bin (histogram_of values) k)
    with (moment_below (histogram_of values) (S k)).
  destruct (weight_below (histogram_of values) (S k) =? 0) eqn:Hw0.
  { (* continue *)
    apply Z.eqb_eq in Hw0. split; [reflexivity|]. split.
    - cbn [st_sumB moment_below]. cbn [weight_below] in Hw0, Hmono.
      assert (bin (histogram_of values) k = 0) as -> by lia. lia.
    - apply (otsu_best_weaken values sum k); [lia| |exact Hbest].
      intros t Ht Hs. assert (t = k) as -> by lia.
      apply splits_spec in Hs. lia. }
  apply Z.eqb_neq in Hw0.
  destruct (Z.of_nat (length values) - weight_below (histogram_of values) (S k) =? 0)
    eqn:Hf0.
  { (* break *)
    apply Z.eqb_eq in Hf0.
    apply (otsu_best_weaken values sum k); [lia| |exact Hbest].
    intros t Ht Hs. apply splits_spec in Hs.
    pose proof (weight_below_mono (histogram_of values) (S k) (S t) Hpos ltac:(lia)).
    lia. }
  apply Z.eqb_neq in Hf0.
  assert (Hsk : splits values k = true) by (apply splits_spec; lia).
  fold (between_at values sum k).
  destruct Hbest as [Hg1 Hg2].
  destruct (js_gt (between_at values sum k) (st_maximum st)) eqn:Hgt.
  - (* a new maximum *)
    split; [reflexivity|]. split; [reflexivity|]. unfold js_gt, js_ge in *.
    split; cbn [st_maximum st_threshold].
    + intros t Ht Hs. destruct (decide (t = k)) as [->|Hne]; [apply ltb_irrefl|].
      apply not_true_is_false. intros Hc.
      pose proof (Hg1 t ltac:(lia) Hs) as Hold.
      rewrite (ltb_trans _ _ _ Hgt Hc) in Hold. discriminate.
    + right. exists k. split; [lia|]. split; [reflexivity|]. split; [exact Hsk|].
      split; [reflexivity|]. split.
      * destruct Hg2 as [[_ Hm] | (t0 & _ & _ & _ & Hm & Hpos0 & _)].
        -- by rewrite Hm in Hgt.
        -- rewrite Hm in Hgt. exact (ltb_trans _ _ _ Hpos0 Hgt).
      * intros t Ht Hs. apply not_true_is_false. intros Hc.
        pose proof (Hg1 t ltac:(lia) Hs) as Hold.
        rewrite (ltb_leb_trans _ _ _ Hgt Hc) in Hold. discriminate.
  - (* the maximum stands *)
    split; [reflexivity|]. split; [reflexivity|].
    apply (otsu_best_weaken values sum k); [lia| |by split].
    intros t Ht Hs. assert (t = k) as -> by lia. exact Hgt.
Qed.

Lemma otsu_loop_best (values : list Z) (sum : Z) :
  Forall (fun v => 0 <= v <= 255) values ->
  match for_each_until (seq 0 256)
          (otsu_body (histogram_of values) (Z.of_nat (length values)) sum)
          {| st_sumB := 0; st_wB := 0; st_maximum := 0%float; st_threshold := 0 |}
  with
  | inl st => otsu_best values sum 256 st
  | inr st => otsu_best values sum 256 st
  end.
Proof.
  intros Hvals.
  pose proof (for_each_until_inv
    (fun k st => (k <= 256)%nat /\ otsu_inv values sum k st)
    (otsu_best values sum 256)
    (seq 0 256)
    (otsu_body (histogram_of values) (Z.of_nat (length values)) sum)
    {| st_sumB := 0; st_wB := 0; st_maximum := 0%float; st_threshold := 0 |}) as H.
  rewrite length_seq in H.
  match type of H with ?A -> ?B -> ?C =>
    assert (HA : A); [|assert (HB : B); [|specialize (H HA HB)]]
  end.
  - split; [lia|]. split; [reflexivity|]. split; [reflexivity|].
    split; [intros t Ht; lia|]. left. by split.
  - intros k i st Hki [Hk Hinv]. apply lookup_seq in Hki as [-> Hlt].
    pose proof (otsu_step values sum k st Hvals Hlt Hinv) as Hstep.
    change (0 + k)%nat with k.
    destruct (otsu_body _ _ _ k st); [|exact Hstep]. split; [lia|exact Hstep].
  - destruct (for_each_until _ _ _) as [st|st]; [|exact H].
    destruct H as [_ (_ & _ & H)]. exact H.
Qed.

Lemma variance_at_between (values : list Z) (t : nat) :
  variance_at values t
  = if splits values t
    then between_at values (moment_below (histogram_of values) 256) t
    else 0%float.
Proof. reflexivity. Qed.

Lemma between_at_not_negative (values : list Z) (sum : Z) (t : nat) :
  splits values t = true ->
  PrimFloat.ltb (between_at values sum t) 0 = false.
Proof.
  intros Hs. apply splits_spec in Hs. unfold between_at. cbv zeta.
  apply between_class_not_negative; lia.
Qed.

Lemma otsu_best_argmax (values : list Z) (st : otsu_state) :
  otsu_best values (moment_below (histogram_of values) 256) 256 st ->
  0 <= st_threshold st <= 255 /\
  forall t : nat, (t <= 255)%nat ->
    js_gt (variance_at values t)
          (variance_at values (Z.to_nat (st_threshold st))) = false /\
    (Z.of_nat t < st_threshold st ->
     js_ge (variance_at values t)
           (variance_at values (Z.to_nat (st_threshold st))) = false).
Proof.
  intros [Hg1 Hg2]. unfold js_gt, js_ge in *.
  set (sum := moment_below (histogram_of values) 256) in *.
  destruct Hg2 as [[Hthr Hmax] | (t0 & Ht0 & Hthr & Hs0 & Hmax & Hpos0 & Hlow)].
  - (* nothing selected: no splitting threshold has a positive variance *)
    rewrite Hthr. split; [lia|]. intros t Ht. split; [|lia].
    change (Z.to_nat 0) with 0%nat. rewrite Hmax in Hg1.
    assert (Hv : PrimFloat.ltb 0 (variance_at values t) = false).
    { rewrite variance_at_between. destruct (splits values t) eqn:Hs.
      - apply Hg1; [lia|exact Hs].
      - apply ltb_irrefl. }
    rewrite (variance_at_between values 0). destruct (splits values 0) eqn:Hs0.
    + apply ltb_zero_like; [by apply between_at_not_negative| |exact Hv].
      apply Hg1; [lia|exact Hs0].
    + exact Hv.
  - (* threshold t0 selected *)
    rewrite Hthr, Nat2Z.id. split; [lia|]. intros t Ht.
    rewrite (variance_at_between values t0), Hs0. fold sum.
    rewrite Hmax in Hg1. rewrite variance_at_between. fold sum.
    destruct (splits values t) eqn:Hs.
    + split; [apply Hg1; [lia|exact Hs]|]. intros Hlt. apply Hlow; [lia|exact Hs].
    + split.
      * apply not_true_is_false. intros Hc.
        pose proof (ltb_trans _ _ _ Hpos0 Hc) as Habs.
        by rewrite ltb_irrefl in Habs.
      * intros _. apply not_true_is_false. intros Hc.
        pose proof (ltb_leb_trans _ _ _ Hpos0 Hc) as Habs.
        by rewrite ltb_irrefl in Habs.
Qed.

(** *** The histogram and the two classes of a threshold *)

Lemma weight_below_incr (h : list Z) (v : Z) (k : nat) :
  0 <= v -> (Z.to_nat v < length h)%nat ->
  weight_below (hist_incr h v) k
  = weight_below h k + (if decide (Z.to_nat v < k)%nat then 1 else 0).
Proof.
  intros Hv Hlt. induction k as [|k IHk]; cbn [weight_below].
  - case_decide; lia.
  - rewrite IHk, hist_incr_lookup by lia. repeat case_decide; lia.
Qed.

(** The histogram counts: the bins below [k] hold the samples below [k]. *)
Lemma weight_below_count (values h0 : list Z) (k : nat) :
  length h0 = 256%nat -> Forall (fun v => 0 <= v <= 255) values ->
  weight_below (foldl hist_incr h0 values) k
  = weight_below h0 k
    + Z.of_nat (length (filter (fun v => v < Z.of_nat k) values)).
Proof.
  revert h0. induction values as [|v values IH]; intros h0 Hlen Hvals.
  - simpl. lia.
  - inversion Hvals as [|? ? Hv Hvals']; subst. cbn [foldl].
    rewrite IH by (rewrite ?hist_incr_length; assumption).
    rewrite weight_below_incr by lia. rewrite filter_cons.
    repeat case_decide; cbn [length]; lia.
Qed.

Lemma moment_below_incr (h : list Z) (v : Z) (k : nat) :
  0 <= v -> (Z.to_nat v < length h)%nat ->
  moment_below (hist_incr h v) k
  = moment_below h k + (if decide (Z.to_nat v < k)%nat then v else 0).
Proof.
  intros Hv Hlt. induction k as [|k IHk]; cbn [moment_below].
  - case_decide; lia.
  - rewrite IHk, hist_incr_lookup by lia.
    destruct (decide (k = Z.to_nat v)) as [->|Hk].
    + rewrite Z2Nat.id by lia. repeat case_decide; lia.
    + repeat case_decide; lia.
Qed.

Lemma sum_of_cons (v : Z) (l : list Z) : sum_of (v :: l) = v + sum_of l.
Proof. reflexivity. Qed.

(** The first moment of the bins below [k] is the sum of the samples below
    [k]. *)
Lemma moment_below_sum (values h0 : list Z) (k : nat) :
  length h0 = 256%nat -> Forall (fun v => 0 <= v <= 255) values ->
  moment_below (foldl hist_incr h0 values) k
  = moment_below h0 k + sum_of (filter (fun v => v < Z.of_nat k) values).
Proof.
  revert h0. induction values as [|v values IH]; intros h0 Hlen Hvals.
  - simpl. lia.
  - inversion Hvals as [|? ? Hv Hvals']; subst. cbn [foldl].
    rewrite IH by (rewrite ?hist_incr_length; assumption).
    rewrite moment_below_incr by lia. rewrite filter_cons.
    repeat case_decide; rewrite ?sum_of_cons; lia.
Qed.

Lemma moment_below_replicate (k : nat) : moment_below (replicate 256 0) k = 0.
Proof.
  induction k as [|k IH]; cbn [moment_below]; [reflexivity|]. rewrite IH.
  unfold bin. destruct (replicate 256 0 !! k) as [c|] eqn:Hc; [|simpl; lia].
  apply lookup_replicate in Hc as [-> _]. simpl. lia.
Qed.

(** The two classes of a threshold share out the samples. *)
Lemma classes_cover (values : list Z) (t : Z) :
  Z.of_nat (length values)
  = Z.of_nat (length (filter (fun v => v <= t) values))
    + Z.of_nat (length (filter (fun v => t < v) values)) /\
  sum_of values
  = sum_of (filter (fun v => v <= t) values) + sum_of (filter (fun v => t < v) values).
Proof.
  induction values as [|v values [IHl IHs]]; [done|].
  rewrite !filter_cons.
  repeat case_decide; rewrite ?sum_of_cons; cbn [length]; lia.
Qed.

Lemma class_below (values : list Z) (k : nat) :
  filter (fun v => v < Z.of_nat (S k)) values = filter (fun v => v <= Z.of_nat k) values.
Proof. apply list_filter_iff. intros v. lia. Qed.

Lemma class_of_all (values : list Z) :
  Forall (fun v => 0 <= v <= 255) values ->
  filter (fun v => v < Z.of_nat 256) values = values.
Proof.
  induction 1 as [|v values Hv Hvals IH]; [done|].
  rewrite filter_cons, IH. case_decide; [done|lia].
Qed.

(** The variance the loop computes from the running sums of the histogram
    is the variance of the two classes of the threshold. *)
Lemma variance_at_class (values : list Z) (t : nat) :
  Forall (fun v => 0 <= v <= 255) values ->
  variance_at values t = class_variance values (Z.of_nat t).
Proof.
  intros Hvals. unfold variance_at, splits, class_variance. cbv zeta.
  unfold histogram_of.
  rewrite (weight_below_count values (replicate 256 0) (S t)),
          (moment_below_sum values (replicate 256 0) (S t)),
          (moment_below_sum values (replicate 256 0) 256)
    by (rewrite ?length_replicate; auto).
  rewrite weight_below_replicate, !moment_below_replicate, !Z.add_0_l.
  rewrite class_below, (class_of_all values Hvals).
  destruct (classes_cover values (Z.of_nat t)) as [Hl Hs].
  set (background := filter (fun v => v <= Z.of_nat t) values) in *.
  set (foreground := filter (fun v => Z.of_nat t < v) values) in *.
  replace (Z.of_nat (length values) - Z.of_nat (length background))
    with (Z.of_nat (length foreground)) by lia.
  unfold between_class. cbv zeta.
  replace (sum_of values - sum_of background) with (sum_of foreground) by lia.
  destruct (length background) as [|nb]; [reflexivity|].
  destruct (length foreground) as [|nf]; reflexivity.
Qed.

(** C6, amended. On every non-empty array of intensities in 0..255,
    [otsuThreshold] returns an integer in [0, 255] that maximises the
    between-class variance [wB * wF * (mB - mF)^2] of the two classes of a
    threshold as it comes out in double precision (no threshold in 0..255
    has a larger [class_variance]), and it is the lowest threshold attaining
    that maximum (no lower threshold has one as large). *)
Theorem otsuThreshold_lowest_argmax (values : list Z) :
  values <> [] ->
  Forall (fun v => 0 <= v <= 255) values ->
  0 <= otsuThreshold values <= 255 /\
  forall t : Z, 0 <= t <= 255 ->
    js_gt (class_variance values t)
          (class_variance values (otsuThreshold values)) = false /\
    (t < otsuThreshold values ->
     js_ge (class_variance values t)
           (class_variance values (otsuThreshold values)) = false).
Proof.
  intros _ Hvals.
  assert (Hloop : 0 <= otsuThreshold values <= 255 /\
            forall t : nat, (t <= 255)%nat ->
              js_gt (variance_at values t)
                    (variance_at values (Z.to_nat (otsuThreshold values))) = false /\
              (Z.of_nat t < otsuThreshold values ->
               js_ge (variance_at values t)
                     (variance_at values (Z.to_nat (otsuThreshold values))) = false)).
  { unfold otsuThreshold. cbv zeta. rewrite otsu_sum_moment.
    pose proof (otsu_loop_best values (moment_below (histogram_of values) 256) Hvals)
      as Hbest.
    destruct (for_each_until _ _ _) as [st|st]; by apply otsu_best_argmax. }
  destruct Hloop as [Hrange Hmax]. split; [exact Hrange|]. intros t Ht.
  specialize (Hmax (Z.to_nat t) ltac:(lia)).
  rewrite !variance_at_class, !Z2Nat.id in Hmax by (assumption || lia).
  exact Hmax.
Qed.

(** *** Phone normalisation *)

Lemma digits_of_phone_chars (s : jsstring) :
  digits_of (phone_chars s) = digits_of s.
Proof.
  unfold digits_of, phone_chars. induction s as [|c s IH]; [reflexivity|].
  rewrite (filter_cons (fun ch => is_digit ch = true) c s).
  rewrite (filter_cons (fun c => is_digit c || (c =? 43) = true) c s).
  destruct (decide (is_digit c || (c =? 43) = true)) as [Hk|Hk].
  - rewrite filter_cons. destruct (decide (is_digit c = true)); by rewrite IH.
  - destruct (decide (is_digit c = true)) as [Hd|Hd]; [|exact IH].
    rewrite Hd in Hk. done.
Qed.

Lemma normalizePhoneValue_unfold (value : jsstring) :
  normalizePhoneValue (Some value)
  = match phone_chars value with
    | [] => None
    | c :: rest => if c =? 43 then Some (43 :: digits_of rest)
                   else Some (digits_of (c :: rest))
    end.
Proof.
  destruct value as [|c value]; [reflexivity|].
  unfold normalizePhoneValue, phone_chars, digits_of. cbv zeta.
  destruct (filter _ (c :: value)); reflexivity.
Qed.




(** *** Email normalisation *)

(** Conversion of boolean tests on code units to linear arithmetic. *)
Ltac bool_to_prop :=
  rewrite ?orb_true_iff, ?andb_true_iff, ?negb_true_iff, ?orb_false_iff,
    ?andb_false_iff, ?negb_false_iff, ?Z.eqb_eq, ?Z.eqb_neq, ?Z.leb_le, ?Z.leb_gt in *.

Lemma confusion_map_range (c : Z) :
  let d := confusion_map c in
  d <> 79 /\ d <> 73 /\ d <> 83 /\ d <> 66 /\ d <> 90 /\ d <> 48 /\ d <> 49 /\ d <> 53.
Proof.
  cbv zeta. unfold confusion_map.
  repeat match goal with
         | |- context [if ?a =? ?b then _ else _] => destruct (Z.eqb_spec a b)
         end; lia.
Qed.

Lemma stable_after_lower (c : Z) :
  c <> 48 -> c <> 49 -> c <> 53 ->
  email_alphabet c = true -> stable_char (lower_ascii c) = true.
Proof.
  intros H48 H49 H53 H.
  unfold lower_ascii. destruct (is_upper c) eqn:Hu;
  unfold stable_char, email_alphabet, is_alnum, is_digit, is_upper, is_lower in *;
  bool_to_prop; lia.
Qed.

Lemma stable_char_fixed (c : Z) :
  stable_char c = true ->
  is_space c = false /\ normalize_punct c = c /\ confusion_map c = c /\
  email_alphabet c = true /\ lower_ascii c = c.
Proof.
  intros H.
  assert (Hr : (97 <= c <= 122) \/ (50 <= c <= 52) \/ (54 <= c <= 57) \/
               c = 46 \/ c = 95 \/ c = 37 \/ c = 43 \/ c = 64 \/ c = 45).
  { unfold stable_char, is_digit, is_lower in H. bool_to_prop. lia. }
  clear H. repeat split.
  - unfold is_space. bool_to_prop. lia.
  - unfold normalize_punct.
    repeat match goal with
           | |- context [?a =? ?b] =>
               let E := fresh in
               assert (E : (a =? b) = false) by (apply Z.eqb_neq; lia);
               rewrite E; clear E; cbn [orb]
           end.
    reflexivity.
  - unfold confusion_map.
    repeat match goal with
           | |- context [if ?a =? ?b then _ else _] => destruct (Z.eqb_spec a b); try lia
           end.
  - unfold email_alphabet, is_alnum, is_digit, is_upper, is_lower. bool_to_prop. lia.
  - unfold lower_ascii. destruct (is_upper c) eqn:Hu; [|reflexivity].
    unfold is_upper in Hu. bool_to_prop. lia.
Qed.

Lemma collapse_dots_Forall (P : Z -> Prop) (s : list Z) :
  Forall P s -> Forall P (collapse_dots s).
Proof.
  induction 1 as [|c s Hc Hs IH]; [constructor|].
  simpl. destruct (c =? 46); [|by constructor].
  destruct s as [|d s]; [by repeat constructor|].
  destruct (d =? 46); [exact IH|by constructor].
Qed.

Lemma collapse_dots_head (s : list Z) : head (collapse_dots s) = head s.
Proof.
  induction s as [|c s IH]; [reflexivity|].
  simpl. destruct (c =? 46) eqn:Hc; [|reflexivity].
  destruct s as [|d s]; [reflexivity|].
  destruct (d =? 46) eqn:Hd; [|reflexivity].
  rewrite IH. simpl. apply Z.eqb_eq in Hc, Hd. congruence.
Qed.

Lemma collapse_dots_idem (s : list Z) :
  collapse_dots (collapse_dots s) = collapse_dots s.
Proof.
  induction s as [|c s IH]; [reflexivity|].
  simpl. destruct (c =? 46) eqn:Hc.
  - destruct s as [|d s]; [simpl; by rewrite Hc|].
    destruct (d =? 46) eqn:Hd; [exact IH|].
    pose proof (collapse_dots_head (d :: s)) as Hh.
    destruct (collapse_dots (d :: s)) as [|d' s'] eqn:Hds; [discriminate|].
    injection Hh as ->. try rewrite Hds in IH.
    change (collapse_dots (c :: d :: s'))
      with (if c =? 46
            then if d =? 46 then collapse_dots (d :: s') else c :: collapse_dots (d :: s')
            else c :: collapse_dots (d :: s')).
    by rewrite Hc, Hd, IH.
  - cbn [collapse_dots]. rewrite Hc. by rewrite IH.
Qed.

Lemma normalize_output_stable (x : list Z) :
  Forall (fun c => stable_char c = true) (normalizeEmailCandidate x).
Proof.
  unfold normalizeEmailCandidate. destruct x as [|c0 x]; [constructor|].
  cbv zeta. generalize (filter (fun c => is_space c = false) (c0 :: x)). intros s.
  apply Forall_fmap. apply Forall_forall. intros c Hc.
  apply list_elem_of_filter in Hc as [Halpha Hc].
  assert (Hall : Forall (fun d => d <> 48 /\ d <> 49 /\ d <> 53)
                   (collapse_dots (confusion_map <$> (normalize_punct <$> s)))).
  { apply collapse_dots_Forall, Forall_fmap, Forall_forall. intros d _.
    pose proof (confusion_map_range d) as Hr. cbv zeta in Hr. simpl. tauto. }
  rewrite Forall_forall in Hall. destruct (Hall c Hc) as (H48 & H49 & H53).
  simpl. by apply stable_after_lower.
Qed.

Lemma filter_all {A : Type} (P : A -> Prop) `{!forall a, Decision (P a)} (l : list A) :
  Forall P l -> filter P l = l.
Proof.
  induction 1 as [|a l Ha Hl IH]; [reflexivity|].
  rewrite filter_cons, decide_True by exact Ha. by rewrite IH.
Qed.

Lemma fmap_fixed {A : Type} (f : A -> A) (l : list A) :
  Forall (fun a => f a = a) l -> f <$> l = l.
Proof.
  induction 1 as [|a l Ha Hl IH]; [reflexivity|].
  by rewrite fmap_cons, Ha, IH.
Qed.

Lemma normalize_on_stable (y : list Z) :
  Forall (fun c => stable_char c = true) y ->
  normalizeEmailCandidate y = collapse_dots y.
Proof.
  intros Hy. unfold normalizeEmailCandidate. destruct y as [|c0 y]; [reflexivity|].
  cbv zeta.
  assert (Hfix : Forall (fun c => is_space c = false /\ normalize_punct c = c /\
                                   confusion_map c = c /\ email_alphabet c = true /\
                                   lower_ascii c = c) (c0 :: y)).
  { eapply Forall_impl; [exact Hy|]. intros c. apply stable_char_fixed. }
  assert (E1 : filter (fun c => is_space c = false) (c0 :: y) = c0 :: y).
  { apply filter_all. eapply Forall_impl; [exact Hfix|]. intros c (H1 & H2 & H3 & H4 & H5); assumption. }
  assert (E2 : normalize_punct <$> (c0 :: y) = c0 :: y).
  { apply fmap_fixed. eapply Forall_impl; [exact Hfix|]. intros c (H1 & H2 & H3 & H4 & H5); assumption. }
  assert (E3 : confusion_map <$> (c0 :: y) = c0 :: y).
  { apply fmap_fixed. eapply Forall_impl; [exact Hfix|]. intros c (H1 & H2 & H3 & H4 & H5); assumption. }
  assert (E4 : filter (fun c => email_alphabet c = true) (collapse_dots (c0 :: y))
               = collapse_dots (c0 :: y)).
  { apply filter_all, collapse_dots_Forall.
    eapply Forall_impl; [exact Hfix|]. intros c (H1 & H2 & H3 & H4 & H5); assumption. }
  rewrite E1, E2, E3, E4.
  apply fmap_fixed, collapse_dots_Forall.
  eapply Forall_impl; [exact Hfix|]. intros c (H1 & H2 & H3 & H4 & H5); assumption.
Qed.

(** What holds in place of C3: the second pass only collapses the repeated
    dots the first pass left, and the result of the second pass is a fixed
    point. *)
Theorem normalizeEmailCandidate_stabilises (x : list Z) :
  normalizeEmailCandidate (normalizeEmailCandidate x) = collapse_dots (normalizeEmailCandidate x) /\
  normalizeEmailCandidate (normalizeEmailCandidate (normalizeEmailCandidate x))
  = normalizeEmailCandidate (normalizeEmailCandidate x).
Proof.
  pose proof (normalize_output_stable x) as Hx.
  rewrite (normalize_on_stable _ Hx). split; [reflexivity|].
  rewrite (normalize_on_stable _ (collapse_dots_Forall _ _ Hx)).
  apply collapse_dots_idem.
Qed.

(** C3 fails on the code: the dots are collapsed before the characters
    outside the email alphabet are dropped, so two dots that a dropped
    character separated come out adjacent, and a second pass collapses them. *)
Theorem normalizeEmailCandidate_second_pass_differs :
  normalizeEmailCandidate (js "a.,.b@c.de") = js "a..b@c.de" /\
  normalizeEmailCandidate (normalizeEmailCandidate (js "a.,.b@c.de")) = js "a.b@c.de" /\
  normalizeEmailCandidate (normalizeEmailCandidate (js "a.,.b@c.de"))
  <> normalizeEmailCandidate (js "a.,.b@c.de").
Proof.
  repeat split; try reflexivity. vm_compute. discriminate.
Qed.

(** *** Instances at concrete inputs *)

Lemma morphology_two_valued_witness :
  Forall is_binary [0; 255; 255; 0] /\
  Forall is_binary (morphologyOpen [0; 255; 255; 0] 2 2) /\
  Forall is_binary (morphologyCloseK [0; 255; 255; 0] 2 2 5) /\
  Forall is_binary (binaryMajority3x3 [0; 255; 255; 0] 2 2).
Proof.
  assert (H : Forall is_binary [0; 255; 255; 0]).
  { repeat constructor; unfold is_binary; lia. }
  destruct (morphology_two_valued [0; 255; 255; 0] 2 2 H) as (Ho & Hc & Hm).
  split; [exact H|]. split; [exact Ho|]. split; [|exact Hm].
  apply Hc; [lia|reflexivity].
Defined.

Lemma morphologyOpen_anti_extensive_witness :
  Forall is_binary [0; 255; 255; 0; 255; 255; 255; 255; 255] /\
  Nat.le (count_fg (morphologyOpen [0; 255; 255; 0; 255; 255; 255; 255; 255] 3 3))
         (count_fg [0; 255; 255; 0; 255; 255; 255; 255; 255]).
Proof.
  assert (H : Forall is_binary [0; 255; 255; 0; 255; 255; 255; 255; 255]).
  { repeat constructor; unfold is_binary; lia. }
  split; [exact H|].
  exact (morphologyOpen_anti_extensive [0; 255; 255; 0; 255; 255; 255; 255; 255] 3 3 H).
Defined.

Lemma otsuThreshold_lowest_argmax_witness :
  [10; 10; 200; 200; 200] <> [] /\
  Forall (fun v => 0 <= v <= 255) [10; 10; 200; 200; 200] /\
  otsuThreshold [10; 10; 200; 200; 200] = 10 /\
  js_gt (class_variance [10; 10; 200; 200; 200] 100)
        (class_variance [10; 10; 200; 200; 200] 10) = false /\
  js_ge (class_variance [10; 10; 200; 200; 200] 9)
        (class_variance [10; 10; 200; 200; 200] 10) = false.
Proof.
  assert (Hne : [10; 10; 200; 200; 200] <> []) by discriminate.
  assert (Hin : Forall (fun v => 0 <= v <= 255) [10; 10; 200; 200; 200]).
  { repeat constructor; lia. }
  assert (Ht : otsuThreshold [10; 10; 200; 200; 200] = 10) by (vm_compute; reflexivity).
  destruct (otsuThreshold_lowest_argmax [10; 10; 200; 200; 200] Hne Hin) as [_ Hmax].
  rewrite Ht in Hmax.
  split; [exact Hne|]. split; [exact Hin|]. split; [exact Ht|]. split.
  - apply (Hmax 100). lia.
  - apply (Hmax 9); lia.
Defined.

(** C6 fails on the code as stated: the thresholds 0 and 1 of the samples
    0, 1, 1, 2 have the same between-class variance, 16/3, which no threshold
    in 0..255 exceeds, so the lowest threshold attaining the maximum is 0;
    [otsuThreshold] returns 1. In double precision the variance of
    threshold 1 comes out above that of threshold 0. *)
Theorem otsuThreshold_tie_not_lowest :
  (forall t, 0 <= t <= 255 ->
     (exact_variance tie_samples t <= exact_variance tie_samples 0)%Q) /\
  (exact_variance tie_samples 0 == 16 # 3)%Q /\
  (exact_variance tie_samples 1 == 16 # 3)%Q /\
  otsuThreshold tie_samples = 1 /\
  js_gt (class_variance tie_samples 1) (class_variance tie_samples 0) = true.
Proof.
  split; [|repeat split; vm_compute; reflexivity].
  intros t Ht.
  assert (H : forallb (fun t => Qle_bool (exact_variance tie_samples t)
                                         (exact_variance tie_samples 0))
                      (seqZ 0 256) = true) by (vm_compute; reflexivity).
  rewrite forallb_forall in H. apply Qle_bool_iff, H.
  apply list_elem_of_In, elem_of_seqZ. lia.
Qed.

Lemma no_run_in_zeros (n : nat) (thresh : num) (runReq : Z) :
  1 <= runReq -> js_gt 0%float thresh = false ->
  ~ has_run (replicate n 0) thresh runReq.
Proof.
  intros Hreq Hgt [s Hs]. specialize (Hs 0%nat ltac:(lia)).
  unfold above in Hs. destruct (replicate n 0 !! (s + 0)%nat) as [a|] eqn:Ha;
    [|discriminate].
  apply lookup_replicate in Ha as [-> _]. change (num_of_Z 0) with 0%float in Hs.
  congruence.
Qed.

Lemma computeAutoCropBox_no_run_full_frame_witness :
  computeAutoCropBox (replicate 16 0) 4 4 preprocess_crop_opts
  = Some {| box_x := 0; box_y := 0; box_w := 4; box_h := 4 |} /\
  auto_crop_step (computeAutoCropBox (replicate 16 0) 4 4 preprocess_crop_opts)
  <> ScaledCanvas.
Proof.
  apply (computeAutoCropBox_no_run_full_frame (replicate 16 0) 4 4 preprocess_crop_opts).
  - lia.
  - lia.
  - simpl. lia.
  - simpl. lia.
  - change (rowSums (replicate 16 0) 4 4) with (replicate 4 0).
    apply no_run_in_zeros; [simpl; lia|reflexivity].
  - change (colSums (replicate 16 0) 4 4) with (replicate 4 0).
    apply no_run_in_zeros; [simpl; lia|reflexivity].
Defined.

(** *** Field extraction misses *)

Lemma trimmed_texts_all_text (segment : list word) :
  (forall w, w ∈ segment -> is_Some (w_text w)) ->
  trimmed_texts segment
  = Returned ((fun w => js_trim (default [] (w_text w))) <$> segment).
Proof.
  induction segment as [|w segment IH]; intros Hall; [reflexivity|].
  simpl. destruct (Hall w) as [t Ht]; [by left|]. rewrite Ht.
  rewrite IH; [reflexivity|]. intros w' Hw'. apply Hall. by right.
Qed.






(** *** Confidence-gated refinement *)

(** C1 fails on the code as stated: a field with a bounding box and an empty
    value (so eligible), of confidence 50, takes the refined value ["x"]
    although the refined confidence, 10, does not exceed 50. *)
Lemma maybeRefine_accepts_lower_confidence_on_empty_value :
  let fld := {| f_value := None; f_confidence := 50%float;
                f_words := None; f_bbox := Some example_bbox |} in
  eligible fld = true /\
  maybeRefineLowConfidence (example_engine 10%float) example_canvas fld
    (js "0123456789") 7 None None
  = {| f_value := Some (js "x"); f_confidence := 10%float;
       f_words := None; f_bbox := Some example_bbox |} /\
  js_gt 10%float (f_confidence fld) = false.
Proof. repeat split; vm_compute; reflexivity. Qed.

(** C1, amended. For a field with a bounding box that is eligible for
    refinement, the refinement pass accepts the refined value (and its
    confidence) exactly when the box coordinates are numbers, the refined
    value is non-empty, and the original value is empty or the refined
    confidence exceeds the original confidence; in every other case the
    field is returned unchanged. *)
Theorem maybeRefine_accepts_iff
    (recognize : engine_params -> region -> recognition)
    (cv : canvas) (fld : field) (whitelist : jsstring) (psm : Z)
    (postProcess postExtract : option (option jsstring -> option jsstring))
    (b : bbox) :
  f_bbox fld = Some b ->
  eligible fld = true ->
  let refined :=
    recognize {| p_pageseg_mode := psm; p_char_whitelist := whitelist |}
              (refine_region cv b) in
  let refinedValue := refined_value refined postProcess postExtract in
  let refinedConfidence := refined_confidence refined in
  maybeRefineLowConfidence recognize cv fld whitelist psm postProcess postExtract
  = if refine_accepts fld b refinedValue refinedConfidence
    then {| f_value := refinedValue; f_confidence := refinedConfidence;
            f_words := f_words fld; f_bbox := f_bbox fld |}
    else fld.
Proof.
  intros Hb Hel. cbv zeta. unfold maybeRefineLowConfidence, refine_accepts.
  rewrite Hb, Hel. cbn [negb].
  destruct (forallb valid_coord _); [|reflexivity]. cbn [negb andb].
  destruct (truthy (refined_value _ _ _)); [|reflexivity]. cbn [negb andb].
  destruct (negb (truthy (f_value fld)) || js_gt _ _); reflexivity.
Qed.

(** Scenario 2 of the specification: an email field of confidence 45 with a
    bounding box is refined, and ends with confidence 80 when the refined
    pass reads a non-empty value with confidence 80. *)
Lemma maybeRefine_accepts_iff_witness :
  let fld := {| f_value := Some (js "y"); f_confidence := 45%float;
                f_words := None; f_bbox := Some example_bbox |} in
  f_bbox fld = Some example_bbox /\
  eligible fld = true /\
  maybeRefineLowConfidence (example_engine 80%float) example_canvas fld
    (js "0123456789") 7 None None
  = {| f_value := Some (js "x"); f_confidence := 80%float;
       f_words := None; f_bbox := Some example_bbox |}.
Proof.
  cbv zeta. split; [reflexivity|]. split; [reflexivity|].
  rewrite (maybeRefine_accepts_iff (example_engine 80%float) example_canvas
             {| f_value := Some (js "y"); f_confidence := 45%float;
                f_words := None; f_bbox := Some example_bbox |}
             (js "0123456789") 7 None None example_bbox eq_refl eq_refl).
  reflexivity.
Defined.

(** * Further properties *)

(** ** Morphology on well-sized masks *)

Lemma near_in_grid (width height : nat) (r : Z) (j p : nat) :
  (j < height * width)%nat -> near width height r j p -> (p < height * width)%nat.
Proof.
  intros Hj (kx & ky & Hkx & Hky & Hp).
  destruct (coords_of_index _ _ _ Hj) as (Hx & Hy & _).
  unfold neighbour in Hp. nia.
Qed.

Lemma near_coords (width height : nat) (r : Z) (j p : nat) :
  (j < height * width)%nat -> near width height r j p ->
  - r <= Z.of_nat (j mod width) - Z.of_nat (p mod width) <= r /\
  - r <= Z.of_nat (j / width) - Z.of_nat (p / width) <= r.
Proof.
  intros Hj (kx & ky & Hkx & Hky & Hp).
  destruct (coords_of_index _ _ _ Hj) as (Hx & Hy & _).
  unfold neighbour in Hp.
  set (px := Z.min (Z.of_nat width - 1) (Z.max 0 (Z.of_nat (j mod width) + kx))) in *.
  set (py := Z.min (Z.of_nat height - 1) (Z.max 0 (Z.of_nat (j / width) + ky))) in *.
  destruct (index_decompose width px py) as [Hmod Hdiv]; [lia|lia|].
  rewrite Hp, Nat2Z.id in Hmod, Hdiv. rewrite Hmod, Hdiv. lia.
Qed.

Lemma near_sym (width height : nat) (r : Z) (j p : nat) :
  (j < height * width)%nat -> near width height r j p -> near width height r p j.
Proof.
  intros Hj Hnear.
  pose proof (near_in_grid _ _ _ _ _ Hj Hnear) as Hp.
  destruct (near_coords _ _ _ _ _ Hj Hnear) as [Hdx Hdy].
  destruct (coords_of_index _ _ _ Hj) as (Hx & Hy & Hxy).
  destruct (coords_of_index _ _ _ Hp) as (Hpx & Hpy & _).
  exists (Z.of_nat (j mod width) - Z.of_nat (p mod width)),
         (Z.of_nat (j / width) - Z.of_nat (p / width)).
  split; [lia|]. split; [lia|].
  unfold neighbour. rewrite <- Hxy. f_equal; [f_equal|]; lia.
Qed.

Lemma near_refl (width height : nat) (r : Z) (j : nat) :
  0 <= r -> (j < height * width)%nat -> near width height r j j.
Proof.
  intros Hr Hj. destruct (coords_of_index _ _ _ Hj) as (Hx & Hy & Hxy).
  exists 0, 0. split; [lia|]. split; [lia|].
  unfold neighbour. rewrite <- Hxy. f_equal; [f_equal|]; lia.
Qed.

(** On a well-sized mask every window read is in range. *)
Lemma window_read_in_grid (img : list Z) (width height : nat) (j : nat) (kx ky : Z) :
  grid_sized img width height -> (j < height * width)%nat ->
  exists p, neighbour width height (Z.of_nat (j mod width)) (Z.of_nat (j / width)) kx ky
            = Z.of_nat p /\ (p < height * width)%nat /\
    read_px img (Z.of_nat p) = img !! p /\ is_Some (img !! p).
Proof.
  intros Hsz Hj. destruct (coords_of_index _ _ _ Hj) as (Hx & Hy & _).
  set (i := neighbour width height (Z.of_nat (j mod width)) (Z.of_nat (j / width)) kx ky).
  assert (Hi : 0 <= i < Z.of_nat (height * width)) by (unfold i, neighbour; nia).
  exists (Z.to_nat i). split; [lia|]. split; [lia|]. split.
  - unfold read_px. rewrite Z2Nat.id by lia.
    destruct (i <? 0) eqn:Hneg; [lia|reflexivity].
  - apply lookup_lt_is_Some. rewrite Hsz. lia.
Qed.

Lemma window_reads_near (img : list Z) (width height : nat) (r : Z) (j : nat) (v : option Z) :
  grid_sized img width height -> (j < height * width)%nat ->
  v ∈ window_reads img width height r (Z.of_nat (j mod width)) (Z.of_nat (j / width)) <->
  exists p, near width height r j p /\ v = img !! p.
Proof.
  intros Hsz Hj. rewrite elem_of_window_reads. split.
  - intros (kx & ky & Hkx & Hky & ->).
    destruct (window_read_in_grid img width height j kx ky Hsz Hj)
      as (p & Hp & _ & Hread & _).
    exists p. split; [by exists kx, ky|]. by rewrite Hp, Hread.
  - intros (p & (kx & ky & Hkx & Hky & Hp) & ->).
    exists kx, ky. split; [exact Hkx|]. split; [exact Hky|].
    destruct (window_read_in_grid img width height j kx ky Hsz Hj)
      as (p' & Hp' & _ & Hread & _).
    rewrite Hp in Hp'. apply Nat2Z.inj in Hp'. subst p'. by rewrite Hp, Hread.
Qed.

Lemma foldl_Math_min_255 (reads : list (option Z)) :
  (forall v, v ∈ reads -> v = Some 255) ->
  foldl Math_min (Some 255) reads = Some 255.
Proof.
  induction reads as [|v reads IH]; intros Hall; [reflexivity|].
  simpl. rewrite (Hall v) by (by left). simpl. apply IH.
  intros v' Hv'. apply Hall. by right.
Qed.

Lemma foldl_Math_max_255 (reads : list (option Z)) (a : Z) :
  0 <= a <= 255 ->
  (forall v, v ∈ reads -> exists s, v = Some s /\ 0 <= s <= 255) ->
  a = 255 \/ Some 255 ∈ reads ->
  foldl Math_max (Some a) reads = Some 255.
Proof.
  revert a. induction reads as [|v reads IH]; intros a Ha Hall Hex.
  - destruct Hex as [-> | Hin]; [reflexivity|]. inversion Hin.
  - destruct (Hall v) as (s & -> & Hs); [by left|]. simpl. apply IH.
    + lia.
    + intros v' Hv'. apply Hall. by right.
    + destruct Hex as [-> | Hin]; [left; lia|].
      apply elem_of_cons in Hin as [[= <-] | Hin]; [left; lia|by right].
Qed.

Lemma binary_lookup (img : list Z) (p : nat) (v : Z) :
  Forall is_binary img -> img !! p = Some v -> v = 0 \/ v = 255.
Proof.
  intros Hbin Hv. rewrite Forall_lookup in Hbin. exact (Hbin p v Hv).
Qed.

(** Erosion marks a sample exactly when its whole window is foreground. *)
Lemma erode_255 (img : list Z) (width height : nat) (r : Z) (j : nat) :
  grid_sized img width height -> Forall is_binary img ->
  (j < height * width)%nat ->
  erode img width height r !! j = Some 255 <->
  forall p, near width height r j p -> img !! p = Some 255.
Proof.
  intros Hsz Hbin Hj. unfold erode.
  rewrite raster_lookup by (unfold new_u8; rewrite length_replicate, Hsz; exact Hj).
  rewrite decide_True by exact Hj. rewrite window_fold_reads. split.
  - intros [= Hv]. apply to_u8_clamped_255 in Hv as (m & Hm & Hm255).
    apply foldl_Math_min_Some in Hm as [_ Hall]. intros p Hp.
    destruct (Hall (img !! p)) as (v & Hv & Hle).
    { apply window_reads_near; [assumption..|]. by exists p. }
    rewrite Hv. destruct (binary_lookup img p v Hbin Hv) as [-> | ->]; [lia|reflexivity].
  - intros Hall. rewrite foldl_Math_min_255; [reflexivity|].
    intros v Hv. apply window_reads_near in Hv as (p & Hp & ->); [|assumption..].
    by apply Hall.
Qed.

(** Dilation marks a sample exactly when its window meets the foreground. *)
Lemma dilate_255 (img : list Z) (width height : nat) (r : Z) (j : nat) :
  grid_sized img width height -> Forall is_binary img ->
  (j < height * width)%nat ->
  dilate img width height r !! j = Some 255 <->
  exists p, near width height r j p /\ img !! p = Some 255.
Proof.
  intros Hsz Hbin Hj. unfold dilate.
  rewrite raster_lookup by (unfold new_u8; rewrite length_replicate, Hsz; exact Hj).
  rewrite decide_True by exact Hj. rewrite window_fold_reads. split.
  - intros [= Hv]. apply to_u8_clamped_255 in Hv as (m & Hm & Hm255).
    apply foldl_Math_max_Some in Hm as [[= <-] | Hin]; [lia|].
    apply window_reads_near in Hin as (p & Hp & Hv); [|assumption..].
    exists p. split; [exact Hp|]. symmetry in Hv.
    destruct (binary_lookup img p m Hbin Hv) as [-> | ->]; [lia|exact Hv].
  - intros (p & Hp & Hv). rewrite (foldl_Math_max_255 _ 0); [reflexivity|lia| |].
    + intros v Hin. apply window_reads_near in Hin as (q & Hq & ->); [|assumption..].
      pose proof (near_in_grid _ _ _ _ _ Hj Hq) as Hqlt.
      destruct (lookup_lt_is_Some_2 img q) as [s Hs]; [rewrite Hsz; exact Hqlt|].
      exists s. split; [exact Hs|].
      destruct (binary_lookup img q s Hbin Hs) as [-> | ->]; lia.
    + right. apply window_reads_near; [assumption..|]. exists p. by rewrite Hv.
Qed.

Lemma erode_grid_sized (img : list Z) (width height : nat) (r : Z) :
  grid_sized img width height -> grid_sized (erode img width height r) width height.
Proof.
  unfold grid_sized, erode, new_u8. intros Hsz.
  by rewrite raster_length, length_replicate.
Qed.

Lemma dilate_grid_sized (img : list Z) (width height : nat) (r : Z) :
  grid_sized img width height -> grid_sized (dilate img width height r) width height.
Proof.
  unfold grid_sized, dilate, new_u8. intros Hsz.
  by rewrite raster_length, length_replicate.
Qed.

(** Two masks of the same size with the same foreground are equal. *)
Lemma binary_mask_eq (a b : list Z) :
  length a = length b -> Forall is_binary a -> Forall is_binary b ->
  (forall j, (j < length a)%nat -> a !! j = Some 255 <-> b !! j = Some 255) ->
  a = b.
Proof.
  intros Hlen Ha Hb Hfg. apply list_eq. intros j.
  destruct (decide (j < length a)%nat) as [Hj|Hj].
  - destruct (lookup_lt_is_Some_2 a j Hj) as [va Hva].
    destruct (lookup_lt_is_Some_2 b j) as [vb Hvb]; [lia|].
    rewrite Hva, Hvb. f_equal.
    destruct (binary_lookup a j va Ha Hva) as [-> | ->],
             (binary_lookup b j vb Hb Hvb) as [-> | ->]; try reflexivity.
    + apply (Hfg j Hj) in Hvb. congruence.
    + apply (Hfg j Hj) in Hva. congruence.
  - rewrite !lookup_ge_None_2; [reflexivity|lia|lia].
Qed.

Lemma close_255 (binary : list Z) (width height : nat) (r : Z) (j : nat) :
  grid_sized binary width height -> Forall is_binary binary ->
  (j < height * width)%nat ->
  erode (dilate binary width height r) width height r !! j = Some 255 <->
  forall p, near width height r j p ->
    exists q, near width height r p q /\ binary !! q = Some 255.
Proof.
  intros Hsz Hbin Hj.
  rewrite erode_255 by (auto using dilate_grid_sized, dilate_binary).
  split; intros H p Hp; pose proof (near_in_grid _ _ _ _ _ Hj Hp) as Hplt.
  - exact (proj1 (dilate_255 _ _ _ _ _ Hsz Hbin Hplt) (H p Hp)).
  - exact (proj2 (dilate_255 _ _ _ _ _ Hsz Hbin Hplt) (H p Hp)).
Qed.

Lemma open_255 (binary : list Z) (width height : nat) (r : Z) (j : nat) :
  grid_sized binary width height -> Forall is_binary binary ->
  (j < height * width)%nat ->
  dilate (erode binary width height r) width height r !! j = Some 255 <->
  exists p, near width height r j p /\
    forall q, near width height r p q -> binary !! q = Some 255.
Proof.
  intros Hsz Hbin Hj.
  rewrite dilate_255 by (auto using erode_grid_sized, erode_binary).
  split; intros (p & Hp & H); exists p; (split; [exact Hp|]);
    pose proof (near_in_grid _ _ _ _ _ Hj Hp) as Hplt.
  - exact (proj1 (erode_255 _ _ _ _ _ Hsz Hbin Hplt) H).
  - exact (proj2 (erode_255 _ _ _ _ _ Hsz Hbin Hplt) H).
Qed.

Lemma close_radius_ge_1 (k : Z) : 1 <= close_radius k.
Proof. unfold close_radius. lia. Qed.

(** X1. Closing never removes ink: on a mask that fills its [width] x [height]
    grid, every foreground sample of the input is foreground in
    [morphologyCloseK]'s result, for every kernel size [k]. *)
Theorem morphologyCloseK_extensive (binary : list Z) (width height : nat) (k : Z) (j : nat) :
  grid_sized binary width height -> Forall is_binary binary ->
  binary !! j = Some 255 ->
  morphologyCloseK binary width height k !! j = Some 255.
Proof.
  intros Hsz Hbin Hj. unfold morphologyCloseK. cbv zeta.
  assert (Hjlt : (j < height * width)%nat).
  { rewrite <- Hsz. apply lookup_lt_is_Some. by eexists. }
  apply close_255; [assumption..|]. intros p Hp.
  exists j. split; [|exact Hj]. by apply near_sym.
Qed.

Lemma morphologyCloseK_extensive_witness :
  grid_sized [0; 255; 0; 0; 0; 0; 0; 0; 255] 3 3 /\
  Forall is_binary [0; 255; 0; 0; 0; 0; 0; 0; 255] /\
  [0; 255; 0; 0; 0; 0; 0; 0; 255] !! 8%nat = Some 255 /\
  morphologyCloseK [0; 255; 0; 0; 0; 0; 0; 0; 255] 3 3 5 !! 8%nat = Some 255.
Proof.
  assert (Hsz : grid_sized [0; 255; 0; 0; 0; 0; 0; 0; 255] 3 3) by reflexivity.
  assert (H : Forall is_binary [0; 255; 0; 0; 0; 0; 0; 0; 255]).
  { repeat constructor; unfold is_binary; lia. }
  split; [exact Hsz|]. split; [exact H|]. split; [reflexivity|].
  exact (morphologyCloseK_extensive _ 3 3 5 8 Hsz H eq_refl).
Defined.

(** X2. Kernel sizes below 5 all mean the 3x3 kernel: for every [k] whose 32-bit
    value is at most 4 (and not the least one, whose decrement wraps
    around), [morphologyCloseK] computes what [morphologyClose] computes, on
    every input. *)
Theorem morphologyCloseK_small_kernel (binary : list Z) (width height : nat) (k : Z) :
  - 2 ^ 31 < to_int32 k <= 4 ->
  morphologyCloseK binary width height k = morphologyClose binary width height.
Proof.
  intros Hk. unfold morphologyCloseK, morphologyClose. cbv zeta.
  assert (Hr : close_radius k = 1).
  { unfold close_radius.
    assert (E : to_int32 (to_int32 k - 1) = to_int32 k - 1).
    { unfold to_int32 at 1. rewrite Z.mod_small; lia. }
    rewrite E, Z.shiftr_div_pow2 by lia.
    assert ((to_int32 k - 1) / 2 ^ 1 <= 1).
    { apply Z.lt_succ_r, Z.div_lt_upper_bound; lia. }
    lia. }
  by rewrite Hr.
Qed.

Lemma morphologyCloseK_small_kernel_witness :
  morphologyCloseK [0; 255; 0; 0; 0; 0; 0; 0; 255] 3 3 (- 7)
  = morphologyClose [0; 255; 0; 0; 0; 0; 0; 0; 255] 3 3.
Proof.
  apply morphologyCloseK_small_kernel. vm_compute. split; [reflexivity|discriminate].
Defined.

(** X3. Opening twice is opening once: on a BinaryMask that fills its grid,
    [morphologyOpen] applied to its own result changes nothing. *)
Theorem morphologyOpen_idempotent (binary : list Z) (width height : nat) :
  grid_sized binary width height -> Forall is_binary binary ->
  morphologyOpen (morphologyOpen binary width height) width height
  = morphologyOpen binary width height.
Proof.
  intros Hsz Hbin.
  assert (Hosz : grid_sized (morphologyOpen binary width height) width height).
  { by apply dilate_grid_sized, erode_grid_sized. }
  assert (Hobin : Forall is_binary (morphologyOpen binary width height)).
  { by apply dilate_binary, erode_binary. }
  apply binary_mask_eq.
  - transitivity (height * width)%nat; [|symmetry; exact Hosz].
    by apply dilate_grid_sized, erode_grid_sized.
  - by apply dilate_binary, erode_binary.
  - exact Hobin.
  - intros j Hj.
    assert (Hjlt : (j < height * width)%nat).
    { rewrite <- (dilate_grid_sized _ _ _ 1 (erode_grid_sized _ _ _ 1 Hosz)). exact Hj. }
    split; [by apply morphologyOpen_pointwise|].
    intros H. unfold morphologyOpen in H at 1. cbv zeta in H.
    apply open_255 in H as (p & Hp & Hall); [|assumption..].
    unfold morphologyOpen at 1. cbv zeta. apply open_255; [assumption..|].
    exists p. split; [exact Hp|]. intros q Hq.
    pose proof (near_in_grid _ _ _ _ _ Hjlt Hp) as Hplt.
    pose proof (near_in_grid _ _ _ _ _ Hplt Hq) as Hqlt.
    unfold morphologyOpen. cbv zeta. apply open_255; [assumption..|].
    exists p. split; [by apply near_sym|exact Hall].
Qed.

Lemma morphologyOpen_idempotent_witness :
  grid_sized [0; 255; 255; 0; 255; 255; 255; 255; 255] 3 3 /\
  Forall is_binary [0; 255; 255; 0; 255; 255; 255; 255; 255] /\
  morphologyOpen (morphologyOpen [0; 255; 255; 0; 255; 255; 255; 255; 255] 3 3) 3 3
  = morphologyOpen [0; 255; 255; 0; 255; 255; 255; 255; 255] 3 3.
Proof.
  assert (Hsz : grid_sized [0; 255; 255; 0; 255; 255; 255; 255; 255] 3 3) by reflexivity.
  assert (H : Forall is_binary [0; 255; 255; 0; 255; 255; 255; 255; 255]).
  { repeat constructor; unfold is_binary; lia. }
  split; [exact Hsz|]. split; [exact H|].
  exact (morphologyOpen_idempotent _ 3 3 Hsz H).
Defined.

(** X4. Closing twice is closing once: on a BinaryMask that fills its grid,
    [morphologyCloseK] applied to its own result with the same kernel size
    changes nothing. *)
Theorem morphologyCloseK_idempotent (binary : list Z) (width height : nat) (k : Z) :
  grid_sized binary width height -> Forall is_binary binary ->
  morphologyCloseK (morphologyCloseK binary width height k) width height k
  = morphologyCloseK binary width height k.
Proof.
  intros Hsz Hbin. unfold morphologyCloseK. cbv zeta.
  set (r := close_radius k).
  set (c := erode (dilate binary width height r) width height r).
  assert (Hcsz : grid_sized c width height).
  { by apply erode_grid_sized, dilate_grid_sized. }
  assert (Hcbin : Forall is_binary c).
  { by apply erode_binary, dilate_binary. }
  apply binary_mask_eq.
  - transitivity (height * width)%nat; [|symmetry; exact Hcsz].
    by apply erode_grid_sized, dilate_grid_sized.
  - by apply erode_binary, dilate_binary.
  - exact Hcbin.
  - intros j Hj.
    assert (Hjlt : (j < height * width)%nat).
    { rewrite <- (erode_grid_sized _ _ _ r (dilate_grid_sized _ _ _ r Hcsz)). exact Hj. }
    rewrite close_255 by assumption. unfold c at 2. rewrite close_255 by assumption.
    split; intros H p Hp; pose proof (near_in_grid _ _ _ _ _ Hjlt Hp) as Hplt.
    + destruct (H p Hp) as (q & Hq & Hcq).
      pose proof (near_in_grid _ _ _ _ _ Hplt Hq) as Hqlt.
      unfold c in Hcq.
      apply (proj1 (close_255 _ _ _ _ _ Hsz Hbin Hqlt) Hcq p). by apply near_sym.
    + destruct (H p Hp) as (q & Hq & Hbq).
      pose proof (near_in_grid _ _ _ _ _ Hplt Hq) as Hqlt.
      exists q. split; [exact Hq|]. unfold c.
      apply close_255; [assumption..|]. intros p' Hp'.
      exists q. split; [by apply near_sym|exact Hbq].
Qed.

Lemma morphologyCloseK_idempotent_witness :
  grid_sized [0; 255; 0; 0; 0; 0; 0; 0; 255] 3 3 /\
  Forall is_binary [0; 255; 0; 0; 0; 0; 0; 0; 255] /\
  morphologyCloseK (morphologyCloseK [0; 255; 0; 0; 0; 0; 0; 0; 255] 3 3 3) 3 3 3
  = morphologyCloseK [0; 255; 0; 0; 0; 0; 0; 0; 255] 3 3 3.
Proof.
  assert (Hsz : grid_sized [0; 255; 0; 0; 0; 0; 0; 0; 255] 3 3) by reflexivity.
  assert (H : Forall is_binary [0; 255; 0; 0; 0; 0; 0; 0; 255]).
  { repeat constructor; unfold is_binary; lia. }
  split; [exact Hsz|]. split; [exact H|].
  exact (morphologyCloseK_idempotent _ 3 3 3 Hsz H).
Defined.

Lemma invert_mask_lookup (m : list Z) (j : nat) :
  Forall is_binary m -> (j < length m)%nat ->
  invert_mask m !! j = Some 255 <-> m !! j = Some 0.
Proof.
  intros Hbin Hj. unfold invert_mask. rewrite list_lookup_fmap.
  destruct (lookup_lt_is_Some_2 m j Hj) as [v Hv]. rewrite Hv. simpl.
  destruct (binary_lookup m j v Hbin Hv) as [-> | ->]; simpl; split; congruence.
Qed.

Lemma invert_mask_binary (m : list Z) : Forall is_binary (invert_mask m).
Proof.
  unfold invert_mask. apply Forall_fmap, Forall_forall. intros v _. simpl.
  destruct (v =? 255); [by left|by right].
Qed.

Lemma invert_mask_grid_sized (m : list Z) (width height : nat) :
  grid_sized m width height -> grid_sized (invert_mask m) width height.
Proof. unfold grid_sized, invert_mask. by rewrite length_fmap. Qed.

Lemma binary_not_255 (m : list Z) (j : nat) :
  Forall is_binary m -> (j < length m)%nat ->
  m !! j = Some 0 <-> m !! j <> Some 255.
Proof.
  intros Hbin Hj. destruct (lookup_lt_is_Some_2 m j Hj) as [v Hv]. rewrite Hv.
  destruct (binary_lookup m j v Hbin Hv) as [-> | ->]; split; congruence.
Qed.

Lemma binary_cases (m : list Z) (j : nat) :
  Forall is_binary m -> (j < length m)%nat ->
  m !! j = Some 0 \/ m !! j = Some 255.
Proof.
  intros Hbin Hj. destruct (lookup_lt_is_Some_2 m j Hj) as [v Hv]. rewrite Hv.
  destruct (binary_lookup m j v Hbin Hv) as [-> | ->]; [by left|by right].
Qed.

Lemma invert_mask_lookup_0 (m : list Z) (j : nat) :
  Forall is_binary m -> (j < length m)%nat ->
  invert_mask m !! j = Some 0 <-> m !! j = Some 255.
Proof.
  intros Hbin Hj. unfold invert_mask. rewrite list_lookup_fmap.
  destruct (lookup_lt_is_Some_2 m j Hj) as [v Hv]. rewrite Hv. simpl.
  destruct (binary_lookup m j v Hbin Hv) as [-> | ->]; simpl; split; congruence.
Qed.

(** Eroding the complement is complementing the dilation. *)
Lemma erode_invert_mask (binary : list Z) (width height : nat) (r : Z) :
  grid_sized binary width height -> Forall is_binary binary ->
  erode (invert_mask binary) width height r
  = invert_mask (dilate binary width height r).
Proof.
  intros Hsz Hbin.
  pose proof (invert_mask_grid_sized _ _ _ Hsz) as Hisz.
  pose proof (invert_mask_binary binary) as Hibin.
  pose proof (dilate_grid_sized _ _ _ r Hsz) as Hdsz.
  pose proof (dilate_binary _ width height r Hbin) as Hdbin.
  pose proof (erode_grid_sized _ _ _ r Hisz) as Hlen.
  apply binary_mask_eq.
  - rewrite Hlen. symmetry. by apply invert_mask_grid_sized.
  - by apply erode_binary.
  - apply invert_mask_binary.
  - intros j Hj. rewrite Hlen in Hj.
    rewrite invert_mask_lookup by (rewrite ?Hdsz; assumption).
    rewrite binary_not_255 by (rewrite ?Hdsz; assumption).
    rewrite erode_255, dilate_255 by assumption. split.
    + intros H (p & Hp & Hb).
      pose proof (near_in_grid _ _ _ _ _ Hj Hp) as Hplt.
      pose proof (H p Hp) as Hip.
      apply invert_mask_lookup in Hip; [|assumption|rewrite Hsz; exact Hplt].
      congruence.
    + intros H p Hp.
      pose proof (near_in_grid _ _ _ _ _ Hj Hp) as Hplt.
      apply invert_mask_lookup; [assumption|rewrite Hsz; exact Hplt|].
      apply binary_not_255; [assumption|rewrite Hsz; exact Hplt|].
      intros Hb. apply H. by exists p.
Qed.

(** Dilating the complement is complementing the erosion. *)
Lemma dilate_invert_mask (binary : list Z) (width height : nat) (r : Z) :
  grid_sized binary width height -> Forall is_binary binary ->
  dilate (invert_mask binary) width height r
  = invert_mask (erode binary width height r).
Proof.
  intros Hsz Hbin.
  pose proof (invert_mask_grid_sized _ _ _ Hsz) as Hisz.
  pose proof (invert_mask_binary binary) as Hibin.
  pose proof (erode_grid_sized _ _ _ r Hsz) as Hesz.
  pose proof (erode_binary _ width height r Hbin) as Hebin.
  pose proof (dilate_grid_sized _ _ _ r Hisz) as Hlen.
  pose proof (dilate_binary _ width height r Hibin) as Hdbin.
  assert (Hlen' : length (invert_mask (erode binary width height r))
                  = (height * width)%nat) by (by apply invert_mask_grid_sized).
  apply binary_mask_eq.
  - by rewrite Hlen, Hlen'.
  - exact Hdbin.
  - apply invert_mask_binary.
  - intros j Hj. rewrite Hlen in Hj.
    assert (H0 : dilate (invert_mask binary) width height r !! j = Some 0 <->
                 invert_mask (erode binary width height r) !! j = Some 0).
    { rewrite invert_mask_lookup_0 by (rewrite ?Hesz; assumption).
      rewrite binary_not_255 by (rewrite ?Hlen; assumption).
      rewrite erode_255, dilate_255 by assumption. split.
      - intros H p Hp.
        pose proof (near_in_grid _ _ _ _ _ Hj Hp) as Hplt.
        destruct (binary_cases binary p Hbin) as [Hb | Hb];
          [rewrite Hsz; exact Hplt| |exact Hb].
        exfalso. apply H. exists p. split; [exact Hp|].
        apply invert_mask_lookup; [assumption|rewrite Hsz; exact Hplt|exact Hb].
      - intros H (p & Hp & Hip).
        pose proof (near_in_grid _ _ _ _ _ Hj Hp) as Hplt.
        apply invert_mask_lookup in Hip; [|assumption|rewrite Hsz; exact Hplt].
        rewrite (H p Hp) in Hip. discriminate. }
    destruct (binary_cases _ j Hdbin) as [Ha | Ha]; [rewrite Hlen; exact Hj| |];
      destruct (binary_cases _ j (invert_mask_binary (erode binary width height r)))
        as [Hb | Hb]; try (rewrite Hlen'; exact Hj);
      rewrite ?Ha, ?Hb; try tauto.
    + apply H0 in Ha. rewrite Ha in Hb. discriminate.
    + apply H0 in Hb. rewrite Ha in Hb. discriminate.
Qed.

(** X5. Closing is opening seen from the background: on a BinaryMask that fills
    its grid, [morphologyClose] of the complemented mask is the complement of
    [morphologyOpen] of the mask. *)
Theorem morphologyClose_dual_of_Open (binary : list Z) (width height : nat) :
  grid_sized binary width height -> Forall is_binary binary ->
  morphologyClose (invert_mask binary) width height
  = invert_mask (morphologyOpen binary width height).
Proof.
  intros Hsz Hbin. unfold morphologyClose, morphologyOpen. cbv zeta.
  rewrite dilate_invert_mask by assumption.
  rewrite erode_invert_mask; [reflexivity| |].
  - by apply erode_grid_sized.
  - by apply erode_binary.
Qed.

Lemma morphologyClose_dual_of_Open_witness :
  grid_sized [0; 255; 255; 0; 255; 255; 255; 255; 0] 3 3 /\
  Forall is_binary [0; 255; 255; 0; 255; 255; 255; 255; 0] /\
  morphologyClose (invert_mask [0; 255; 255; 0; 255; 255; 255; 255; 0]) 3 3
  = invert_mask (morphologyOpen [0; 255; 255; 0; 255; 255; 255; 255; 0] 3 3).
Proof.
  assert (Hsz : grid_sized [0; 255; 255; 0; 255; 255; 255; 255; 0] 3 3) by reflexivity.
  assert (H : Forall is_binary [0; 255; 255; 0; 255; 255; 255; 255; 0]).
  { repeat constructor; unfold is_binary; lia. }
  split; [exact Hsz|]. split; [exact H|].
  exact (morphologyClose_dual_of_Open _ 3 3 Hsz H).
Defined.

(** X6. Opening is increasing: of two BinaryMasks on the same grid, the first
    with its ink inside the second's, [morphologyOpen] gives two masks in
    the same order. *)
Theorem morphologyOpen_monotone (a b : list Z) (width height : nat) (j : nat) :
  grid_sized a width height -> Forall is_binary a ->
  grid_sized b width height -> Forall is_binary b ->
  (forall p, a !! p = Some 255 -> b !! p = Some 255) ->
  morphologyOpen a width height !! j = Some 255 ->
  morphologyOpen b width height !! j = Some 255.
Proof.
  intros Hasz Habin Hbsz Hbbin Hsub Hj.
  assert (Hjlt : (j < height * width)%nat).
  { rewrite <- (dilate_grid_sized _ _ _ 1 (erode_grid_sized _ _ _ 1 Hasz)).
    apply lookup_lt_is_Some. by eexists. }
  unfold morphologyOpen in *. cbv zeta in *.
  apply open_255 in Hj as (p & Hp & Hall); [|assumption..].
  apply open_255; [assumption..|].
  exists p. split; [exact Hp|]. intros q Hq. by apply Hsub, Hall.
Qed.

Lemma morphologyOpen_monotone_witness :
  morphologyOpen [255; 255; 0; 255; 255; 0; 0; 0; 0] 3 3 !! 0%nat = Some 255 /\
  morphologyOpen [255; 255; 0; 255; 255; 255; 0; 0; 255] 3 3 !! 0%nat = Some 255.
Proof.
  assert (Hsub : forall p, [255; 255; 0; 255; 255; 0; 0; 0; 0] !! p = Some 255 ->
                   [255; 255; 0; 255; 255; 255; 0; 0; 255] !! p = Some 255).
  { intros p. do 9 (destruct p as [|p]; [cbn; intros Hp; (discriminate || reflexivity)|]).
    cbn. discriminate. }
  assert (Ha : Forall is_binary [255; 255; 0; 255; 255; 0; 0; 0; 0]).
  { repeat constructor; unfold is_binary; lia. }
  assert (Hb : Forall is_binary [255; 255; 0; 255; 255; 255; 0; 0; 255]).
  { repeat constructor; unfold is_binary; lia. }
  assert (Hasz : grid_sized [255; 255; 0; 255; 255; 0; 0; 0; 0] 3 3) by reflexivity.
  assert (Hbsz : grid_sized [255; 255; 0; 255; 255; 255; 0; 0; 255] 3 3) by reflexivity.
  assert (H : morphologyOpen [255; 255; 0; 255; 255; 0; 0; 0; 0] 3 3 !! 0%nat = Some 255)
    by (by vm_compute).
  split; [exact H|].
  exact (morphologyOpen_monotone _ _ 3 3 0 Hasz Ha Hbsz Hb Hsub H).
Defined.

Lemma read_px_invert_mask (m : list Z) (i : Z) :
  read_px (invert_mask m) i = (fun v => if v =? 255 then 0 else 255) <$> read_px m i.
Proof.
  unfold read_px, invert_mask. destruct (i <? 0); [reflexivity|].
  by rewrite list_lookup_fmap.
Qed.

Lemma bind_reads_invert_mask (m : list Z) (width height : nat) (x y : Z) (l1 l2 : list Z) :
  (ky ← l1; (fun kx => read_px (invert_mask m) (neighbour width height x y kx ky)) <$> l2)
  = fmap (M:=option) (fun v => if v =? 255 then 0 else 255) <$>
      (ky ← l1; (fun kx => read_px m (neighbour width height x y kx ky)) <$> l2).
Proof.
  induction l1 as [|ky l IH]; [reflexivity|].
  rewrite !bind_cons, fmap_app, <- IH. f_equal.
  rewrite <- list_fmap_compose. apply list_fmap_ext. intros _ kx _. simpl.
  apply read_px_invert_mask.
Qed.

Lemma window_reads_invert_mask (m : list Z) (width height : nat) (r x y : Z) :
  window_reads (invert_mask m) width height r x y
  = fmap (M:=option) (fun v => if v =? 255 then 0 else 255) <$> window_reads m width height r x y.
Proof. apply bind_reads_invert_mask. Qed.

Lemma count_255_invert (rs : list (option Z)) (a b : Z) :
  (forall v, v ∈ rs -> is_Some v) ->
  foldl count_255 a (fmap (M:=option) (fun v => if v =? 255 then 0 else 255) <$> rs)
  + foldl count_255 b rs = a + b + Z.of_nat (length rs).
Proof.
  revert a b. induction rs as [|v rs IH]; intros a b Hall; [simpl; lia|].
  destruct (Hall v) as [s ->]; [by left|].
  cbn [fmap list_fmap foldl length option_fmap option_map count_255].
  rewrite IH by (intros v' Hv'; apply Hall; by right).
  destruct (s =? 255) eqn:Es; simpl; lia.
Qed.

Lemma binaryMajority3x3_length (input : list Z) (width height : nat) :
  length (binaryMajority3x3 input width height) = length input.
Proof.
  unfold binaryMajority3x3, new_u8. by rewrite raster_length, length_replicate.
Qed.

(** X7. The majority vote does not prefer ink to background: on a mask that
    fills its grid, [binaryMajority3x3] of the complemented mask is the
    complement of [binaryMajority3x3] of the mask. *)
Theorem binaryMajority3x3_self_dual (input : list Z) (width height : nat) :
  grid_sized input width height ->
  binaryMajority3x3 (invert_mask input) width height
  = invert_mask (binaryMajority3x3 input width height).
Proof.
  intros Hsz. apply list_eq. intros j.
  destruct (decide (j < height * width)%nat) as [Hj | Hj].
  - unfold invert_mask at 2. rewrite list_lookup_fmap. unfold binaryMajority3x3.
    rewrite !raster_lookup
      by (unfold new_u8, invert_mask; rewrite length_replicate, ?length_fmap, Hsz; exact Hj).
    rewrite !decide_True by exact Hj. cbv zeta. simpl. f_equal.
    rewrite !window_fold_reads, window_reads_invert_mask.
    set (rs := window_reads input width height 1 _ _).
    assert (Hlen : length rs = 9%nat) by reflexivity.
    assert (Hsome : forall v, v ∈ rs -> is_Some v).
    { intros v Hv. apply window_reads_near in Hv as (p & Hp & ->); [|assumption..].
      apply lookup_lt_is_Some. rewrite Hsz. exact (near_in_grid _ _ _ _ _ Hj Hp). }
    pose proof (count_255_invert rs 0 0 Hsome) as Hsum. rewrite Hlen in Hsum.
    destruct (5 <=? foldl count_255 0 rs) eqn:E1;
      destruct (5 <=? foldl count_255 0 (fmap (M:=option) (fun v => if v =? 255 then 0 else 255) <$> rs)) eqn:E2;
      try reflexivity; lia.
  - rewrite !lookup_ge_None_2; [reflexivity| |].
    + unfold invert_mask. rewrite length_fmap, binaryMajority3x3_length, Hsz. lia.
    + unfold invert_mask. rewrite binaryMajority3x3_length, length_fmap, Hsz. lia.
Qed.

Lemma binaryMajority3x3_self_dual_witness :
  grid_sized [0; 255; 255; 0; 7; 255; 255; 0; 0] 3 3 /\
  binaryMajority3x3 (invert_mask [0; 255; 255; 0; 7; 255; 255; 0; 0]) 3 3
  = invert_mask (binaryMajority3x3 [0; 255; 255; 0; 7; 255; 255; 0; 0] 3 3).
Proof.
  assert (Hsz : grid_sized [0; 255; 255; 0; 7; 255; 255; 0; 0] 3 3) by reflexivity.
  split; [exact Hsz|].
  exact (binaryMajority3x3_self_dual _ 3 3 Hsz).
Defined.

(** ** Crop boxes lie inside the image *)

(** A forward run search answers an index of the array when it answers. *)
Lemma first_run_loop_range (test : nat -> bool) (runReq : Z) (n : nat) :
  match
    for_each_until (seq 0 n)
      (fun i run =>
         if test i then
           let run := run + 1 in
           if runReq <=? run then inr (Z.of_nat i - run + 1) else inl run
         else inl 0)
      0
  with
  | inr r => 0 <= r < Z.of_nat n
  | inl _ => True
  end.
Proof.
  match goal with |- match for_each_until ?idx ?body ?s with _ => _ end =>
    pose proof (for_each_until_inv
      (fun k run => 0 <= run <= Z.of_nat k) (fun r => 0 <= r < Z.of_nat n)
      idx body s) as H
  end.
  match type of H with ?A -> ?B -> ?C => assert (HA : A) by lia; assert (HB : B) end.
  { intros k i st Hk Hst. apply lookup_seq in Hk as [-> Hk]. simpl.
    destruct (test k); [|lia]. cbv zeta.
    destruct (runReq <=? st + 1); lia. }
  specialize (H HA HB).
  destruct (for_each_until _ _ _); [exact I|exact H].
Qed.

(** A backward run search answers an index of the array when it answers. *)
Lemma last_run_loop_range (test : nat -> bool) (runReq : Z) (n : nat) :
  match
    for_each_until (reverse (seq 0 n))
      (fun i run =>
         if test i then
           let run := run + 1 in
           if runReq <=? run then inr (Z.of_nat i + run - 1) else inl run
         else inl 0)
      0
  with
  | inr r => 0 <= r < Z.of_nat n
  | inl _ => True
  end.
Proof.
  match goal with |- match for_each_until ?idx ?body ?s with _ => _ end =>
    pose proof (for_each_until_inv
      (fun k run => 0 <= run <= Z.of_nat k) (fun r => 0 <= r < Z.of_nat n)
      idx body s) as H
  end.
  match type of H with ?A -> ?B -> ?C => assert (HA : A) by lia; assert (HB : B) end.
  { intros k i st Hk Hst.
    assert (Hklt : (k < n)%nat).
    { apply lookup_lt_Some in Hk. by rewrite length_reverse, length_seq in Hk. }
    rewrite reverse_lookup in Hk by (rewrite length_seq; exact Hklt).
    rewrite length_seq in Hk. apply lookup_seq in Hk as [-> Hk]. simpl.
    destruct (test _); [|lia]. cbv zeta.
    destruct (runReq <=? st + 1); lia. }
  specialize (H HA HB).
  destruct (for_each_until _ _ _); [exact I|exact H].
Qed.

Lemma firstRunAbove_range (arr : list Z) (thresh : num) (runReq : Z) :
  firstRunAbove arr thresh runReq = 0 \/
  0 <= firstRunAbove arr thresh runReq < Z.of_nat (length arr).
Proof.
  unfold firstRunAbove.
  pose proof (first_run_loop_range (fun i => above (arr !! i) thresh) runReq (length arr)) as H.
  cbv beta in H. destruct (for_each_until _ _ _); [by left|by right].
Qed.

Lemma lastRunAbove_range (arr : list Z) (thresh : num) (runReq : Z) :
  lastRunAbove arr thresh runReq = Z.of_nat (length arr) - 1 \/
  0 <= lastRunAbove arr thresh runReq < Z.of_nat (length arr).
Proof.
  unfold lastRunAbove.
  pose proof (last_run_loop_range (fun i => above (arr !! i) thresh) runReq (length arr)) as H.
  cbv beta in H. destruct (for_each_until _ _ _); [by left|by right].
Qed.

(** The four run finders answer within the frame of the image. *)
Lemma run_finders_in_frame (binary : list Z) (width height : nat)
    (rowThresh colThresh : num) (minRun : Z) :
  0 <= firstRunAbove (rowSums binary width height) rowThresh minRun /\
  lastRunAbove (rowSums binary width height) rowThresh minRun <= Z.of_nat height - 1 /\
  0 <= firstRunAbove (colSums binary width height) colThresh minRun /\
  lastRunAbove (colSums binary width height) colThresh minRun <= Z.of_nat width - 1.
Proof.
  pose proof (firstRunAbove_range (rowSums binary width height) rowThresh minRun) as Htop.
  pose proof (lastRunAbove_range (rowSums binary width height) rowThresh minRun) as Hbot.
  pose proof (firstRunAbove_range (colSums binary width height) colThresh minRun) as Hleft.
  pose proof (lastRunAbove_range (colSums binary width height) colThresh minRun) as Hright.
  rewrite rowSums_length in Htop, Hbot. rewrite colSums_length in Hleft, Hright. lia.
Qed.

(** A frame within the image that is more than 3 samples high and wide,
    widened by a padding and cut to the image, is a box within the image. *)
Lemma padded_frame_within (width height : nat) (top bottom left right pad : Z)
    (box : crop_box) :
  0 <= pad -> 0 <= top -> bottom <= Z.of_nat height - 1 ->
  0 <= left -> right <= Z.of_nat width - 1 ->
  (if (bottom <=? top + 2) || (right <=? left + 2) then None
   else Some {| box_x := Z.max 0 (left - pad); box_y := Z.max 0 (top - pad);
                box_w := Z.min (Z.of_nat width - 1) (right + pad)
                         - Z.max 0 (left - pad) + 1;
                box_h := Z.min (Z.of_nat height - 1) (bottom + pad)
                         - Z.max 0 (top - pad) + 1 |}) = Some box ->
  box_within box width height 4.
Proof.
  intros Hpad Ht Hb Hl Hr.
  destruct (bottom <=? top + 2) eqn:Ev; [discriminate|].
  destruct (right <=? left + 2) eqn:Eh; [discriminate|].
  simpl. intros [= <-]. unfold box_within. simpl. lia.
Qed.

(** X8. Whatever the mask and the run and density options, a box that
    [computeAutoCropBox] returns with a padding that is not negative lies
    inside the image and is at least 4 samples wide and high. *)
Theorem computeAutoCropBox_box_within (binary : list Z) (width height : nat)
    (opts : crop_opts) (box : crop_box) :
  0 <= default 8 (opt_pad opts) ->
  computeAutoCropBox binary width height opts = Some box ->
  box_within box width height 4.
Proof.
  intros Hpad. unfold computeAutoCropBox. cbv zeta.
  destruct (run_finders_in_frame binary width height
              (density_thresh width (default default_minFrac (opt_minFrac opts)))
              (density_thresh height (default default_minFrac (opt_minFrac opts)))
              (default 10 (opt_minRun opts))) as (Ht & Hb & Hl & Hr).
  by apply padded_frame_within.
Qed.

Lemma computeAutoCropBox_box_within_witness :
  computeAutoCropBox (replicate 16 0) 4 4
    {| opt_minFrac := None; opt_minRun := None; opt_pad := Some 1 |}
  = Some {| box_x := 0; box_y := 0; box_w := 4; box_h := 4 |} /\
  box_within {| box_x := 0; box_y := 0; box_w := 4; box_h := 4 |} 4 4 4.
Proof.
  assert (H : computeAutoCropBox (replicate 16 0) 4 4
                {| opt_minFrac := None; opt_minRun := None; opt_pad := Some 1 |}
              = Some {| box_x := 0; box_y := 0; box_w := 4; box_h := 4 |})
    by (vm_compute; reflexivity).
  split; [exact H|].
  assert (Hpad : 0 <= default 8 (opt_pad
            {| opt_minFrac := None; opt_minRun := None; opt_pad := Some 1 |}))
    by (simpl; lia).
  exact (computeAutoCropBox_box_within _ _ _ _ _ Hpad H).
Defined.

Lemma border_box_within (binary : list Z) (width height : nat) (box : crop_box) :
  border_box binary width height = Some box -> box_within box width height 9.
Proof.
  unfold border_box. cbv zeta.
  set (topEdge := Smart.firstRunAbove _ _ _). set (bottomEdge := Smart.lastRunAbove _ _ _).
  set (leftEdge := Smart.firstRunAbove _ _ _). set (rightEdge := Smart.lastRunAbove _ _ _).
  destruct (_ && _) eqn:Hcond; [|discriminate].
  destruct (_ && _) eqn:Hsize in |- *; [|discriminate].
  intros [= <-]. unfold box_within. simpl.
  repeat (apply andb_prop in Hcond as [Hcond ?]).
  apply andb_prop in Hsize as [? ?]. lia.
Qed.

(** X9. Every box [computeAutoCropBoxSmart] returns, from the border branch or
    from the fallback, lies inside the image and is at least 4 samples wide
    and high. *)
Theorem computeAutoCropBoxSmart_box_within (binary : list Z) (width height : nat)
    (box : crop_box) :
  computeAutoCropBoxSmart binary width height = Some box ->
  box_within box width height 4.
Proof.
  unfold computeAutoCropBoxSmart.
  destruct (border_box binary width height) as [b|] eqn:Hb.
  - intros [= <-]. apply border_box_within in Hb.
    unfold box_within in *. lia.
  - cbv zeta. unfold computeAutoCropBox. cbv zeta. simpl default.
    destruct (run_finders_in_frame binary width height
                (density_thresh width default_minFrac)
                (density_thresh height default_minFrac) 10) as (Ht & Hb' & Hl & Hr).
    apply padded_frame_within; [lia|assumption..].
Qed.

Lemma computeAutoCropBoxSmart_box_within_witness :
  computeAutoCropBoxSmart (replicate 144 0) 12 12
  = Some {| box_x := 1; box_y := 1; box_w := 10; box_h := 10 |} /\
  box_within {| box_x := 1; box_y := 1; box_w := 10; box_h := 10 |} 12 12 4.
Proof.
  assert (H : computeAutoCropBoxSmart (replicate 144 0) 12 12
              = Some {| box_x := 1; box_y := 1; box_w := 10; box_h := 10 |})
    by (vm_compute; reflexivity).
  split; [exact H|].
  exact (computeAutoCropBoxSmart_box_within _ _ _ _ H).
Defined.

(** ** The run finders find the first and the last run *)

Lemma run_loop_finds {R : Type} (test : nat -> bool) (res : nat -> Z -> R)
    (runReq : Z) (n s : nat) :
  1 <= runReq -> (s + Z.to_nat runReq <= n)%nat ->
  (forall d : nat, Z.of_nat d < runReq -> test (s + d)%nat = true) ->
  (forall s' : nat, (s' < s)%nat ->
     ~ forall d : nat, Z.of_nat d < runReq -> test (s' + d)%nat = true) ->
  for_each_until (seq 0 n)
    (fun i run =>
       if test i then
         let run := run + 1 in
         if runReq <=? run then inr (res i run) else inl run
       else inl 0)
    0
  = inr (res (s + (Z.to_nat runReq - 1))%nat runReq).
Proof.
  intros Hreq Hfit Hrun Hmin.
  match goal with |- for_each_until ?idx ?body ?s0 = _ =>
    pose proof (for_each_until_inv
      (fun k run =>
         (Z.of_nat k < Z.of_nat s + runReq) /\ 0 <= run < runReq /\ run <= Z.of_nat k /\
         (forall d : nat, Z.of_nat d < run -> test (k - 1 - d)%nat = true) /\
         (run < Z.of_nat k -> test (k - 1 - Z.to_nat run)%nat = false))
      (fun r => r = res (s + (Z.to_nat runReq - 1))%nat runReq) idx body s0) as H
  end.
  match type of H with ?A -> ?B -> ?C => assert (HA : A); [|assert (HB : B)] end.
  - repeat split; lia.
  - intros k i run Hk (Hbound & Hrange & Hle & Hstreak & Hstop).
    apply lookup_seq in Hk as [-> Hk]. simpl.
    destruct (test k) eqn:Htk; cbv zeta.
    + assert (Hstreak' : forall d : nat, Z.of_nat d < run + 1 ->
                test (k - d)%nat = true).
      { intros d Hd. destruct d as [|d]; [by rewrite Nat.sub_0_r|].
        replace (k - S d)%nat with (k - 1 - d)%nat by lia. apply Hstreak. lia. }
      destruct (runReq <=? run + 1) eqn:Hfull.
      * apply Z.leb_le in Hfull. assert (Hrr : run + 1 = runReq) by lia.
        (* the run of runReq entries ends at k *)
        assert (Hat : forall d : nat, Z.of_nat d < runReq ->
                  test (Z.to_nat (Z.of_nat k - run) + d)%nat = true).
        { intros d Hd.
          replace (Z.to_nat (Z.of_nat k - run) + d)%nat
            with (k - (Z.to_nat run - d))%nat by lia.
          apply Hstreak'. lia. }
        destruct (decide (Z.to_nat (Z.of_nat k - run) < s)%nat) as [Hlt|Hge].
        { exfalso. exact (Hmin _ Hlt Hat). }
        rewrite Hrr. f_equal. lia.
      * apply Z.leb_gt in Hfull. split; [|split; [lia|split; [lia|split]]].
        -- (* a shorter streak cannot have reached the end of the run at s *)
           destruct (decide (Z.of_nat (S k) < Z.of_nat s + runReq)) as [Hin|Hout];
             [exact Hin|]. exfalso.
           assert (Hk' : Z.of_nat k = Z.of_nat s + runReq - 1) by lia.
           destruct (decide (run < Z.of_nat k)) as [Hlt|Hnlt]; [|lia].
           specialize (Hstop Hlt).
           replace (k - 1 - Z.to_nat run)%nat
             with (s + (Z.to_nat runReq - 2 - Z.to_nat run))%nat in Hstop by lia.
           rewrite Hrun in Hstop by lia. discriminate.
        -- intros d Hd.
           match goal with |- test ?a = _ => replace a with (k - d)%nat by lia end.
           by apply Hstreak'.
        -- intros Hlt.
           match goal with |- test ?a = _ =>
             replace a with (k - 1 - Z.to_nat run)%nat by lia
           end.
           apply Hstop. lia.
    + split; [|split; [lia|split; [lia|split]]].
      * destruct (decide (Z.of_nat (S k) < Z.of_nat s + runReq)) as [Hin|Hout];
          [exact Hin|]. exfalso.
        assert (Hk' : k = (s + (Z.to_nat runReq - 1))%nat) by lia.
        rewrite Hk', Hrun in Htk by lia. discriminate.
      * intros d Hd. lia.
      * intros _. match goal with |- test ?a = _ => replace a with k by lia end.
        exact Htk.
  - specialize (H HA HB). rewrite length_seq in H.
    destruct (for_each_until _ _ _) as [st|r]; [|by rewrite H].
    destruct H as [Hbound _]. lia.
Qed.

Lemma for_each_until_fmap {S R : Type} (f : nat -> nat) (idx : list nat)
    (body : nat -> S -> S + R) (s : S) :
  for_each_until (f <$> idx) body s = for_each_until idx (fun k => body (f k)) s.
Proof.
  revert s. induction idx as [|i idx IH]; intros s; [reflexivity|].
  simpl. destruct (body (f i) s); [apply IH|reflexivity].
Qed.

Lemma reverse_seq_0 (n : nat) :
  reverse (seq 0 n) = (fun k => n - 1 - k)%nat <$> seq 0 n.
Proof.
  apply list_eq. intros k. rewrite list_lookup_fmap.
  destruct (decide (k < n)%nat) as [Hk|Hk].
  - rewrite reverse_lookup by (rewrite length_seq; exact Hk).
    rewrite length_seq, !lookup_seq_lt by lia. simpl. f_equal. lia.
  - rewrite lookup_ge_None_2 by (rewrite length_reverse, length_seq; lia).
    by rewrite lookup_seq_ge by lia.
Qed.

(** [firstRunAbove] answers the start of the first run, [lastRunAbove] the
    end of the last one. *)
Lemma firstRunAbove_first_run (arr : list Z) (thresh : num) (runReq : Z) (s : nat) :
  1 <= runReq -> first_run arr thresh runReq s ->
  firstRunAbove arr thresh runReq = Z.of_nat s.
Proof.
  intros Hreq [Hrun Hmin]. unfold firstRunAbove.
  rewrite (run_loop_finds (fun i => above (arr !! i) thresh)
             (fun i run => Z.of_nat i - run + 1) runReq (length arr) s);
    [lia|exact Hreq| |exact Hrun|exact Hmin].
  specialize (Hrun (Z.to_nat runReq - 1)%nat ltac:(lia)).
  destruct (arr !! (s + (Z.to_nat runReq - 1))%nat) eqn:Hl; [|discriminate].
  apply lookup_lt_Some in Hl. lia.
Qed.

Lemma lastRunAbove_last_run (arr : list Z) (thresh : num) (runReq : Z) (s : nat) :
  1 <= runReq -> last_run arr thresh runReq s ->
  lastRunAbove arr thresh runReq = Z.of_nat s + runReq - 1.
Proof.
  intros Hreq [Hrun Hmax]. unfold lastRunAbove.
  assert (Hfit : (s + Z.to_nat runReq <= length arr)%nat).
  { specialize (Hrun (Z.to_nat runReq - 1)%nat ltac:(lia)).
    destruct (arr !! (s + (Z.to_nat runReq - 1))%nat) eqn:Hl; [|discriminate].
    apply lookup_lt_Some in Hl. lia. }
  set (n := length arr) in *.
  rewrite reverse_seq_0, for_each_until_fmap.
  rewrite (run_loop_finds (fun k => above (arr !! (n - 1 - k)%nat) thresh)
             (fun k run => Z.of_nat (n - 1 - k) + run - 1) runReq n
             (n - s - Z.to_nat runReq)%nat).
  - lia.
  - exact Hreq.
  - lia.
  - intros d Hd.
    replace (n - 1 - (n - s - Z.to_nat runReq + d))%nat
      with (s + (Z.to_nat runReq - 1 - d))%nat by lia.
    apply Hrun. lia.
  - intros s' Hs' Hall.
    apply (Hmax (n - s' - Z.to_nat runReq)%nat); [lia|].
    intros d Hd.
    replace (n - s' - Z.to_nat runReq + d)%nat
      with (n - 1 - (s' + (Z.to_nat runReq - 1 - d)))%nat by lia.
    apply Hall. lia.
Qed.

(** X10. Where the row sums and the column sums have runs, the box of
    [computeAutoCropBox] is the frame from the first run to the last one,
    rows and columns, widened by the padding and cut to the image; it is
    [null] when that frame, before the padding, is 3 samples or less high or
    wide. *)
Theorem computeAutoCropBox_spans_runs (binary : list Z) (width height : nat)
    (opts : crop_opts) (t b l r : nat) :
  1 <= default 10 (opt_minRun opts) ->
  first_run (rowSums binary width height)
    (density_thresh width (default default_minFrac (opt_minFrac opts)))
    (default 10 (opt_minRun opts)) t ->
  last_run (rowSums binary width height)
    (density_thresh width (default default_minFrac (opt_minFrac opts)))
    (default 10 (opt_minRun opts)) b ->
  first_run (colSums binary width height)
    (density_thresh height (default default_minFrac (opt_minFrac opts)))
    (default 10 (opt_minRun opts)) l ->
  last_run (colSums binary width height)
    (density_thresh height (default default_minFrac (opt_minFrac opts)))
    (default 10 (opt_minRun opts)) r ->
  computeAutoCropBox binary width height opts
  = let minRun := default 10 (opt_minRun opts) in
    let pad := default 8 (opt_pad opts) in
    let bottom := Z.of_nat b + minRun - 1 in
    let right := Z.of_nat r + minRun - 1 in
    if (bottom <=? Z.of_nat t + 2) || (right <=? Z.of_nat l + 2) then None
    else
      let top := Z.max 0 (Z.of_nat t - pad) in
      let bottom := Z.min (Z.of_nat height - 1) (bottom + pad) in
      let left := Z.max 0 (Z.of_nat l - pad) in
      let right := Z.min (Z.of_nat width - 1) (right + pad) in
      Some {| box_x := left; box_y := top;
              box_w := right - left + 1; box_h := bottom - top + 1 |}.
Proof.
  intros Hreq Ht Hb Hl Hr. unfold computeAutoCropBox. cbv zeta.
  rewrite (firstRunAbove_first_run _ _ _ t Hreq Ht).
  rewrite (lastRunAbove_last_run _ _ _ b Hreq Hb).
  rewrite (firstRunAbove_first_run _ _ _ l Hreq Hl).
  rewrite (lastRunAbove_last_run _ _ _ r Hreq Hr).
  reflexivity.
Qed.

Lemma example_white_runs (arr : list Z) (thresh : num) :
  arr = [4; 4; 4; 4] -> thresh = 1%float ->
  first_run arr thresh 2 0 /\ last_run arr thresh 2 2.
Proof.
  intros -> ->. split; split.
  - intros [|[|d]] Hd; [reflexivity|reflexivity|lia].
  - intros s' Hs'. lia.
  - intros [|[|d]] Hd; [reflexivity|reflexivity|lia].
  - intros s' Hs' Hrun. specialize (Hrun 1%nat ltac:(lia)).
    rewrite lookup_ge_None_2 in Hrun by (simpl; lia). discriminate.
Qed.

Lemma computeAutoCropBox_spans_runs_witness :
  computeAutoCropBox example_white_mask 4 4 example_crop_opts
  = Some {| box_x := 0; box_y := 0; box_w := 4; box_h := 4 |}.
Proof.
  assert (Hrows : rowSums example_white_mask 4 4 = [4; 4; 4; 4]) by (by vm_compute).
  assert (Hcols : colSums example_white_mask 4 4 = [4; 4; 4; 4]) by (by vm_compute).
  assert (Hthr : density_thresh 4 (default default_minFrac (opt_minFrac example_crop_opts))
                 = 1%float) by (by vm_compute).
  destruct (example_white_runs _ _ Hrows Hthr) as [Ht Hb].
  destruct (example_white_runs _ _ Hcols Hthr) as [Hl Hr].
  rewrite (computeAutoCropBox_spans_runs example_white_mask 4 4 example_crop_opts
             0 2 0 2 ltac:(simpl; lia) Ht Hb Hl Hr).
  reflexivity.
Defined.

(** ** The connected-component search ends *)

Lemma unvisited_le_length (v : list Z) : (unvisited v <= length v)%nat.
Proof. apply length_filter. Qed.

Lemma unvisited_mark (v : list Z) (i : nat) :
  v !! i = Some 0 ->
  S (unvisited (<[i := 1]> v)) = unvisited v.
Proof.
  intros Hi. unfold unvisited. pose proof (lookup_lt_Some _ _ _ Hi) as Hlt.
  rewrite insert_take_drop by exact Hlt.
  rewrite <- (take_drop_middle v i 0 Hi) at 3.
  rewrite !filter_app, !length_app, !filter_cons.
  rewrite (decide_False (P := 1 = 0)) by lia.
  rewrite (decide_True (P := 0 = 0)) by reflexivity.
  cbn [length]. lia.
Qed.

Lemma not_visited_in_range (v : list Z) (i : nat) :
  (i < length v)%nat -> not_visited (v !! i) = true -> v !! i = Some 0.
Proof.
  intros Hi. destruct (lookup_lt_is_Some_2 v i Hi) as [a Ha]. rewrite Ha. simpl.
  intros H. apply Z.eqb_eq in H. by subst a.
Qed.

Lemma bfs_visit_inv (grid : list Z) (w2 h2 : nat) (st : bfs_state) (n : Z * Z) :
  bfs_inv w2 h2 st ->
  bfs_inv w2 h2 (bfs_visit grid w2 h2 st n) /\
  b_head (bfs_visit grid w2 h2 st n) = b_head st.
Proof.
  intros [Hlen Hq]. unfold bfs_visit. destruct n as [xx yy].
  destruct ((xx <? 0) || (yy <? 0) || (Z.of_nat w2 <=? xx) || (Z.of_nat h2 <=? yy))
    eqn:Hout; [by split|].
  destruct (is_1 _ && not_visited _) eqn:Hpush; [|by split].
  apply andb_prop in Hpush as [_ Hnv].
  repeat (apply orb_false_elim in Hout as [Hout ?]).
  assert (Hidx : (Z.to_nat (yy * Z.of_nat w2 + xx) < length (b_visited st))%nat).
  { rewrite Hlen. apply Nat2Z.inj_lt. rewrite Z2Nat.id by nia. nia. }
  apply not_visited_in_range in Hnv; [|exact Hidx].
  split; [|reflexivity]. split; cbn [b_visited b_tail].
  - by rewrite length_insert.
  - pose proof (unvisited_mark _ _ Hnv). lia.
Qed.

Lemma bfs_step_inv (grid : list Z) (w2 h2 : nat) (st : bfs_state) :
  bfs_inv w2 h2 st ->
  bfs_inv w2 h2 (bfs_step grid w2 h2 st) /\
  b_head (bfs_step grid w2 h2 st) = S (b_head st).
Proof.
  intros Hinv. unfold bfs_step. cbv zeta.
  match goal with |- context [match _ with Some _ => _ | None => ?s end] =>
    set (st1 := s)
  end.
  assert (H1 : bfs_inv w2 h2 st1 /\ b_head st1 = S (b_head st)) by (by split).
  destruct (b_qx st !! b_head st) as [cx|]; [|exact H1].
  destruct (b_qy st !! b_head st) as [cy|]; [|exact H1].
  cbn [foldl]. destruct H1 as [Hi1 Hh1].
  destruct (bfs_visit_inv grid w2 h2 st1 (cx - 1, cy) Hi1) as [Hi2 Hh2].
  destruct (bfs_visit_inv grid w2 h2 _ (cx + 1, cy) Hi2) as [Hi3 Hh3].
  destruct (bfs_visit_inv grid w2 h2 _ (cx, cy - 1) Hi3) as [Hi4 Hh4].
  destruct (bfs_visit_inv grid w2 h2 _ (cx, cy + 1) Hi4) as [Hi5 Hh5].
  split; [exact Hi5|]. congruence.
Qed.

(** As many turns as the grid has cells are enough for the [while] loop. *)
Lemma bfs_loop_ends (fuel : nat) (grid : list Z) (w2 h2 : nat) (st : bfs_state) :
  bfs_inv w2 h2 st -> (w2 * h2 <= fuel + b_head st)%nat ->
  exists st', bfs_loop fuel grid w2 h2 st = Some st' /\
    length (b_visited st') = (w2 * h2)%nat.
Proof.
  revert st. induction fuel as [|fuel IH]; intros st Hinv Hfuel.
  - simpl. destruct (b_head st <? b_tail st)%nat eqn:Hlt.
    + apply Nat.ltb_lt in Hlt. destruct Hinv as [_ Hq]. lia.
    + exists st. split; [reflexivity|apply Hinv].
  - simpl. destruct (b_head st <? b_tail st)%nat eqn:Hlt.
    + destruct (bfs_step_inv grid w2 h2 st Hinv) as [Hinv' Hhead].
      apply IH; [exact Hinv'|]. rewrite Hhead. lia.
    + exists st. split; [reflexivity|apply Hinv].
Qed.

Lemma for_each_opt_preserves {S : Type} (P : S -> Prop) (idx : list nat)
    (body : nat -> S -> option S) (s : S) :
  P s ->
  (forall i s, i ∈ idx -> P s -> exists s', body i s = Some s' /\ P s') ->
  exists s', for_each_opt idx body s = Some s' /\ P s'.
Proof.
  revert s. induction idx as [|i idx IH]; intros s Hs Hstep.
  - by exists s.
  - simpl. destruct (Hstep i s) as (s1 & -> & Hs1); [by left|exact Hs|].
    apply IH; [exact Hs1|]. intros j s2 Hj. apply Hstep. by right.
Qed.

Lemma cc_cell_ends (grid : list Z) (w2 h2 : nat) (x y : nat) (s : cc_state) :
  (x < w2)%nat -> (y < h2)%nat ->
  length (cc_visited s) = (w2 * h2)%nat ->
  exists s', cc_cell grid w2 h2 x y s = Some s' /\
    length (cc_visited s') = (w2 * h2)%nat.
Proof.
  intros Hx Hy Hlen. unfold cc_cell. cbv zeta.
  destruct (is_zero_sample _ || negb (not_visited _)) eqn:Hskip; [by exists s|].
  apply orb_false_elim in Hskip as [_ Hnv]. apply negb_false_iff in Hnv.
  assert (Hidx : (y * w2 + x < length (cc_visited s))%nat) by (rewrite Hlen; nia).
  apply not_visited_in_range in Hnv; [|exact Hidx].
  match goal with |- context [bfs_loop _ _ _ _ ?st0] => set (st := st0) end.
  assert (Hinv : bfs_inv w2 h2 st).
  { split; cbn [st b_visited b_tail].
    - by rewrite length_insert.
    - pose proof (unvisited_mark _ _ Hnv).
      pose proof (unvisited_le_length (cc_visited s)). lia. }
  destruct (bfs_loop_ends (length (cc_visited s)) grid w2 h2 st Hinv)
    as (st' & -> & Hlen'); [rewrite Hlen; lia|].
  eexists. split; [reflexivity|exact Hlen'].
Qed.

(** The two loops over the coarse grid end, every search within its turns. *)
Lemma cc_search_ends (grid : list Z) (w2 h2 : nat) :
  exists s',
    for_each_opt (seq 0 h2)
      (fun y s => for_each_opt (seq 0 w2) (fun x s => cc_cell grid w2 h2 x y s) s)
      {| cc_visited := replicate (w2 * h2) 0; cc_qx := replicate (w2 * h2) 0;
         cc_qy := replicate (w2 * h2) 0; cc_bestArea := 0; cc_best := None |}
    = Some s'.
Proof.
  match goal with |- context [for_each_opt (seq 0 h2) ?b ?s0] =>
    destruct (for_each_opt_preserves
                (fun c => length (cc_visited c) = (w2 * h2)%nat) (seq 0 h2) b s0)
      as (s' & Hs' & _)
  end.
  - apply length_replicate.
  - intros y s Hy Hs. apply elem_of_seq in Hy.
    apply for_each_opt_preserves; [exact Hs|].
    intros x s1 Hx Hs1. apply elem_of_seq in Hx.
    apply cc_cell_ends; [lia|lia|exact Hs1].
  - by exists s'.
Qed.

(** The extent of a component, scaled back, widened by the padding and cut
    to the image, is a box within the image when it is returned. *)
Lemma cc_frame_within (width height : nat) (stride pad minx miny maxx maxy : Z)
    (box : crop_box) :
  (if (Z.min (Z.of_nat height - 1) ((maxy + 1) * stride + pad - 1)
       <=? Z.max 0 (miny * stride - pad) + 2)
      || (Z.min (Z.of_nat width - 1) ((maxx + 1) * stride + pad - 1)
          <=? Z.max 0 (minx * stride - pad) + 2)
   then Some None
   else Some (Some {| box_x := Z.max 0 (minx * stride - pad);
                      box_y := Z.max 0 (miny * stride - pad);
                      box_w := Z.min (Z.of_nat width - 1) ((maxx + 1) * stride + pad - 1)
                               - Z.max 0 (minx * stride - pad) + 1;
                      box_h := Z.min (Z.of_nat height - 1) ((maxy + 1) * stride + pad - 1)
                               - Z.max 0 (miny * stride - pad) + 1 |}))
  = Some (Some box) ->
  box_within box width height 4.
Proof.
  destruct (_ || _) eqn:Hsmall; [discriminate|]. intros [= <-].
  apply orb_false_elim in Hsmall as [Hv Hh].
  unfold box_within. simpl. lia.
Qed.

(** X11. Whatever the mask, the size and the options, the connected-component
    search of [computeAutoCropBoxCC] ends within as many turns as the coarse
    grid has cells, and a box the function returns lies inside the image and
    is at least 4 samples wide and high. *)
Theorem computeAutoCropBoxCC_ends_within (binary : list Z) (width height : nat)
    (opts : cc_opts) :
  exists r, computeAutoCropBoxCC binary width height opts = Some r /\
    forall box, r = Some box -> box_within box width height 4.
Proof.
  unfold computeAutoCropBoxCC. cbv zeta.
  match goal with |- context [for_each_opt (seq 0 ?h2) (fun y c =>
      for_each_opt (seq 0 ?w2) (fun x c' => cc_cell ?grid _ _ x y c') c) _] =>
    destruct (cc_search_ends grid w2 h2) as [s' ->]
  end.
  destruct (cc_best s') as [[[[minx miny] maxx] maxy]|];
    [|eexists; split; [reflexivity|discriminate]].
  match goal with |- exists r, ?e = Some r /\ _ => destruct e as [r|] eqn:He end.
  - exists r. split; [reflexivity|]. intros box ->.
    by apply cc_frame_within in He.
  - destruct (_ || _) in He; discriminate.
Qed.

(** X12. The rectangle [preprocessImage] crops to, whichever of the three
    detectors supplies it, lies inside the scaled image and is at least 4
    samples wide and high. *)
Theorem crop_box_choice_within (otsuForCrop : list Z) (width height : nat) :
  exists r, crop_box_choice otsuForCrop width height = Some r /\
    forall box, r = Some box -> box_within box width height 4.
Proof.
  unfold crop_box_choice, computeAutoCropBoxCC. cbv zeta.
  cbn [cc_stride cc_blockWhite cc_pad].
  match goal with |- context [for_each_opt (seq 0 ?h2) (fun y c =>
      for_each_opt (seq 0 ?w2) (fun x c' => cc_cell ?grid _ _ x y c') c) _] =>
    destruct (cc_search_ends grid w2 h2) as [s' ->]
  end.
  assert (Hrest : exists r,
            match computeAutoCropBoxSmart otsuForCrop width height with
            | Some box => Some (Some box)
            | None => Some (computeAutoCropBox otsuForCrop width height preprocess_crop_opts)
            end = Some r /\
            forall box, r = Some box -> box_within box width height 4).
  { unfold computeAutoCropBoxSmart.
    destruct (run_finders_in_frame otsuForCrop width height
                (density_thresh width default_minFrac)
                (density_thresh height default_minFrac) 10) as (Ht & Hb & Hl & Hr).
    assert (Hfall : forall box,
              computeAutoCropBox otsuForCrop width height preprocess_crop_opts = Some box ->
              box_within box width height 4).
    { intros box. unfold computeAutoCropBox. cbv zeta. simpl default.
      apply padded_frame_within; [lia|assumption..]. }
    destruct (border_box otsuForCrop width height) as [b|] eqn:Hborder.
    - eexists. split; [reflexivity|]. intros box [= <-].
      apply border_box_within in Hborder. unfold box_within in *. lia.
    - cbv zeta. fold preprocess_crop_opts.
      destruct (computeAutoCropBox otsuForCrop width height preprocess_crop_opts)
        as [b|] eqn:Hcrop.
      + eexists. split; [reflexivity|]. intros box [= <-]. by apply Hfall.
      + eexists. split; [reflexivity|]. intros box Hbox. by apply Hfall. }
  destruct (cc_best s') as [[[[minx miny] maxx] maxy]|]; [|exact Hrest].
  match goal with |- context [if ?c then Some None else Some (Some ?b)] =>
    destruct c eqn:Hsmall
  end; [exact Hrest|].
  eexists. split; [reflexivity|]. intros box [= <-].
  apply (cc_frame_within width height
           (Z.max 2 (int_or None 3)) (int_or None 8) minx miny maxx maxy).
  by rewrite Hsmall.
Qed.

(** ** The Otsu threshold separates the samples *)

Lemma filter_nonempty_elem {A : Type} (P : A -> Prop) `{forall x, Decision (P x)}
    (l : list A) :
  (0 < length (filter P l))%nat -> exists x, x ∈ l /\ P x.
Proof.
  destruct (filter P l) as [|x l'] eqn:Hf; [simpl; lia|]. intros _.
  assert (Hx : x ∈ filter P l) by (rewrite Hf; by left).
  apply list_elem_of_filter in Hx as [HP Hx]. by exists x.
Qed.

Lemma filter_short_elem {A : Type} (P : A -> Prop) `{forall x, Decision (P x)}
    (l : list A) :
  (length (filter P l) < length l)%nat -> exists x, x ∈ l /\ ~ P x.
Proof.
  induction l as [|a l IH]; [simpl; lia|].
  rewrite filter_cons. destruct (decide (P a)) as [Ha|Ha].
  - cbn [length]. intros Hlt. destruct IH as (x & Hx & Hnx); [lia|].
    exists x. split; [by right|exact Hnx].
  - intros _. exists a. split; [by left|exact Ha].
Qed.

(** A threshold other than 0 was selected at a split: some sample is at most
    the threshold and some sample is above it. *)
Lemma otsuThreshold_separates (values : list Z) :
  Forall (fun v => 0 <= v <= 255) values ->
  otsuThreshold values <> 0 ->
  (exists v, v ∈ values /\ v <= otsuThreshold values) /\
  (exists v, v ∈ values /\ otsuThreshold values < v).
Proof.
  intros Hvals. unfold otsuThreshold. cbv zeta. rewrite otsu_sum_moment.
  pose proof (otsu_loop_best values (moment_below (histogram_of values) 256) Hvals)
    as Hloop.
  assert (Hst : forall st, otsu_best values (moment_below (histogram_of values) 256) 256 st ->
            st_threshold st <> 0 ->
            (exists v, v ∈ values /\ v <= st_threshold st) /\
            (exists v, v ∈ values /\ st_threshold st < v)).
  { intros st [_ Hbest] Hne.
    destruct Hbest as [[Hz _] | (t0 & Ht0 & Hthr & Hs & _)]; [congruence|].
    apply splits_spec in Hs as [HwB HwF]. unfold histogram_of in HwB, HwF.
    rewrite (weight_below_count values (replicate 256 0) (S t0)) in HwB, HwF
      by (rewrite ?length_replicate; auto).
    rewrite weight_below_replicate in HwB, HwF. rewrite Hthr. split.
    - destruct (filter_nonempty_elem (fun v => v < Z.of_nat (S t0)) values)
        as (v & Hv & Hlt); [lia|].
      exists v. split; [exact Hv|lia].
    - destruct (filter_short_elem (fun v => v < Z.of_nat (S t0)) values)
        as (v & Hv & Hge); [lia|].
      exists v. split; [exact Hv|lia]. }
  destruct (for_each_until _ _ _) as [st|st]; by apply Hst.
Qed.

(** X13. The global binarization of [preprocessImage]: on gray samples that fill
    the grid, a sample becomes 255 exactly when it is above the Otsu
    threshold, and a threshold other than 0 leaves both ink and background
    in the mask. *)
Theorem otsuBinary_two_classes (denoised : list Z) (width height : nat) :
  Forall (fun v => 0 <= v <= 255) denoised ->
  length denoised = (width * height)%nat ->
  (forall i v, denoised !! i = Some v ->
     otsuBinary denoised width height !! i
     = Some (if otsuThreshold denoised <? v then 255 else 0)) /\
  (otsuThreshold denoised <> 0 ->
   0 ∈ otsuBinary denoised width height /\ 255 ∈ otsuBinary denoised width height).
Proof.
  intros Hvals Hlen.
  assert (Hpt : forall i v, denoised !! i = Some v ->
            otsuBinary denoised width height !! i
            = Some (if otsuThreshold denoised <? v then 255 else 0)).
  { intros i v Hi. unfold otsuBinary. cbv zeta.
    pose proof (lookup_lt_Some _ _ _ Hi) as Hlt.
    rewrite (fill_lookup (fun i => match denoised !! i with
                                   | Some v => if otsuThreshold denoised <? v then 255 else 0
                                   | None => 0
                                   end) 0)
      by (unfold new_u8; rewrite length_replicate; lia).
    case_decide; [|lia]. by rewrite Nat.sub_0_r, Hi. }
  split; [exact Hpt|]. intros Hne.
  destruct (otsuThreshold_separates denoised Hvals Hne) as [(v & Hv & Hle) (v' & Hv' & Hgt)].
  apply list_elem_of_lookup in Hv as [i Hi]. apply list_elem_of_lookup in Hv' as [i' Hi'].
  split.
  - apply list_elem_of_lookup. exists i. rewrite (Hpt i v Hi).
    destruct (Z.ltb_spec (otsuThreshold denoised) v); [lia|reflexivity].
  - apply list_elem_of_lookup. exists i'. rewrite (Hpt i' v' Hi').
    destruct (Z.ltb_spec (otsuThreshold denoised) v'); [reflexivity|lia].
Qed.

Lemma otsuBinary_two_classes_witness :
  otsuBinary [10; 10; 200; 200; 200] 5 1 = [0; 0; 255; 255; 255] /\
  0 ∈ otsuBinary [10; 10; 200; 200; 200] 5 1 /\
  255 ∈ otsuBinary [10; 10; 200; 200; 200] 5 1.
Proof.
  assert (Hvals : Forall (fun v => 0 <= v <= 255) [10; 10; 200; 200; 200])
    by (repeat constructor; lia).
  assert (Hlen : length [10; 10; 200; 200; 200] = (5 * 1)%nat) by reflexivity.
  assert (Hne : otsuThreshold [10; 10; 200; 200; 200] <> 0)
    by (vm_compute; discriminate).
  split; [vm_compute; reflexivity|].
  exact (proj2 (otsuBinary_two_classes _ 5 1 Hvals Hlen) Hne).
Defined.

(** ** The blur and the sharpening *)

Lemma foldl_congr_in {A B : Type} (f g : A -> B -> A) (l : list B) (a : A) :
  (forall acc k, k ∈ l -> f acc k = g acc k) -> foldl f a l = foldl g a l.
Proof.
  revert a. induction l as [|k l IH]; intros a H; [reflexivity|].
  simpl. rewrite (H a k) by (by left). apply IH.
  intros acc k' Hk'. apply H. by right.
Qed.

(** A pixel whose whole window reads [v] gets what a one-sample image of [v]
    gets. *)
Lemma convolve_pixel_flat (input : list Z) (width height : nat) (kernel : list num)
    (kSize : num) (K : Z) (divisor : num) (x y v : Z) :
  (forall kx ky, - K <= kx <= K -> - K <= ky <= K ->
     read_px input (neighbour width height x y kx ky) = Some v) ->
  convolve_pixel input width height kernel kSize K divisor x y
  = convolve_pixel [v] 1 1 kernel kSize K divisor 0 0.
Proof.
  intros Hflat. unfold convolve_pixel. cbv zeta.
  match goal with |- u8_of_num (_ _ (_ _ (_ (?a / _)%float)))
                     = u8_of_num (_ _ (_ _ (_ (?b / _)%float))) =>
    assert (Hacc : a = b); [|by rewrite Hacc]
  end.
  unfold for_rangeZ. apply foldl_congr_in. intros acc ky Hky.
  apply elem_of_seqZ in Hky.
  apply foldl_congr_in. intros acc' kx Hkx. apply elem_of_seqZ in Hkx.
  rewrite Hflat by lia.
  assert (Hn : neighbour 1 1 0 0 kx ky = 0) by (unfold neighbour; lia).
  by rewrite Hn.
Qed.

Lemma u8_of_num_range (x : num) : 0 <= u8_of_num x <= 255.
Proof.
  unfold u8_of_num. destruct (Prim2SF x) as [s|s| |s m e]; try lia.
  - destruct s; lia.
  - destruct s; [lia|]. destruct (0 <=? e) eqn:He.
    + apply Z.leb_le in He. assert (0 < 2 ^ e) by (apply Z.pow_pos_nonneg; lia). nia.
    + apply Z.leb_gt in He. cbv zeta.
      assert (Hden : 0 < 2 ^ (- e)) by (apply Z.pow_pos_nonneg; lia).
      pose proof (Z.div_pos (Z.pos m) (2 ^ (- e)) ltac:(lia) Hden).
      repeat match goal with |- context [if ?b then _ else _] => destruct b end; lia.
Qed.

Lemma convolveGray_length (input : list Z) (width height : nat) (kernel : list num)
    (divisor : num) :
  length (convolveGray input width height kernel divisor) = length input.
Proof.
  unfold convolveGray, new_u8. cbv zeta. by rewrite raster_length, length_replicate.
Qed.

Lemma convolveGray_sample_range (input : list Z) (width height : nat)
    (kernel : list num) (divisor : num) (i : nat) (b : Z) :
  convolveGray input width height kernel divisor !! i = Some b -> 0 <= b <= 255.
Proof.
  unfold convolveGray. cbv zeta. intros H.
  apply raster_new_cases in H as [-> | [_ ->]]; [lia|apply u8_of_num_range].
Qed.

Lemma gaussian_offset :
  int_of_num (Math_floor (PrimFloat.sqrt (num_of_Z (Z.of_nat (length gaussian_kernel))) / 2)%float)
  = 1.
Proof. by vm_compute. Qed.

Lemma gaussian_flat_sample (v : Z) :
  0 <= v <= 255 ->
  convolve_pixel [v] 1 1 gaussian_kernel
    (PrimFloat.sqrt (num_of_Z (Z.of_nat (length gaussian_kernel)))) 1 16%float 0 0 = v.
Proof.
  intros Hv.
  assert (Hall : forallb (fun v =>
            convolve_pixel [v] 1 1 gaussian_kernel
              (PrimFloat.sqrt (num_of_Z (Z.of_nat (length gaussian_kernel)))) 1 16%float 0 0
            =? v) (seqZ 0 256) = true) by (vm_compute; reflexivity).
  rewrite forallb_forall in Hall. apply Z.eqb_eq, Hall.
  apply list_elem_of_In, elem_of_seqZ. lia.
Qed.

(** X14. The 3x3 blur both callers apply leaves flat areas alone: on gray
    samples that fill the grid, a sample whose 3x3 window reads one value
    [v] everywhere is [v] after [convolveGray] with the kernel
    [[1, 2, 1, 2, 4, 2, 1, 2, 1]] and the divisor 16; every sample of the
    result is in 0..255 and the length is the input's. *)
Theorem convolveGray_gaussian_flat (input : list Z) (width height : nat) (j : nat) (v : Z) :
  grid_sized input width height -> (j < height * width)%nat ->
  0 <= v <= 255 ->
  (forall p, near width height 1 j p -> input !! p = Some v) ->
  convolveGray input width height gaussian_kernel 16%float !! j = Some v /\
  length (convolveGray input width height gaussian_kernel 16%float) = length input /\
  Forall (fun b => 0 <= b <= 255) (convolveGray input width height gaussian_kernel 16%float).
Proof.
  intros Hsz Hj Hv Hflat. split; [|split].
  - unfold convolveGray. cbv zeta.
    rewrite raster_lookup by (unfold new_u8; rewrite length_replicate, Hsz; exact Hj).
    rewrite decide_True by exact Hj. f_equal. rewrite gaussian_offset.
    rewrite (convolve_pixel_flat _ _ _ _ _ _ _ _ _ v); [by apply gaussian_flat_sample|].
    intros kx ky Hkx Hky.
    destruct (window_read_in_grid input width height j kx ky Hsz Hj)
      as (p & Hp & _ & Hread & _).
    rewrite Hp, Hread. apply Hflat. by exists kx, ky.
  - apply convolveGray_length.
  - apply Forall_lookup. intros i b. apply convolveGray_sample_range.
Qed.

Lemma convolveGray_gaussian_flat_witness :
  grid_sized (replicate 9 77) 3 3 /\
  convolveGray (replicate 9 77) 3 3 gaussian_kernel 16%float !! 4%nat = Some 77.
Proof.
  assert (Hsz : grid_sized (replicate 9 77) 3 3) by reflexivity.
  split; [exact Hsz|].
  refine (proj1 (convolveGray_gaussian_flat (replicate 9 77) 3 3 4 77 Hsz _ _ _)).
  - lia.
  - lia.
  - intros p Hp. apply lookup_replicate. split; [reflexivity|].
    exact (near_in_grid 3 3 1 4 p ltac:(lia) Hp).
Defined.

Lemma unsharp_keeps_sample (amount : num) (v b : Z) :
  amount = default_amount \/ amount = 0.25%float ->
  v = 0 \/ v = 255 -> 0 <= b <= 255 ->
  (if js_gt (num_of_Z v + amount * (num_of_Z v - num_of_Z b))%float 128%float
   then 255 else 0) = v.
Proof.
  intros Ha Hv Hb.
  assert (Hall : forallb (fun amount => forallb (fun v => forallb (fun b =>
            (if js_gt (num_of_Z v + amount * (num_of_Z v - num_of_Z b))%float 128%float
             then 255 else 0) =? v) (seqZ 0 256)) [0; 255])
            [default_amount; 0.25%float] = true) by (vm_compute; reflexivity).
  rewrite forallb_forall in Hall.
  assert (Hain : In amount [default_amount; 0.25%float]).
  { destruct Ha as [-> | ->]; [by left|right; by left]. }
  specialize (Hall _ Hain). rewrite forallb_forall in Hall.
  assert (Hvin : In v [0; 255]).
  { destruct Hv as [-> | ->]; [by left|right; by left]. }
  specialize (Hall _ Hvin). rewrite forallb_forall in Hall.
  apply Z.eqb_eq, Hall. apply list_elem_of_In, elem_of_seqZ. lia.
Qed.

Lemma binaryMajority3x3_binary (input : list Z) (width height : nat) :
  Forall is_binary (binaryMajority3x3 input width height).
Proof.
  apply Forall_lookup. intros j v Hv. unfold binaryMajority3x3 in Hv.
  apply raster_new_cases in Hv as [-> | [_ ->]]; [by left|].
  destruct (5 <=? _); [by right | by left].
Qed.

(** X15. Sharpening a BinaryMask changes nothing: with the default amount (0.4)
    or the amount [preprocessImage] passes (0.25), [applyUnsharpBinary]
    returns the mask it was given, whatever the width and the height. So the
    sharpening step of [preprocessImage], which runs on the output of
    [binaryMajority3x3], returns that output as it is, for every input. *)
Theorem applyUnsharpBinary_mask_fixed :
  (forall (input : list Z) (width height : nat) (amount : option num),
     Forall is_binary input ->
     amount = None \/ amount = Some default_amount \/ amount = Some 0.25%float ->
     applyUnsharpBinary input width height amount = input) /\
  (forall (opened : list Z) (width height : nat),
     applyUnsharpBinary (binaryMajority3x3 opened width height) width height
       (Some 0.25%float)
     = binaryMajority3x3 opened width height).
Proof.
  assert (Hfix : forall (input : list Z) (width height : nat) (amount : option num),
            Forall is_binary input ->
            amount = None \/ amount = Some default_amount \/ amount = Some 0.25%float ->
            applyUnsharpBinary input width height amount = input).
  { intros input width height amount Hbin Hamount.
    assert (Ha : default default_amount amount = default_amount \/
                 default default_amount amount = 0.25%float).
    { destruct Hamount as [-> | [-> | ->]]; [by left|by left|by right]. }
    unfold applyUnsharpBinary. cbv zeta.
    set (a := default default_amount amount) in *.
    set (blurred := convolveGray input width height gaussian_kernel 16%float).
    apply list_eq. intros i.
    destruct (decide (i < length input)%nat) as [Hi | Hi].
    - rewrite (fill_lookup (fun i => if js_gt (sample_num (input !! i)
                                        + a * (sample_num (input !! i)
                                               - sample_num (blurred !! i)))%float 128%float
                                     then 255 else 0) 0)
        by (unfold new_u8; rewrite length_replicate; exact Hi).
      rewrite decide_True by lia. rewrite Nat.sub_0_r.
      destruct (lookup_lt_is_Some_2 input i Hi) as [v Hv].
      destruct (lookup_lt_is_Some_2 blurred i) as [b Hb].
      { unfold blurred. by rewrite convolveGray_length. }
      rewrite Hv, Hb. simpl. f_equal. apply unsharp_keeps_sample.
      + exact Ha.
      + exact (binary_lookup input i v Hbin Hv).
      + exact (convolveGray_sample_range _ _ _ _ _ _ _ Hb).
    - rewrite (lookup_ge_None_2 input) by lia. apply lookup_ge_None_2.
      rewrite (fill_length (fun i => if js_gt (sample_num (input !! i)
                                        + a * (sample_num (input !! i)
                                               - sample_num (blurred !! i)))%float 128%float
                                     then 255 else 0) 0).
      unfold new_u8. rewrite length_replicate. lia. }
  split; [exact Hfix|].
  intros opened width height. apply Hfix.
  - apply binaryMajority3x3_binary.
  - right. by right.
Qed.

(** ** The contrast stretch keeps the order of the gray levels *)

Lemma percentile_bin_range (hist : list Z) (idx : list nat) (count : num) (start : Z) :
  Forall (fun i => (i < 256)%nat) idx -> 0 <= start <= 255 ->
  0 <= percentile_bin hist idx count start <= 255.
Proof.
  intros Hidx Hstart. unfold percentile_bin.
  match goal with |- context [for_each_until ?l ?body ?s0] =>
    pose proof (for_each_until_inv (fun _ _ => True) (fun r => 0 <= r <= 255) l body s0) as H
  end.
  match type of H with ?A -> ?B -> ?C => assert (HA : A) by exact I; assert (HB : B) end.
  { intros k i acc Hk _. cbv zeta. destruct (js_ge _ _); [|exact I].
    rewrite Forall_lookup in Hidx. specialize (Hidx k i Hk). simpl in Hidx. lia. }
  specialize (H HA HB). destruct (for_each_until _ _ _); [exact Hstart|exact H].
Qed.

Lemma stretch_sample_shift (lo hi : Z) (scale : num) (v : Z) :
  stretch_sample lo hi scale v = stretch_sample 0 (hi - lo) scale (v - lo).
Proof.
  unfold stretch_sample. rewrite Z.sub_0_r.
  assert (E1 : (v - lo <=? 0) = (v <=? lo)).
  { apply Bool.eq_iff_eq_true. rewrite !Z.leb_le. lia. }
  assert (E2 : (hi - lo <=? v - lo) = (hi <=? v)).
  { apply Bool.eq_iff_eq_true. rewrite !Z.leb_le. lia. }
  by rewrite E1, E2.
Qed.

Lemma stretch_sample_range (lo hi : Z) (scale : num) (v : Z) :
  0 <= stretch_sample lo hi scale v <= 255.
Proof.
  unfold stretch_sample. destruct (v <=? lo); [lia|].
  destruct (hi <=? v); [lia|]. apply u8_of_num_range.
Qed.

(** Between the two percentiles, one more gray level never gives a darker
    sample: checked for each of the 255 spans and each level inside. *)
Lemma stretch_step (d u : Z) :
  1 <= d <= 255 -> 1 <= u -> u + 1 < d ->
  stretch_sample 0 d (255 / num_of_Z d)%float u
  <= stretch_sample 0 d (255 / num_of_Z d)%float (u + 1).
Proof.
  intros Hd Hu Hu'.
  assert (Hall : forallb (fun d =>
            let scale := (255 / num_of_Z d)%float in
            forallb (fun u => stretch_sample 0 d scale u <=? stretch_sample 0 d scale (u + 1))
                    (seqZ 1 (d - 2))) (seqZ 1 255) = true) by (vm_compute; reflexivity).
  rewrite forallb_forall in Hall.
  specialize (Hall d ltac:(apply list_elem_of_In, elem_of_seqZ; lia)).
  cbv zeta in Hall. rewrite forallb_forall in Hall.
  apply Z.leb_le, Hall. apply list_elem_of_In, elem_of_seqZ. lia.
Qed.

Lemma stretch_inside_mono (d u u' : Z) :
  1 <= d <= 255 -> 1 <= u -> u <= u' -> u' < d ->
  stretch_sample 0 d (255 / num_of_Z d)%float u
  <= stretch_sample 0 d (255 / num_of_Z d)%float u'.
Proof.
  intros Hd Hu Hle Hu'.
  assert (Hn : forall n : nat, u + Z.of_nat n < d ->
            stretch_sample 0 d (255 / num_of_Z d)%float u
            <= stretch_sample 0 d (255 / num_of_Z d)%float (u + Z.of_nat n)).
  { induction n as [|n IH]; intros Hn.
    - rewrite Z.add_0_r. lia.
    - pose proof (stretch_step d (u + Z.of_nat n) Hd ltac:(lia) ltac:(lia)) as Hs.
      replace (u + Z.of_nat (S n)) with (u + Z.of_nat n + 1) by lia.
      specialize (IH ltac:(lia)). lia. }
  specialize (Hn (Z.to_nat (u' - u))). rewrite Z2Nat.id in Hn by lia.
  replace (u + (u' - u)) with u' in Hn by lia. by apply Hn.
Qed.

Lemma stretch_sample_mono (lo hi v v' : Z) :
  0 <= lo -> lo < hi -> hi <= 255 -> v <= v' ->
  stretch_sample lo hi (255 / num_of_Z (hi - lo))%float v
  <= stretch_sample lo hi (255 / num_of_Z (hi - lo))%float v'.
Proof.
  intros Hlo Hlt Hhi Hle.
  destruct (decide (v <= lo)) as [Hv|Hv].
  { pose proof (stretch_sample_range lo hi (255 / num_of_Z (hi - lo))%float v').
    unfold stretch_sample at 1. destruct (Z.leb_spec v lo); lia. }
  destruct (decide (hi <= v')) as [Hv'|Hv'].
  { pose proof (stretch_sample_range lo hi (255 / num_of_Z (hi - lo))%float v).
    unfold stretch_sample at 2.
    destruct (Z.leb_spec v' lo); [lia|]. destruct (Z.leb_spec hi v'); lia. }
  rewrite (stretch_sample_shift lo hi _ v), (stretch_sample_shift lo hi _ v').
  apply stretch_inside_mono; lia.
Qed.

(** X16. [contrastStretch] keeps the length of its input and the order of its
    gray levels, whatever the percentiles: of two samples, the one that was
    not brighter before is not brighter after. *)
Theorem contrastStretch_monotone (gray : list Z) (width height : nat)
    (lowPct highPct : option num) :
  length (contrastStretch gray width height lowPct highPct) = length gray /\
  forall i j v v', gray !! i = Some v -> gray !! j = Some v' -> v <= v' ->
    exists o o', contrastStretch gray width height lowPct highPct !! i = Some o /\
                 contrastStretch gray width height lowPct highPct !! j = Some o' /\
                 o <= o'.
Proof.
  unfold contrastStretch. cbv zeta.
  set (hist := foldl hist_incr_u32 (replicate 256 0) gray).
  set (lo := percentile_bin hist (seq 0 256) _ 0).
  set (hi := percentile_bin hist (reverse (seq 0 256)) _ 255).
  assert (Hlo : 0 <= lo <= 255).
  { apply percentile_bin_range; [|lia]. apply Forall_forall. intros i Hi.
    apply elem_of_seq in Hi. lia. }
  assert (Hhi : 0 <= hi <= 255).
  { apply percentile_bin_range; [|lia]. apply Forall_forall. intros i Hi.
    apply elem_of_reverse, elem_of_seq in Hi. lia. }
  destruct (Z.leb_spec hi lo) as [Hsame | Hlt].
  - split; [reflexivity|]. intros i j v v' Hi Hj Hle. by exists v, v'.
  - set (f := fun i => match gray !! i with
                       | Some v => stretch_sample lo hi (255 / num_of_Z (hi - lo))%float v
                       | None => 0
                       end).
    split.
    + rewrite (fill_length f 0). apply length_replicate.
    + intros i j v v' Hi Hj Hle.
      pose proof (lookup_lt_Some _ _ _ Hi) as Hilt.
      pose proof (lookup_lt_Some _ _ _ Hj) as Hjlt.
      exists (f i), (f j).
      rewrite !(fill_lookup f 0) by (unfold new_u8; rewrite length_replicate; lia).
      rewrite !decide_True by lia. rewrite !Nat.sub_0_r.
      split; [reflexivity|]. split; [reflexivity|].
      unfold f. rewrite Hi, Hj. apply stretch_sample_mono; lia.
Qed.

(** ** Phone normalisation is a projection *)

Lemma filter_id_Forall {A : Type} (P : A -> Prop) `{forall x, Decision (P x)} (l : list A) :
  Forall P l -> filter P l = l.
Proof.
  induction 1 as [|x l Hx _ IH]; [reflexivity|].
  by rewrite filter_cons, decide_True, IH.
Qed.

Lemma Forall_filter_self {A : Type} (P : A -> Prop) `{forall x, Decision (P x)} (l : list A) :
  Forall P (filter P l).
Proof. apply Forall_forall. intros x Hx. by apply list_elem_of_filter in Hx as [Hx _]. Qed.

(** X17. [normalizePhoneValue] never answers the empty string, and a second pass
    leaves every answer as it is. *)
Theorem normalizePhoneValue_idempotent (value : option jsstring) :
  normalizePhoneValue value <> Some [] /\
  normalizePhoneValue (normalizePhoneValue value) = normalizePhoneValue value.
Proof.
  destruct value as [value|]; [|split; [discriminate|reflexivity]].
  rewrite normalizePhoneValue_unfold.
  pose proof (Forall_filter_self (fun c => is_digit c || (c =? 43) = true) value) as Hall.
  fold (phone_chars value) in Hall.
  destruct (phone_chars value) as [|c rest]; [split; [discriminate|reflexivity]|].
  inversion Hall as [|? ? Hc Hrest]; subst.
  pose proof (Forall_filter_self (fun c => is_digit c = true) rest) as Hd.
  fold (digits_of rest) in Hd.
  destruct (c =? 43) eqn:E.
  - split; [discriminate|]. rewrite normalizePhoneValue_unfold.
    change (phone_chars (43 :: digits_of rest))
      with (43 :: phone_chars (digits_of rest)).
    change (43 =? 43) with true. cbv iota. do 2 f_equal.
    rewrite digits_of_phone_chars. unfold digits_of at 1. by apply filter_id_Forall.
  - assert (Hdc : is_digit c = true) by (rewrite orb_false_r in Hc; exact Hc).
    assert (Hdig : digits_of (c :: rest) = c :: digits_of rest).
    { unfold digits_of. by rewrite filter_cons, decide_True. }
    rewrite Hdig. split; [discriminate|]. rewrite normalizePhoneValue_unfold.
    assert (Hpc : phone_chars (c :: digits_of rest) = c :: phone_chars (digits_of rest)).
    { unfold phone_chars. rewrite filter_cons, decide_True; [reflexivity|].
      by rewrite Hdc. }
    rewrite Hpc, E. f_equal.
    assert (Hdd : digits_of (c :: phone_chars (digits_of rest))
                  = c :: digits_of (phone_chars (digits_of rest))).
    { unfold digits_of. by rewrite filter_cons, decide_True. }
    rewrite Hdd. f_equal.
    rewrite digits_of_phone_chars. unfold digits_of at 1. by apply filter_id_Forall.
Qed.

(** ** What [EMAIL_REGEX] matches *)

Lemma span_spec (p : Z -> bool) (s a b : jsstring) :
  span p s = (a, b) ->
  s = a ++ b /\ Forall (fun c => p c = true) a /\
  match b with [] => True | c :: _ => p c = false end.
Proof.
  revert a b. induction s as [|c s IH]; intros a b; simpl.
  - intros [= <- <-]. by repeat split.
  - destruct (p c) eqn:Hc.
    + destruct (span p s) as [a' b'] eqn:Hs. intros [= <- <-].
      destruct (IH a' b' eq_refl) as (-> & Ha & Hb).
      split; [reflexivity|]. split; [by constructor|exact Hb].
    + intros [= <- <-]. split; [reflexivity|]. split; [constructor|exact Hc].
Qed.

Lemma span_app_stop (p : Z -> bool) (a b : jsstring) :
  Forall (fun c => p c = true) a ->
  match b with [] => True | c :: _ => p c = false end ->
  span p (a ++ b) = (a, b).
Proof.
  intros Ha Hb. induction Ha as [|c a Hc _ IH]; simpl.
  - destruct b as [|c b]; [reflexivity|]. simpl. by rewrite Hb.
  - by rewrite Hc, IH.
Qed.

Lemma first_some_Some {A B : Type} (f : A -> option B) (l : list A) (b : B) :
  first_some f l = Some b -> exists a, a ∈ l /\ f a = Some b.
Proof.
  induction l as [|a l IH]; simpl; [discriminate|].
  destruct (f a) as [b'|] eqn:Ha.
  - intros [= <-]. exists a. split; [by left|exact Ha].
  - intros H. destruct (IH H) as (a' & Hin & Ha'). exists a'. split; [by right|exact Ha'].
Qed.

Lemma first_some_skip {A B : Type} (f : A -> option B) (l1 l2 : list A) :
  (forall a, a ∈ l1 -> f a = None) ->
  first_some f (l1 ++ l2) = first_some f l2.
Proof.
  intros Hnone. induction l1 as [|a l1 IH]; [reflexivity|].
  simpl. rewrite (Hnone a) by (by left). apply IH.
  intros a' Ha'. apply Hnone. by right.
Qed.

Lemma regex_search_suffix (here : jsstring -> option jsstring) (s m : jsstring) :
  regex_search here s = Some m ->
  exists pre s', s = pre ++ s' /\ here s' = Some m.
Proof.
  induction s as [|c s IH]; simpl.
  - destruct (here []) as [m'|] eqn:Hh; [|discriminate].
    intros [= <-]. by exists [], [].
  - destruct (here (c :: s)) as [m'|] eqn:Hh.
    + intros [= <-]. by exists [], (c :: s).
    + intros H. destruct (IH H) as (pre & s' & -> & Hs').
      by exists (c :: pre), s'.
Qed.

Lemma regex_search_here (here : jsstring -> option jsstring) (s m : jsstring) :
  here s = Some m -> regex_search here s = Some m.
Proof. intros H. destruct s; simpl; by rewrite H. Qed.

(** A match at the head of [s] is a whole email and a prefix of [s]. *)
Lemma email_match_here_shape (s m : jsstring) :
  email_match_here s = Some m ->
  email_shape m /\ exists post, s = m ++ post.
Proof.
  unfold email_match_here.
  destruct (span local_char s) as [L r1] eqn:HL.
  apply span_spec in HL as (-> & HLall & _).
  destruct L as [|l0 L]; [discriminate|].
  destruct r1 as [|c r2]; [discriminate|].
  destruct (c =? 64) eqn:Hc; [|discriminate]. apply Z.eqb_eq in Hc. subst c.
  destruct (span domain_char r2) as [D rest] eqn:HD.
  apply span_spec in HD as (-> & HDall & _).
  destruct (first_some _ _) as [m'|] eqn:Hfs; [|discriminate].
  intros [= <-]. apply first_some_Some in Hfs as (d & Hd & Htld).
  apply elem_of_reverse, elem_of_seq in Hd.
  unfold tld_at in Htld.
  destruct (drop d D) as [|c after] eqn:Hdrop; [discriminate|].
  destruct (c =? 46) eqn:Hc; [|discriminate]. apply Z.eqb_eq in Hc. subst c.
  destruct (span is_letter after) as [T t'] eqn:HT.
  apply span_spec in HT as (-> & HTall & _).
  destruct (2 <=? length T)%nat eqn:Hlen; [|discriminate].
  apply Nat.leb_le in Hlen. injection Htld as <-.
  split.
  - exists (l0 :: L), (take d D), T. split; [reflexivity|].
    split; [discriminate|]. split; [exact HLall|].
    split; [|split; [|split; [exact HTall|exact Hlen]]].
    + intros Heq. apply (f_equal length) in Heq. rewrite length_take in Heq.
      simpl in Heq. lia.
    + by apply Forall_take.
  - exists (t' ++ rest).
    rewrite <- (take_drop d D) at 1. rewrite Hdrop.
    rewrite <- !app_assoc. simpl. rewrite <- !app_assoc. simpl.
    by rewrite <- !app_assoc.
Qed.

Lemma letter_is_domain_char (c : Z) : is_letter c = true -> domain_char c = true.
Proof.
  unfold is_letter, domain_char, is_alnum. intros H.
  apply orb_prop in H as [-> | ->]; by rewrite ?orb_true_r.
Qed.

Lemma letter_not_dot (c : Z) : is_letter c = true -> (c =? 46) = false.
Proof.
  unfold is_letter, is_upper, is_lower. intros H. apply Z.eqb_neq. lia.
Qed.

(** A whole email is matched at its head, whole. *)
Lemma email_shape_match_here (m : jsstring) :
  email_shape m -> email_match_here m = Some m.
Proof.
  intros (L & D & T & -> & HLne & HL & HDne & HD & HT & Hlen).
  unfold email_match_here.
  rewrite (span_app_stop local_char L (64 :: D ++ 46 :: T) HL eq_refl).
  destruct L as [|l0 L]; [done|].
  change (64 =? 64) with true. cbv iota.
  assert (Hall : Forall (fun c => domain_char c = true) (D ++ 46 :: T)).
  { apply Forall_app. split; [exact HD|]. constructor; [reflexivity|].
    eapply Forall_impl; [exact HT|]. exact letter_is_domain_char. }
  pose proof (span_app_stop domain_char (D ++ 46 :: T) [] Hall I) as Hspan.
  rewrite app_nil_r in Hspan. rewrite Hspan.
  set (D2 := D ++ 46 :: T).
  assert (HlenD2 : length D2 = (length D + S (length T))%nat).
  { unfold D2. by rewrite length_app. }
  assert (HlenD : (1 <= length D)%nat) by (destruct D; [done|simpl; lia]).
  assert (Hseq : seq 1 (length D2)
                 = seq 1 (length D) ++ seq (S (length D)) (S (length T))).
  { rewrite HlenD2. by rewrite seq_app. }
  assert (Hseq' : seq 1 (length D) = seq 1 (length D - 1) ++ [length D]).
  { replace (length D) with (length D - 1 + 1)%nat at 1 by lia.
    rewrite seq_app. simpl. do 3 f_equal. lia. }
  rewrite Hseq, Hseq', !reverse_app, reverse_singleton.
  rewrite first_some_skip.
  - simpl. unfold tld_at at 1. unfold D2 at 1. rewrite drop_app_length.
    change (46 =? 46) with true. cbv iota.
    pose proof (span_app_stop is_letter T [] HT I) as HspanT.
    rewrite app_nil_r in HspanT. rewrite HspanT.
    apply Nat.leb_le in Hlen. rewrite Hlen.
    unfold D2. by rewrite take_app_length.
  - intros d Hd. apply elem_of_reverse, elem_of_seq in Hd.
    unfold tld_at, D2.
    rewrite drop_app_ge by lia.
    replace (d - length D)%nat with (S (d - length D - 1)) by lia.
    simpl. destruct (drop (d - length D - 1) T) as [|c after] eqn:Hdrop; [reflexivity|].
    pose proof (Forall_drop _ (d - length D - 1) _ HT) as HTd.
    rewrite Hdrop in HTd. inversion HTd as [|? ? Hc _]; subst.
    by rewrite (letter_not_dot c Hc).
Qed.

Lemma lower_ascii_classes (c : Z) :
  local_char (lower_ascii c) = local_char c /\
  domain_char (lower_ascii c) = domain_char c /\
  is_letter (lower_ascii c) = is_letter c.
Proof.
  unfold local_char, domain_char, is_letter, is_alnum, lower_ascii, is_digit,
    is_upper, is_lower.
  destruct ((65 <=? c) && (c <=? 90)) eqn:Hup.
  - apply andb_prop in Hup as [H1 H2]. apply Z.leb_le in H1, H2.
    repeat split;
      repeat match goal with
      | |- context [?a <=? ?b] => destruct (Z.leb_spec a b); try lia
      | |- context [?a =? ?b] => destruct (Z.eqb_spec a b); try lia
      end; reflexivity.
  - repeat split; rewrite ?Hup; reflexivity.
Qed.

Lemma lower_ascii_idem (c : Z) : lower_ascii (lower_ascii c) = lower_ascii c.
Proof.
  unfold lower_ascii, is_upper.
  destruct ((65 <=? c) && (c <=? 90)) eqn:Hup; [|by rewrite Hup].
  apply andb_prop in Hup as [H1 H2]. apply Z.leb_le in H1, H2.
  destruct (65 <=? c + 32) eqn:E1, (c + 32 <=? 90) eqn:E2; simpl; try reflexivity.
  apply Z.leb_le in E2. lia.
Qed.

Lemma email_shape_lower (m : jsstring) :
  email_shape m -> email_shape (lower_ascii <$> m).
Proof.
  intros (L & D & T & -> & HLne & HL & HDne & HD & HT & Hlen).
  exists (lower_ascii <$> L), (lower_ascii <$> D), (lower_ascii <$> T).
  split; [by rewrite fmap_app, fmap_cons, fmap_app, fmap_cons|].
  split; [by destruct L|]. split.
  { apply Forall_fmap. eapply Forall_impl; [exact HL|]. intros c Hc. simpl.
    by rewrite (proj1 (lower_ascii_classes c)). }
  split; [by destruct D|]. split.
  { apply Forall_fmap. eapply Forall_impl; [exact HD|]. intros c Hc. simpl.
    by rewrite (proj1 (proj2 (lower_ascii_classes c))). }
  split.
  { apply Forall_fmap. eapply Forall_impl; [exact HT|]. intros c Hc. simpl.
    by rewrite (proj2 (proj2 (lower_ascii_classes c))). }
  by rewrite length_fmap.
Qed.

(** Every match of [EMAIL_REGEX] is a whole email and a part of the text
    searched. *)
Lemma EMAIL_REGEX_match_shape (s m : jsstring) :
  EMAIL_REGEX_match s = Some m ->
  email_shape m /\ exists pre post, s = pre ++ m ++ post.
Proof.
  intros H. apply regex_search_suffix in H as (pre & s' & -> & Hs').
  apply email_match_here_shape in Hs' as (Hshape & post & ->).
  split; [exact Hshape|]. by exists pre, post.
Qed.

Lemma EMAIL_REGEX_match_whole (m : jsstring) :
  email_shape m -> EMAIL_REGEX_match m = Some m.
Proof. intros H. by apply regex_search_here, email_shape_match_here. Qed.

(** ** The best candidate of an extraction loop *)

Lemma foldl_preserves {A B : Type} (Q : B -> Prop) (f : B -> A -> B) (l : list A) (b : B) :
  Q b -> (forall b a, Q b -> Q (f b a)) -> Q (foldl f b l).
Proof.
  intros Hb Hstep. revert b Hb. induction l as [|a l IH]; intros b Hb; [exact Hb|].
  simpl. apply IH, Hstep, Hb.
Qed.

(** A loop that replaces [best] by the field of a candidate exactly when the
    candidate's confidence is higher ends with a field no candidate exceeds:
    the empty field, or the field of the first candidate whose confidence,
    which is positive, no candidate exceeds. *)
Lemma best_fold_selects {A : Type} (step : field -> A -> field)
    (cand : A -> option field) (l : list A) :
  (forall best a,
     step best a = match cand a with
                   | None => best
                   | Some f => if js_gt (f_confidence f) (f_confidence best)
                               then f else best
                   end) ->
  (forall a f, a ∈ l -> cand a = Some f ->
     js_gt (f_confidence f) (f_confidence (foldl step empty_field l)) = false) /\
  (foldl step empty_field l = empty_field \/
   exists k a, l !! k = Some a /\ cand a = Some (foldl step empty_field l) /\
     js_gt (f_confidence (foldl step empty_field l)) 0%float = true /\
     forall j a' f', (j < k)%nat -> l !! j = Some a' -> cand a' = Some f' ->
       js_ge (f_confidence f') (f_confidence (foldl step empty_field l)) = false).
Proof.
  intros Hstep. induction l as [|a l [IHmax IHsel]] using rev_ind.
  - split; [intros a f Ha; inversion Ha|by left].
  - rewrite foldl_app. cbn [foldl]. set (r := foldl step empty_field l) in *.
    rewrite Hstep. destruct (cand a) as [f|] eqn:Hcand.
    + destruct (js_gt (f_confidence f) (f_confidence r)) eqn:Hgt.
      * (* the candidate replaces [best] *)
        split.
        -- intros a' f' Ha' Hc'. apply elem_of_app in Ha' as [Ha' | Ha'].
           ++ apply not_true_is_false. intros Hc.
              pose proof (IHmax a' f' Ha' Hc') as Hle. unfold js_gt in *.
              rewrite (ltb_trans _ _ _ Hgt Hc) in Hle. discriminate.
           ++ apply list_elem_of_singleton in Ha' as ->. rewrite Hcand in Hc'.
              injection Hc' as <-. apply ltb_irrefl.
        -- right. exists (length l), a. split; [|split; [|split]].
           ++ by rewrite lookup_app_r, Nat.sub_diag by lia.
           ++ exact Hcand.
           ++ destruct IHsel as [Hempty | (k & a0 & _ & _ & Hpos & _)].
              ** by rewrite Hempty in Hgt.
              ** unfold js_gt in *. by apply (ltb_trans _ (f_confidence r)).
           ++ intros j a' f' Hj Hla Hc'. rewrite lookup_app_l in Hla by exact Hj.
              apply not_true_is_false. intros Hc.
              pose proof (IHmax a' f' (list_elem_of_lookup_2 _ _ _ Hla) Hc') as Hle.
              unfold js_gt, js_ge in *.
              rewrite (ltb_leb_trans _ _ _ Hgt Hc) in Hle. discriminate.
      * (* [best] stays *)
        split.
        -- intros a' f' Ha' Hc'. apply elem_of_app in Ha' as [Ha' | Ha'].
           ++ by apply (IHmax a').
           ++ apply list_elem_of_singleton in Ha' as ->. rewrite Hcand in Hc'.
              by injection Hc' as <-.
        -- destruct IHsel as [Hempty | (k & a0 & Hk & Hc0 & Hpos & Hfirst)]; [by left|].
           right. exists k, a0. split; [|split; [exact Hc0|split; [exact Hpos|]]].
           ++ rewrite lookup_app_l; [exact Hk|]. by apply lookup_lt_Some in Hk.
           ++ intros j a' f' Hj Hla. apply (Hfirst j a' f' Hj).
              rewrite lookup_app_l in Hla; [exact Hla|].
              apply lookup_lt_Some in Hk. lia.
    + split.
      * intros a' f' Ha' Hc'. apply elem_of_app in Ha' as [Ha' | Ha'].
        -- by apply (IHmax a').
        -- apply list_elem_of_singleton in Ha' as ->. congruence.
      * destruct IHsel as [Hempty | (k & a0 & Hk & Hc0 & Hpos & Hfirst)]; [by left|].
        right. exists k, a0. split; [|split; [exact Hc0|split; [exact Hpos|]]].
        -- rewrite lookup_app_l; [exact Hk|]. by apply lookup_lt_Some in Hk.
        -- intros j a' f' Hj Hla. apply (Hfirst j a' f' Hj).
           rewrite lookup_app_l in Hla; [exact Hla|].
           apply lookup_lt_Some in Hk. lia.
Qed.

(** X18. What [extractEmailFromLines] returns is the best of its candidates: it
    is the empty field, or it is the field made of the email and the gated
    words of one of the lines, with their mean confidence, which is
    positive, and with their bounding box; that line is the first one whose
    confidence no candidate reaches before it. And no line's candidate has
    a confidence above the returned one. *)
Theorem extractEmailFromLines_best (lines : list line) :
  (extractEmailFromLines lines = empty_field \/
   exists k ln candidate gatedWords,
     lines !! k = Some ln /\
     email_line_candidate ln = Some (candidate, gatedWords) /\
     extractEmailFromLines lines
     = {| f_value := Some candidate;
          f_confidence := meanConfidence (Some gatedWords);
          f_words := Some gatedWords;
          f_bbox := summarizeWords (Some gatedWords) |} /\
     js_gt (meanConfidence (Some gatedWords)) 0%float = true /\
     forall j ln' candidate' gatedWords', (j < k)%nat -> lines !! j = Some ln' ->
       email_line_candidate ln' = Some (candidate', gatedWords') ->
       js_ge (meanConfidence (Some gatedWords'))
             (meanConfidence (Some gatedWords)) = false) /\
  (forall ln candidate gatedWords, ln ∈ lines ->
     email_line_candidate ln = Some (candidate, gatedWords) ->
     js_gt (meanConfidence (Some gatedWords))
           (f_confidence (extractEmailFromLines lines)) = false).
Proof.
  set (cand := fun ln =>
         match email_line_candidate ln with
         | Some (candidate, gatedWords) =>
             Some {| f_value := Some candidate;
                     f_confidence := meanConfidence (Some gatedWords);
                     f_words := Some gatedWords;
                     f_bbox := summarizeWords (Some gatedWords) |}
         | None => None
         end).
  assert (Hcand : forall ln f, cand ln = Some f ->
            exists candidate gatedWords,
              email_line_candidate ln = Some (candidate, gatedWords) /\
              f = {| f_value := Some candidate;
                     f_confidence := meanConfidence (Some gatedWords);
                     f_words := Some gatedWords;
                     f_bbox := summarizeWords (Some gatedWords) |}).
  { intros ln f. unfold cand.
    destruct (email_line_candidate ln) as [[c gw]|]; [|discriminate].
    intros [= <-]. by exists c, gw. }
  unfold extractEmailFromLines.
  match goal with
  | |- context [foldl ?step empty_field lines] =>
      destruct (best_fold_selects step cand lines) as [Hmax Hsel]
  end.
  { intros best ln. unfold cand.
    destruct (email_line_candidate ln) as [[c gw]|]; reflexivity. }
  split.
  - destruct Hsel as [Hempty | (k & ln & Hk & Hc & Hpos & Hfirst)]; [by left|].
    right. destruct (Hcand ln _ Hc) as (candidate & gatedWords & Hline & Hfld).
    exists k, ln, candidate, gatedWords.
    split; [exact Hk|]. split; [exact Hline|]. split; [exact Hfld|].
    rewrite Hfld in Hpos, Hfirst. split; [exact Hpos|].
    intros j ln' c' gw' Hj Hln' Hline'.
    apply (Hfirst j ln' {| f_value := Some c'; f_confidence := meanConfidence (Some gw');
                           f_words := Some gw';
                           f_bbox := summarizeWords (Some gw') |} Hj Hln').
    unfold cand. by rewrite Hline'.
  - intros ln candidate gatedWords Hin Hline.
    apply (Hmax ln {| f_value := Some candidate;
                      f_confidence := meanConfidence (Some gatedWords);
                      f_words := Some gatedWords;
                      f_bbox := summarizeWords (Some gatedWords) |} Hin).
    unfold cand. by rewrite Hline.
Qed.

(** X19. The email [extractEmailFromLines] returns is a whole email as
    [EMAIL_REGEX] reads it, written with the code units
    [normalizeEmailCandidate] can produce: no upper-case letter, none of the
    digits 0, 1 and 5, no white space. *)
Theorem extractEmailFromLines_value_clean (lines : list line) (v : jsstring) :
  f_value (extractEmailFromLines lines) = Some v ->
  email_shape v /\ Forall (fun c => stable_char c = true) v.
Proof.
  unfold extractEmailFromLines.
  apply (foldl_preserves
    (fun b => f_value b = Some v ->
              email_shape v /\ Forall (fun c => stable_char c = true) v)).
  - discriminate.
  - intros best ln Hbest.
    destruct (email_line_candidate ln) as [[c gw]|] eqn:Hcand; [|exact Hbest].
    cbv zeta. destruct (js_gt _ _); [|exact Hbest].
    simpl. intros [= ->].
    unfold email_line_candidate in Hcand.
    destruct (l_words ln) as [[|w0 ws]|]; try discriminate.
    destruct (List.find _ _) as [atWord|]; [|discriminate].
    destruct (w_bbox atWord) as [b|]; [|discriminate].
    cbv zeta in Hcand.
    destruct (List.filter _ _) as [|g0 gs]; [discriminate|].
    destruct (EMAIL_REGEX_match _) as [m|] eqn:Hm; [|discriminate].
    injection Hcand as -> _.
    apply EMAIL_REGEX_match_shape in Hm as (Hshape & pre & post & Heq).
    split; [exact Hshape|].
    pose proof (normalize_output_stable
      (js_join [] ((fun w => js_trim (default [] (w_text w))) <$> (g0 :: gs)))) as Hst.
    rewrite Heq in Hst. apply Forall_app in Hst as [_ Hst].
    by apply Forall_app in Hst as [Hst _].
Qed.

Lemma email_shape_nonempty (m : jsstring) : email_shape m -> m <> [].
Proof. intros (L & D & T & -> & _). by destruct L. Qed.

(** X20. The final sanitation of [extractEmail] never changes the field: the
    value found by the scan is a whole lower-case email already, so matching
    it once more gives it back. *)
Theorem extractEmail_revalidation_no_op (words : list word) :
  extractEmail words = email_windows_best words.
Proof.
  unfold extractEmail.
  assert (Hinv : f_value (email_windows_best words) = None \/
                 exists m, f_value (email_windows_best words) = Some (lower_ascii <$> m) /\
                           email_shape m).
  { unfold email_windows_best.
    apply (foldl_preserves
      (fun b => f_value b = None \/
                exists m, f_value b = Some (lower_ascii <$> m) /\ email_shape m)).
    - by left.
    - intros b i Hb. apply foldl_preserves; [exact Hb|].
      clear b Hb. intros b len Hb. unfold email_window. cbv zeta.
      destruct (EMAIL_REGEX_match _) as [m|] eqn:Hm; [|exact Hb].
      destruct (js_gt _ _); [|exact Hb].
      right. exists m. split; [reflexivity|].
      by apply EMAIL_REGEX_match_shape in Hm as [Hm _]. }
  destruct (email_windows_best words) as [value confidence ws box].
  simpl in Hinv. unfold revalidate. simpl.
  destruct Hinv as [-> | (m & -> & Hshape)]; [reflexivity|].
  pose proof (email_shape_lower m Hshape) as Hlow.
  pose proof (email_shape_nonempty _ Hlow) as Hne.
  destruct (lower_ascii <$> m) as [|c0 rest] eqn:Hlm; [done|].
  cbv [truthy]. cbv zeta. simpl default.
  rewrite (EMAIL_REGEX_match_whole _ Hlow). f_equal. f_equal.
  rewrite <- Hlm, <- list_fmap_compose.
  apply list_fmap_ext. intros _ c _. simpl. apply lower_ascii_idem.
Qed.

Lemma extractEmailFromLines_value_clean_witness :
  f_value (extractEmailFromLines example_email_lines) = Some (js "bob@site.com") /\
  email_shape (js "bob@site.com") /\
  Forall (fun c => stable_char c = true) (js "bob@site.com").
Proof.
  assert (H : f_value (extractEmailFromLines example_email_lines)
              = Some (js "bob@site.com")) by (vm_compute; reflexivity).
  split; [exact H|].
  exact (extractEmailFromLines_value_clean example_email_lines _ H).
Defined.

(** ** Names *)

Lemma drop_while_Forall (P : Z -> Prop) (p : Z -> bool) (s : jsstring) :
  Forall P s -> Forall P (drop_while p s).
Proof.
  induction 1 as [|c s Hc Hs IH]; simpl; [constructor|].
  destruct (p c); [exact IH|by constructor].
Qed.

Lemma js_trim_Forall (P : Z -> Prop) (s : jsstring) :
  Forall P s -> Forall P (js_trim s).
Proof.
  intros H. unfold js_trim.
  by apply Forall_reverse, drop_while_Forall, Forall_reverse, drop_while_Forall.
Qed.

Lemma split_ws_Forall (P : Z -> Prop) (s cur : jsstring) (in_sep : bool) :
  Forall P s -> Forall P cur -> Forall (Forall P) (split_ws s cur in_sep).
Proof.
  intros Hs. revert cur in_sep. induction Hs as [|c s Hc Hs IH]; intros cur in_sep Hcur.
  - simpl. by repeat constructor.
  - simpl. destruct (is_space c).
    + destruct in_sep; [by apply IH|]. constructor; [exact Hcur|]. by apply IH.
    + apply IH. apply Forall_app. split; [exact Hcur|]. by repeat constructor.
Qed.

Lemma js_join_Forall (P : Z -> Prop) (sep : jsstring) (parts : list jsstring) :
  Forall P sep -> Forall (Forall P) parts -> Forall P (js_join sep parts).
Proof.
  intros Hsep Hparts. induction Hparts as [|a parts Ha Hparts IH]; [constructor|].
  simpl. destruct parts as [|b parts]; [exact Ha|].
  apply Forall_app. split; [exact Ha|]. apply Forall_app. by split.
Qed.

Section NameProperties.

Variable unicode_letter : Z -> bool.

(** A name candidate holds no digit, no ['@'], no parenthesis and no ['+']. *)
Lemma name_line_candidate_clean (ln : line) (value : jsstring) :
  name_line_candidate unicode_letter ln = Some value ->
  Forall (fun c => (is_digit c || (c =? 64) || (c =? 40) || (c =? 41) || (c =? 43))
                   = false) value.
Proof.
  intros Hcand. unfold name_line_candidate in Hcand.
  destruct (l_text ln) as [[|t0 text]|]; try discriminate.
  destruct (length _ <? 2)%nat; [discriminate|].
  destruct (existsb _ _) eqn:Hbad; [discriminate|].
  destruct (negb _); [discriminate|]. injection Hcand as <-.
  assert (Hclean : Forall (fun c => (is_digit c || (c =? 64) || (c =? 40) ||
                                     (c =? 41) || (c =? 43)) = false) (t0 :: text)).
  { apply Forall_forall. intros c Hc. apply not_true_is_false. intros Hbc.
    rewrite <- not_true_iff_false in Hbad. apply Hbad.
    apply existsb_exists. exists c. split; [|exact Hbc].
    by apply list_elem_of_In. }
  apply js_trim_Forall, js_join_Forall; [by repeat constructor|].
  apply Forall_forall. intros tok Htok.
  apply list_elem_of_filter in Htok as [_ Htok].
  pose proof (split_ws_Forall _ (js_trim (t0 :: text)) [] false
                (js_trim_Forall _ _ Hclean) (Forall_nil_2 _)) as Hsplit.
  rewrite Forall_forall in Hsplit. by apply Hsplit.
Qed.

(** X21. The name [extractName] returns is the best of its candidates: the result
    is the empty field, or it is the field made of the name read on one of
    the lines and of the words of that line, with their mean confidence,
    which is positive, and with their bounding box; that line is the first
    one whose confidence no candidate line reaches before it. No candidate
    line has words of a higher mean confidence than the result; and the
    value holds no digit, no ['@'], no parenthesis and no ['+']. *)
Theorem extractName_best_clean (lines : list line) :
  (extractName unicode_letter lines = empty_field \/
   exists k ln value,
     lines !! k = Some ln /\
     name_line_candidate unicode_letter ln = Some value /\
     extractName unicode_letter lines
     = {| f_value := Some value;
          f_confidence := meanConfidence (Some (default [] (l_words ln)));
          f_words := Some (default [] (l_words ln));
          f_bbox := summarizeWords (Some (default [] (l_words ln))) |} /\
     js_gt (meanConfidence (Some (default [] (l_words ln)))) 0%float = true /\
     forall j ln' value', (j < k)%nat -> lines !! j = Some ln' ->
       name_line_candidate unicode_letter ln' = Some value' ->
       js_ge (meanConfidence (Some (default [] (l_words ln'))))
             (meanConfidence (Some (default [] (l_words ln)))) = false) /\
  (forall ln value, ln ∈ lines ->
     name_line_candidate unicode_letter ln = Some value ->
     js_gt (meanConfidence (Some (default [] (l_words ln))))
           (f_confidence (extractName unicode_letter lines)) = false) /\
  (forall v, f_value (extractName unicode_letter lines) = Some v ->
     Forall (fun c => (is_digit c || (c =? 64) || (c =? 40) || (c =? 41) || (c =? 43))
                      = false) v).
Proof.
  set (field_of := fun (ln : line) (value : jsstring) =>
         {| f_value := Some value;
            f_confidence := meanConfidence (Some (default [] (l_words ln)));
            f_words := Some (default [] (l_words ln));
            f_bbox := summarizeWords (Some (default [] (l_words ln))) |}).
  set (cand := fun ln => field_of ln <$> name_line_candidate unicode_letter ln).
  assert (Hsel : forall r,
            (r = empty_field \/
             exists k ln, lines !! k = Some ln /\ cand ln = Some r /\
               js_gt (f_confidence r) 0%float = true /\
               forall j ln' f', (j < k)%nat -> lines !! j = Some ln' ->
                 cand ln' = Some f' ->
                 js_ge (f_confidence f') (f_confidence r) = false) ->
            r = empty_field \/
            exists k ln value,
              lines !! k = Some ln /\
              name_line_candidate unicode_letter ln = Some value /\
              r = field_of ln value /\
              js_gt (meanConfidence (Some (default [] (l_words ln)))) 0%float = true /\
              forall j ln' value', (j < k)%nat -> lines !! j = Some ln' ->
                name_line_candidate unicode_letter ln' = Some value' ->
                js_ge (meanConfidence (Some (default [] (l_words ln'))))
                      (meanConfidence (Some (default [] (l_words ln)))) = false).
  { intros r [Hempty | (k & ln & Hk & Hc & Hpos & Hfirst)]; [by left|].
    right. unfold cand in Hc.
    destruct (name_line_candidate unicode_letter ln) as [value|] eqn:Hline;
      [|discriminate].
    injection Hc as Hfld. exists k, ln, value.
    split; [exact Hk|]. split; [exact Hline|]. split; [by rewrite Hfld|].
    rewrite <- Hfld in Hpos, Hfirst. split; [exact Hpos|].
    intros j ln' value' Hj Hln' Hline'.
    apply (Hfirst j ln' (field_of ln' value') Hj Hln').
    unfold cand. by rewrite Hline'. }
  unfold extractName.
  match goal with
  | |- context [foldl ?step empty_field lines] =>
      destruct (best_fold_selects step cand lines) as [Hmax Hbest]
  end.
  { intros best ln. unfold cand.
    destruct (name_line_candidate unicode_letter ln) as [value|]; reflexivity. }
  apply Hsel in Hbest. split; [exact Hbest|]. split.
  - intros ln value Hin Hline. apply (Hmax ln (field_of ln value) Hin).
    unfold cand. by rewrite Hline.
  - intros v Hv.
    destruct Hbest as [Hempty | (k & ln & value & _ & Hline & Hfld & _)].
    + rewrite Hempty in Hv. discriminate.
    + rewrite Hfld in Hv. injection Hv as <-.
      by apply (name_line_candidate_clean ln).
Qed.

End NameProperties.

(** ** Phones *)

(** The shape of a value of [normalizePhoneValue]: a ['+'] followed by
    digits, possibly none, or a non-empty run of digits. *)
Lemma normalizePhoneValue_shape (value : option jsstring) (v : jsstring) :
  normalizePhoneValue value = Some v ->
  (exists d, v = 43 :: d /\ Forall (fun c => is_digit c = true) d) \/
  (v <> [] /\ Forall (fun c => is_digit c = true) v).
Proof.
  destruct value as [value|]; [|discriminate].
  rewrite normalizePhoneValue_unfold.
  pose proof (Forall_filter_self (fun c => is_digit c || (c =? 43) = true) value) as Hall.
  fold (phone_chars value) in Hall.
  destruct (phone_chars value) as [|c rest]; [discriminate|].
  inversion Hall as [|? ? Hc Hrest]; subst.
  pose proof (Forall_filter_self (fun c => is_digit c = true) rest) as Hd.
  fold (digits_of rest) in Hd.
  destruct (c =? 43) eqn:E; intros [= <-].
  - left. by eexists.
  - right. assert (Hdc : is_digit c = true) by (rewrite orb_false_r in Hc; exact Hc).
    assert (Hdig : digits_of (c :: rest) = c :: digits_of rest).
    { unfold digits_of. by rewrite filter_cons, decide_True. }
    rewrite Hdig. split; [discriminate|]. by constructor.
Qed.

(** X22. The field [extractPhone] returns is the empty field or the field of one
    of its windows: one to six consecutive words whose trimmed texts, joined
    by single spaces, pass the phone pattern. Its value is what
    [normalizePhoneValue] makes of that text, trimmed: a ['+'] followed by
    digits, possibly none, or a non-empty run of digits. Its words are the
    window, its confidence is their mean confidence, which is positive, and
    its box is their bounding box. *)
Theorem extractPhone_value_normalized (words : list word) (fld : field) :
  extractPhone words = Returned fld ->
  fld = empty_field \/
  exists i len ts v,
    (1 <= len <= 6)%nat /\ (i + len <= length words)%nat /\
    trimmed_texts (take len (drop i words)) = Returned ts /\
    PHONE_REGEX_test (js_join [32] ts) = true /\
    normalizePhoneValue (Some (js_trim (js_join [32] ts))) = Some v /\
    fld = {| f_value := Some v;
             f_confidence := meanConfidence (Some (take len (drop i words)));
             f_words := Some (take len (drop i words));
             f_bbox := summarizeWords (Some (take len (drop i words))) |} /\
    js_gt (f_confidence fld) 0%float = true /\
    ((exists d, v = 43 :: d /\ Forall (fun c => is_digit c = true) d) \/
     (v <> [] /\ Forall (fun c => is_digit c = true) v)).
Proof.
  set (Q := fun b : field => b = empty_field \/
    exists i len ts v,
      (1 <= len <= 6)%nat /\ (i + len <= length words)%nat /\
      trimmed_texts (take len (drop i words)) = Returned ts /\
      PHONE_REGEX_test (js_join [32] ts) = true /\
      normalizePhoneValue (Some (js_trim (js_join [32] ts))) = Some v /\
      b = {| f_value := Some v;
             f_confidence := meanConfidence (Some (take len (drop i words)));
             f_words := Some (take len (drop i words));
             f_bbox := summarizeWords (Some (take len (drop i words))) |} /\
      js_gt (f_confidence b) 0%float = true /\
      ((exists d, v = 43 :: d /\ Forall (fun c => is_digit c = true) d) \/
       (v <> [] /\ Forall (fun c => is_digit c = true) v))).
  assert (Hpos : forall b conf, Q b -> js_gt conf (f_confidence b) = true ->
                   js_gt conf 0%float = true).
  { intros b conf [-> | (i & len & ts & v & _ & _ & _ & _ & _ & _ & Hpos & _)] Hgt;
      [exact Hgt|].
    unfold js_gt in *. by apply (ltb_trans _ (f_confidence b)). }
  unfold extractPhone.
  assert (Houter : forall i best r, i ∈ seq 0 (length words) -> Q best ->
            fold_outcome (fun len best => phone_window words i len best)
              (seq 1 (Nat.min 6 (length words - i))) best = Returned r -> Q r).
  { intros i best r Hi Hbest. apply elem_of_seq in Hi.
    assert (Hinner : forall lens, lens ⊆ seq 1 (Nat.min 6 (length words - i)) ->
              forall best r, Q best ->
              fold_outcome (fun len best => phone_window words i len best) lens best
              = Returned r -> Q r).
    { clear best r Hbest. intros lens.
      induction lens as [|len lens IH]; intros Hsub best r Hbest; simpl.
      - by intros [= <-].
      - destruct (phone_window words i len best) as [best'|e] eqn:Hwin; [|discriminate].
        apply IH; [intros x Hx; apply Hsub; by right|].
        assert (Hlen : len ∈ seq 1 (Nat.min 6 (length words - i)))
          by (apply Hsub; by left).
        apply elem_of_seq in Hlen.
        unfold phone_window in Hwin. cbv zeta in Hwin.
        destruct (trimmed_texts (take len (drop i words))) as [ts|e] eqn:Hts;
          [|discriminate].
        destruct (PHONE_REGEX_test (js_join [32] ts)) eqn:Htest;
          [|by injection Hwin as <-].
        cbn [negb] in Hwin.
        destruct (normalizePhoneValue (Some (js_trim (js_join [32] ts))))
          as [v|] eqn:Hnorm; [|by injection Hwin as <-].
        pose proof (normalizePhoneValue_shape _ _ Hnorm) as Hshape.
        assert (Htruthy : truthy (Some v) = true).
        { destruct Hshape as [(d & -> & _) | [Hne _]]; [reflexivity|].
          by destruct v. }
        rewrite Htruthy in Hwin. cbn [negb] in Hwin.
        destruct (js_gt _ _) eqn:Hgt; injection Hwin as <-; [|exact Hbest].
        right. exists i, len, ts, v.
        split; [lia|]. split; [lia|]. split; [exact Hts|]. split; [exact Htest|].
        split; [exact Hnorm|]. split; [reflexivity|].
        split; [exact (Hpos best _ Hbest Hgt)|exact Hshape]. }
    by apply (Hinner _ (reflexivity _) best r). }
  assert (Hall : forall idx, idx ⊆ seq 0 (length words) -> forall best r, Q best ->
            fold_outcome
              (fun i best =>
                 fold_outcome (fun len best => phone_window words i len best)
                   (seq 1 (Nat.min 6 (length words - i))) best) idx best = Returned r ->
            Q r).
  { intros idx. induction idx as [|i idx IH]; intros Hsub best r Hbest; simpl.
    - by intros [= <-].
    - destruct (fold_outcome _ (seq 1 _) best) as [best'|e] eqn:Hrow; [|discriminate].
      apply IH; [intros x Hx; apply Hsub; by right|].
      apply (Houter i best best'); [apply Hsub; by left|exact Hbest|exact Hrow]. }
  intros Hret. exact (Hall _ (reflexivity _) empty_field fld (or_introl eq_refl) Hret).
Qed.

Lemma extractPhone_value_normalized_witness :
  extractPhone example_phone_words
  = Returned {| f_value := Some (js "+15551234567"); f_confidence := 80%float;
                f_words := Some example_phone_words; f_bbox := None |} /\
  js_gt 80%float 0%float = true.
Proof.
  assert (H : extractPhone example_phone_words
              = Returned {| f_value := Some (js "+15551234567"); f_confidence := 80%float;
                            f_words := Some example_phone_words; f_bbox := None |})
    by (vm_compute; reflexivity).
  split; [exact H|].
  destruct (extractPhone_value_normalized _ _ H)
    as [Hempty | (i & len & ts & v & _ & _ & _ & _ & _ & _ & Hpos & _)];
    [discriminate|exact Hpos].
Defined.

(** The value can be a lone ['+']: the text ["+ (     )"] passes the phone
    pattern and holds no digit. *)
Example extractPhone_lone_plus :
  extractPhone [{| w_text := Some (js "+ (     )"); w_bbox := None;
                   w_confidence := Some 80%float |}]
  = Returned {| f_value := Some (js "+"); f_confidence := 80%float;
                f_words := Some [{| w_text := Some (js "+ (     )"); w_bbox := None;
                                    w_confidence := Some 80%float |}];
                f_bbox := None |}.
Proof. vm_compute. reflexivity. Qed.

Lemma fold_outcome_returns {A S : Type} (f : A -> S -> outcome S) (l : list A) (s : S) :
  (forall a s, a ∈ l -> exists s', f a s = Returned s') ->
  exists r, fold_outcome f l s = Returned r.
Proof.
  revert s. induction l as [|a l IH]; intros s Hall; [by exists s|].
  simpl. destruct (Hall a s) as [s' ->]; [by left|].
  apply IH. intros a' s'' Ha'. apply Hall. by right.
Qed.

Lemma fold_outcome_throws {A S : Type} (f : A -> S -> outcome S) (l : list A) (s : S)
    (a : A) :
  a ∈ l -> (forall s, exists e, f a s = Thrown e) ->
  exists e, fold_outcome f l s = Thrown e.
Proof.
  intros Ha Hthrow. revert s. induction l as [|a' l IH]; intros s; [inversion Ha|].
  simpl. destruct (f a' s) as [s'|e] eqn:Hf; [|by exists e].
  apply elem_of_cons in Ha as [-> | Ha]; [|by apply IH].
  destruct (Hthrow s) as [e He]. congruence.
Qed.

(** X23. [extractPhone] throws a [TypeError] exactly when some word has no text:
    the window of that word alone is always reached or preceded by another
    throw, and nothing else in the loops can throw. *)
Theorem extractPhone_throws_iff (words : list word) :
  extractPhone words = Thrown TypeError <-> exists w, w ∈ words /\ w_text w = None.
Proof.
  split.
  - intros Hthrown.
    destruct (decide (Forall (fun w => is_Some (w_text w)) words)) as [Hall | Hnot].
    + exfalso. rewrite Forall_forall in Hall.
      destruct (fold_outcome_returns
                  (fun i best =>
                     fold_outcome (fun len best => phone_window words i len best)
                       (seq 1 (Nat.min 6 (length words - i))) best)
                  (seq 0 (length words)) empty_field) as [r Hr].
      * intros i best _. apply fold_outcome_returns. intros len best' _.
        unfold phone_window. cbv zeta. rewrite trimmed_texts_all_text.
        -- destruct (negb _); [by eexists|].
           destruct (negb _); [by eexists|].
           destruct (js_gt _ _); by eexists.
        -- intros w Hw. apply Hall.
           apply (subseteq_drop i words), (subseteq_take len), Hw.
      * unfold extractPhone in Hthrown. congruence.
    + apply not_Forall_Exists in Hnot; [|apply _].
      apply Exists_exists in Hnot as (w & Hw & Hnone).
      exists w. split; [exact Hw|].
      destruct (w_text w) as [t|] eqn:Ht; [|reflexivity].
      exfalso. apply Hnone. simpl. rewrite Ht. by exists t.
  - intros (w & Hw & Hnone). apply list_elem_of_lookup in Hw as [j Hj].
    pose proof (lookup_lt_Some _ _ _ Hj) as Hjlt.
    destruct (fold_outcome_throws
                (fun i best =>
                   fold_outcome (fun len best => phone_window words i len best)
                     (seq 1 (Nat.min 6 (length words - i))) best)
                (seq 0 (length words)) empty_field j) as [e He].
    + apply elem_of_seq. lia.
    + intros best. apply (fold_outcome_throws _ _ _ 1%nat).
      * apply elem_of_seq. lia.
      * intros best'. exists TypeError. unfold phone_window. cbv zeta.
        rewrite (drop_S _ w j Hj). simpl. by rewrite Hnone.
    + unfold extractPhone. rewrite He. by destruct e.
Qed.

(** ** Confidences *)

Lemma not_nan_key (x : float) :
  PrimFloat.is_nan x = false -> exists a, sf_key (Prim2SF x) = Some a.
Proof.
  unfold PrimFloat.is_nan. rewrite FloatAxioms.eqb_spec. unfold SFeqb. rewrite SFcompare_key.
  destruct (sf_key (Prim2SF x)) as [a|]; [by exists a|discriminate].
Qed.

(** Two numbers are ordered one way or the other. *)
Lemma leb_total (x y : float) :
  PrimFloat.is_nan x = false -> PrimFloat.is_nan y = false ->
  PrimFloat.ltb y x = false -> PrimFloat.leb x y = true.
Proof.
  intros Hx Hy Hlt.
  destruct (not_nan_key x Hx) as [a Ha]. destruct (not_nan_key y Hy) as [b Hb].
  apply leb_key. exists a, b. split; [exact Ha|]. split; [exact Hb|].
  assert (Hn : ~ key_lt b a).
  { intros Hba. rewrite <- not_true_iff_false in Hlt. apply Hlt.
    apply ltb_key. by exists b, a. }
  destruct a as [[a1 a2] a3], b as [[b1 b2] b3]. unfold key_lt in *. simpl in *.
  destruct (decide (a1 = b1)) as [->|]; [|left; lia].
  destruct (decide (a2 = b2)) as [->|]; [|left; lia].
  destruct (decide (a3 = b3)) as [->|]; [by right|left; lia].
Qed.

Lemma ltb_leb (x y : float) : PrimFloat.ltb x y = true -> PrimFloat.leb x y = true.
Proof.
  intros H. apply ltb_key in H as (a & b & Ha & Hb & Hab).
  apply leb_key. exists a, b. split; [exact Ha|]. split; [exact Hb|]. by left.
Qed.

(** X24. [roundConfidence] answers a number from 0 to 100, or [NaN]: the clamp
    holds for every input, absent, infinite or not a number. *)
Theorem roundConfidence_range (value : option num) :
  PrimFloat.is_nan (roundConfidence value) = true \/
  (js_ge (roundConfidence value) 0%float = true /\
   js_le (roundConfidence value) 100%float = true).
Proof.
  unfold roundConfidence. destruct value as [x|]; [|right; by vm_compute].
  set (y := (Math_round (x * 100) / 100)%float).
  unfold Math_min_num. change (PrimFloat.is_nan 100%float) with false. cbv iota.
  change (PrimFloat.get_sign 100%float) with false. cbv iota.
  destruct (PrimFloat.is_nan y) eqn:Hnan.
  { left. unfold Math_max_num. change (PrimFloat.is_nan 0%float) with false. cbv iota.
    by rewrite Hnan. }
  assert (Hclamp : forall m, PrimFloat.is_nan m = false -> PrimFloat.leb m 100%float = true ->
            js_ge (Math_max_num 0%float m) 0%float = true /\
            js_le (Math_max_num 0%float m) 100%float = true).
  { intros m Hm Hle. unfold Math_max_num, js_ge, js_le.
    change (PrimFloat.is_nan 0%float) with false. cbv iota. rewrite Hm.
    change (PrimFloat.get_sign 0%float) with false. cbv iota.
    destruct (PrimFloat.ltb 0%float m) eqn:Hpos; [split; [by apply ltb_leb|exact Hle]|].
    destruct (PrimFloat.ltb m 0%float); split; by vm_compute. }
  right. destruct (PrimFloat.ltb y 100%float) eqn:Hlt.
  - apply Hclamp; [exact Hnan|by apply ltb_leb].
  - destruct (PrimFloat.ltb 100%float y) eqn:Hgt.
    + apply Hclamp; by vm_compute.
    + apply Hclamp; [exact Hnan|]. by apply leb_total.
Qed.

(** ** Refinement never loses ground *)

Lemma ltb_asym (x y : float) : PrimFloat.ltb x y = true -> PrimFloat.ltb y x = false.
Proof.
  intros H. apply not_true_is_false. intros H'.
  pose proof (ltb_trans _ _ _ H H') as Hxx. by rewrite ltb_irrefl in Hxx.
Qed.

(** X25. Whatever the engine reads, [maybeRefineLowConfidence] leaves the words
    and the box of the field alone, leaves a field with a value and a
    confidence of 70 or more exactly as it is, and never trades a value for
    none or for one of a lower confidence. *)
Theorem maybeRefineLowConfidence_keeps
    (recognize : engine_params -> region -> recognition)
    (cv : canvas) (fld : field) (whitelist : jsstring) (psm : Z)
    (postProcess postExtract : option (option jsstring -> option jsstring)) :
  f_words (maybeRefineLowConfidence recognize cv fld whitelist psm postProcess postExtract)
  = f_words fld /\
  f_bbox (maybeRefineLowConfidence recognize cv fld whitelist psm postProcess postExtract)
  = f_bbox fld /\
  (js_ge (f_confidence fld) 70%float && truthy (f_value fld) = true ->
   maybeRefineLowConfidence recognize cv fld whitelist psm postProcess postExtract = fld) /\
  (truthy (f_value fld) = true ->
   truthy (f_value (maybeRefineLowConfidence recognize cv fld whitelist psm
                      postProcess postExtract)) = true /\
   js_gt (f_confidence fld)
         (f_confidence (maybeRefineLowConfidence recognize cv fld whitelist psm
                          postProcess postExtract)) = false).
Proof.
  set (r := maybeRefineLowConfidence recognize cv fld whitelist psm postProcess postExtract).
  assert (Hr : r = fld \/
            exists v c, truthy v = true /\
              r = {| f_value := v; f_confidence := c;
                     f_words := f_words fld; f_bbox := f_bbox fld |} /\
              js_ge (f_confidence fld) 70%float && truthy (f_value fld) = false /\
              (truthy (f_value fld) = true -> js_gt c (f_confidence fld) = true)).
  { unfold r, maybeRefineLowConfidence, eligible.
    destruct (f_bbox fld) as [b|] eqn:Hb; [|by left].
    destruct (js_ge (f_confidence fld) 70%float && truthy (f_value fld)) eqn:Hhigh;
      [by left|].
    cbn [negb]. destruct (negb (forallb valid_coord _)); [by left|].
    cbv zeta.
    destruct (negb (truthy (refined_value _ _ _))) eqn:Hrv; [by left|].
    apply negb_false_iff in Hrv.
    destruct (negb (truthy (f_value fld)) || js_gt _ _) eqn:Hacc; [|by left].
    right. eexists _, _. split; [exact Hrv|]. split; [reflexivity|].
    split; [reflexivity|]. intros Hval. rewrite Hval in Hacc. exact Hacc. }
  clearbody r. destruct Hr as [-> | (v & c & Hv & -> & Hlow & Hgt)].
  - split; [reflexivity|]. split; [reflexivity|]. split; [reflexivity|].
    intros Hval. split; [exact Hval|apply ltb_irrefl].
  - cbn [f_words f_bbox f_value f_confidence].
    split; [reflexivity|]. split; [reflexivity|]. split; [by rewrite Hlow|].
    intros Hval. split; [exact Hv|]. by apply ltb_asym, Hgt.
Qed.

(** ** The box of a group of words *)

Lemma leb_not_nan (x y : float) :
  PrimFloat.leb x y = true -> PrimFloat.is_nan x = false /\ PrimFloat.is_nan y = false.
Proof.
  intros H. apply leb_key in H as (a & b & Ha & Hb & _).
  unfold PrimFloat.is_nan. rewrite !FloatAxioms.eqb_spec. unfold SFeqb.
  rewrite !SFcompare_key, Ha, Hb.
  assert (Hc : forall k, key_cmp k k = Eq) by (intros k; by apply key_cmp_eq).
  pose proof (Hc a) as Hca. pose proof (Hc b) as Hcb. unfold key_cmp in Hca, Hcb.
  by rewrite Hca, Hcb.
Qed.

Lemma leb_refl (x : float) : PrimFloat.is_nan x = false -> PrimFloat.leb x x = true.
Proof. intros H. apply leb_total; [exact H|exact H|apply ltb_irrefl]. Qed.

Lemma leb_trans (x y z : float) :
  PrimFloat.leb x y = true -> PrimFloat.leb y z = true -> PrimFloat.leb x z = true.
Proof.
  intros H1 H2. apply leb_key in H1 as (a & b & Ha & Hb & Hab).
  apply leb_key in H2 as (b' & c & Hb' & Hc & Hbc).
  rewrite Hb in Hb'. injection Hb' as <-.
  apply leb_key. exists a, c. split; [exact Ha|]. split; [exact Hc|].
  destruct Hab as [Hab | ->]; [|exact Hbc]. left.
  destruct Hbc as [Hbc | <-]; [|exact Hab]. unfold key_lt in *. lia.
Qed.

Lemma Math_min_num_spec (a b : num) :
  PrimFloat.is_nan (Math_min_num a b) = false ->
  PrimFloat.leb (Math_min_num a b) a = true /\ PrimFloat.leb (Math_min_num a b) b = true.
Proof.
  unfold Math_min_num.
  destruct (PrimFloat.is_nan a) eqn:Ha; [congruence|].
  destruct (PrimFloat.is_nan b) eqn:Hb; [congruence|]. intros _.
  destruct (PrimFloat.ltb b a) eqn:Hba; [split; [by apply ltb_leb|by apply leb_refl]|].
  destruct (PrimFloat.ltb a b) eqn:Hab; [split; [by apply leb_refl|by apply ltb_leb]|].
  destruct (PrimFloat.get_sign a).
  - split; [by apply leb_refl|by apply leb_total].
  - split; [by apply leb_total|by apply leb_refl].
Qed.

Lemma Math_max_num_spec (a b : num) :
  PrimFloat.is_nan (Math_max_num a b) = false ->
  PrimFloat.leb a (Math_max_num a b) = true /\ PrimFloat.leb b (Math_max_num a b) = true.
Proof.
  unfold Math_max_num.
  destruct (PrimFloat.is_nan a) eqn:Ha; [congruence|].
  destruct (PrimFloat.is_nan b) eqn:Hb; [congruence|]. intros _.
  destruct (PrimFloat.ltb a b) eqn:Hab; [split; [by apply ltb_leb|by apply leb_refl]|].
  destruct (PrimFloat.ltb b a) eqn:Hba; [split; [by apply leb_refl|by apply ltb_leb]|].
  destruct (PrimFloat.get_sign a).
  - split; [by apply leb_total|by apply leb_refl].
  - split; [by apply leb_refl|by apply leb_total].
Qed.

(** A running minimum over the boxes of the words is below its start and
    below every box it met, unless it is [NaN]. *)
Lemma min_fold_bound (get : bbox -> option num) (ws : list word) (a : num) :
  PrimFloat.is_nan
    (foldl (fun acc w => match w_bbox w with
                         | Some b => Math_min_num acc (to_number (get b))
                         | None => acc
                         end) a ws) = false ->
  PrimFloat.leb
    (foldl (fun acc w => match w_bbox w with
                         | Some b => Math_min_num acc (to_number (get b))
                         | None => acc
                         end) a ws) a = true /\
  forall w b, w ∈ ws -> w_bbox w = Some b ->
    PrimFloat.leb
      (foldl (fun acc w => match w_bbox w with
                           | Some b => Math_min_num acc (to_number (get b))
                           | None => acc
                           end) a ws) (to_number (get b)) = true.
Proof.
  revert a. induction ws as [|w ws IH]; intros a Hnan.
  - simpl in *. split; [by apply leb_refl|]. intros w b Hin. inversion Hin.
  - cbn [foldl] in *. destruct (IH _ Hnan) as [Hle Hall].
    destruct (w_bbox w) as [b|] eqn:Hb.
    + destruct (leb_not_nan _ _ Hle) as [_ Hmin].
      destruct (Math_min_num_spec _ _ Hmin) as [Hma Hmb].
      split; [by apply (leb_trans _ _ _ Hle)|].
      intros w' b' Hin Hb'. apply elem_of_cons in Hin as [-> | Hin]; [|by apply (Hall w')].
      rewrite Hb in Hb'. injection Hb' as <-. by apply (leb_trans _ _ _ Hle).
    + split; [exact Hle|]. intros w' b' Hin Hb'.
      apply elem_of_cons in Hin as [-> | Hin]; [congruence|by apply (Hall w')].
Qed.

Lemma max_fold_bound (get : bbox -> option num) (ws : list word) (a : num) :
  PrimFloat.is_nan
    (foldl (fun acc w => match w_bbox w with
                         | Some b => Math_max_num acc (to_number (get b))
                         | None => acc
                         end) a ws) = false ->
  PrimFloat.leb a
    (foldl (fun acc w => match w_bbox w with
                         | Some b => Math_max_num acc (to_number (get b))
                         | None => acc
                         end) a ws) = true /\
  forall w b, w ∈ ws -> w_bbox w = Some b ->
    PrimFloat.leb (to_number (get b))
      (foldl (fun acc w => match w_bbox w with
                           | Some b => Math_max_num acc (to_number (get b))
                           | None => acc
                           end) a ws) = true.
Proof.
  revert a. induction ws as [|w ws IH]; intros a Hnan.
  - simpl in *. split; [by apply leb_refl|]. intros w b Hin. inversion Hin.
  - cbn [foldl] in *. destruct (IH _ Hnan) as [Hle Hall].
    destruct (w_bbox w) as [b|] eqn:Hb.
    + destruct (leb_not_nan _ _ Hle) as [Hmax _].
      destruct (Math_max_num_spec _ _ Hmax) as [Hma Hmb].
      split; [by apply (leb_trans _ _ _ Hma)|].
      intros w' b' Hin Hb'. apply elem_of_cons in Hin as [-> | Hin]; [|by apply (Hall w')].
      rewrite Hb in Hb'. injection Hb' as <-. by apply (leb_trans _ _ _ Hmb).
    + split; [exact Hle|]. intros w' b' Hin Hb'.
      apply elem_of_cons in Hin as [-> | Hin]; [congruence|by apply (Hall w')].
Qed.

(** The four running extremes of [summarizeWords] are four separate folds. *)
Lemma summarize_fold_split (ws : list word) (x0 y0 x1 y1 : num) :
  foldl (fun '(x0, y0, x1, y1) w =>
           match w_bbox w with
           | Some b =>
               (Math_min_num x0 (to_number (bx0 b)),
                Math_min_num y0 (to_number (by0 b)),
                Math_max_num x1 (to_number (bx1 b)),
                Math_max_num y1 (to_number (by1 b)))
           | None => (x0, y0, x1, y1)
           end) (x0, y0, x1, y1) ws
  = (foldl (fun acc w => match w_bbox w with
                         | Some b => Math_min_num acc (to_number (bx0 b))
                         | None => acc end) x0 ws,
     foldl (fun acc w => match w_bbox w with
                         | Some b => Math_min_num acc (to_number (by0 b))
                         | None => acc end) y0 ws,
     foldl (fun acc w => match w_bbox w with
                         | Some b => Math_max_num acc (to_number (bx1 b))
                         | None => acc end) x1 ws,
     foldl (fun acc w => match w_bbox w with
                         | Some b => Math_max_num acc (to_number (by1 b))
                         | None => acc end) y1 ws).
Proof.
  revert x0 y0 x1 y1. induction ws as [|w ws IH]; intros x0 y0 x1 y1; [reflexivity|].
  cbn [foldl]. destruct (w_bbox w) as [b|]; apply IH.
Qed.

Lemma is_finite_not_nan (x : float) :
  PrimFloat.is_finite x = true -> PrimFloat.is_nan x = false.
Proof.
  unfold PrimFloat.is_finite. destruct (PrimFloat.is_nan x); [|reflexivity].
  simpl. discriminate.
Qed.

(** X26. A box that [summarizeWords] returns covers its words from left to right:
    its [x0] and [x1] are finite, [x0] is at most the [x0] of every word that
    has a box and [x1] at least its [x1]. The same holds from top to bottom
    whenever [y0] and [y1] are numbers, which the function does not check. *)
Theorem summarizeWords_covers (ws : list word) (box : bbox) :
  summarizeWords (Some ws) = Some box ->
  exists x0 y0 x1 y1,
    box = {| bx0 := Some x0; by0 := Some y0; bx1 := Some x1; by1 := Some y1 |} /\
    PrimFloat.is_finite x0 = true /\ PrimFloat.is_finite x1 = true /\
    forall w b, w ∈ ws -> w_bbox w = Some b ->
      js_le x0 (to_number (bx0 b)) = true /\
      js_le (to_number (bx1 b)) x1 = true /\
      (PrimFloat.is_nan y0 = false -> js_le y0 (to_number (by0 b)) = true) /\
      (PrimFloat.is_nan y1 = false -> js_le (to_number (by1 b)) y1 = true).
Proof.
  unfold summarizeWords. destruct ws as [|w0 ws]; [discriminate|].
  rewrite summarize_fold_split.
  set (l := w0 :: ws).
  set (x0 := foldl (fun acc w => match w_bbox w with
                                  | Some b => Math_min_num acc (to_number (bx0 b))
                                  | None => acc end) PrimFloat.infinity l).
  set (y0 := foldl (fun acc w => match w_bbox w with
                                  | Some b => Math_min_num acc (to_number (by0 b))
                                  | None => acc end) PrimFloat.infinity l).
  set (x1 := foldl (fun acc w => match w_bbox w with
                                  | Some b => Math_max_num acc (to_number (bx1 b))
                                  | None => acc end) PrimFloat.neg_infinity l).
  set (y1 := foldl (fun acc w => match w_bbox w with
                                  | Some b => Math_max_num acc (to_number (by1 b))
                                  | None => acc end) PrimFloat.neg_infinity l).
  destruct (PrimFloat.is_finite x0) eqn:Hx0; [|discriminate].
  destruct (PrimFloat.is_finite x1) eqn:Hx1; [|discriminate].
  simpl. intros [= <-]. exists x0, y0, x1, y1.
  split; [reflexivity|]. split; [exact Hx0|]. split; [exact Hx1|].
  intros w b Hin Hb. unfold js_le.
  split; [|split; [|split]].
  - exact (proj2 (min_fold_bound bx0 l _ (is_finite_not_nan _ Hx0)) w b Hin Hb).
  - exact (proj2 (max_fold_bound bx1 l _ (is_finite_not_nan _ Hx1)) w b Hin Hb).
  - intros Hy0. exact (proj2 (min_fold_bound by0 l _ Hy0) w b Hin Hb).
  - intros Hy1. exact (proj2 (max_fold_bound by1 l _ Hy1) w b Hin Hb).
Qed.

Lemma summarizeWords_covers_witness :
  summarizeWords (Some example_box_words)
  = Some {| bx0 := Some 10%float; by0 := Some 18%float;
            bx1 := Some 140%float; by1 := Some 40%float |} /\
  js_le 10%float 95%float = true.
Proof.
  assert (H : summarizeWords (Some example_box_words)
              = Some {| bx0 := Some 10%float; by0 := Some 18%float;
                        bx1 := Some 140%float; by1 := Some 40%float |})
    by (vm_compute; reflexivity).
  split; [exact H|].
  destruct (summarizeWords_covers _ _ H) as (x0 & y0 & x1 & y1 & Hbox & _ & _ & Hall).
  injection Hbox as <- <- <- <-.
  refine (proj1 (Hall {| w_text := None;
                         w_bbox := Some {| bx0 := Some 95%float; by0 := Some 18%float;
                                           bx1 := Some 140%float; by1 := Some 39%float |};
                         w_confidence := None |} _ _ eq_refl)).
  unfold example_box_words. right. left.
Defined.

(** ** Language detection *)

Lemma detectExtraLanguage_find (loaded : list jsstring) (text : option jsstring)
    (lang : jsstring) :
  detectExtraLanguage loaded text = Some lang ->
  (lang ∉ loaded) /\
  exists class t, text = Some t /\ (lang, class) ∈ EXTRA_LANGUAGE_MAP /\
    pattern_test class t = true.
Proof.
  unfold detectExtraLanguage. destruct text as [[|c0 text]|]; try discriminate.
  destruct (List.find _ _) as [[l class]|] eqn:Hfind; [|discriminate].
  intros [= <-]. apply find_some in Hfind as [Hin Htest]. simpl in *.
  apply andb_prop in Htest as [Hnot Hpat]. apply negb_true_iff in Hnot.
  apply bool_decide_eq_false in Hnot. split; [exact Hnot|].
  exists class, (c0 :: text). split; [reflexivity|]. split; [|exact Hpat].
  by apply list_elem_of_In.
Qed.

(** X27. A language [detectExtraLanguage] asks for is one of the four of the map,
    is not loaded yet, and is asked for because of a character outside
    ASCII; once it is loaded the same text does not ask for it again. *)
Theorem detectExtraLanguage_sound (loaded : list jsstring) (text : option jsstring)
    (lang : jsstring) :
  detectExtraLanguage loaded text = Some lang ->
  (lang ∉ loaded) /\
  lang ∈ [js "pol"; js "deu"; js "fra"; js "spa"] /\
  (exists t c, text = Some t /\ c ∈ t /\ 128 <= c) /\
  detectExtraLanguage (loaded ++ [lang]) text <> Some lang.
Proof.
  intros H. pose proof (detectExtraLanguage_find _ _ _ H) as (Hnot & class & t & -> & Hin & Hpat).
  split; [exact Hnot|]. split; [|split].
  - apply (list_elem_of_fmap_2 fst) in Hin. exact Hin.
  - unfold pattern_test in Hpat. apply existsb_exists in Hpat as (c & Hc & Hclass).
    exists t, c. split; [reflexivity|]. split; [by apply list_elem_of_In|].
    apply existsb_exists in Hclass as (k & Hk & Heq). apply Z.eqb_eq in Heq. subst k.
    assert (Hall : Forall (fun entry => Forall (fun k => 128 <= k) entry.2)
                     EXTRA_LANGUAGE_MAP).
    { unfold EXTRA_LANGUAGE_MAP. repeat constructor; simpl; lia. }
    rewrite Forall_forall in Hall. specialize (Hall _ Hin). simpl in Hall.
    rewrite Forall_forall in Hall. apply Hall. by apply list_elem_of_In.
  - intros H'. apply detectExtraLanguage_find in H' as [Hnot' _].
    apply Hnot'. apply elem_of_app. right. by left.
Qed.

Lemma detectExtraLanguage_sound_witness :
  detectExtraLanguage [js "eng"] (Some [75; 243; 322]) = Some (js "pol") /\
  detectExtraLanguage ([js "eng"] ++ [js "pol"]) (Some [75; 243; 322]) <> Some (js "pol").
Proof.
  assert (H : detectExtraLanguage [js "eng"] (Some [75; 243; 322]) = Some (js "pol"))
    by (vm_compute; reflexivity).
  split; [exact H|].
  exact (proj2 (proj2 (proj2 (detectExtraLanguage_sound _ _ _ H)))).
Defined.

(** ** Contacts built from the recognised fields *)

Lemma drop_while_suffix (p : Z -> bool) (s : jsstring) :
  exists pre, s = pre ++ drop_while p s.
Proof.
  induction s as [|c s [pre IH]]; [by exists []|].
  simpl. destruct (p c); [|by exists []].
  exists (c :: pre). simpl. by rewrite <- IH.
Qed.

Lemma drop_while_head (p : Z -> bool) (s : jsstring) :
  match drop_while p s with [] => True | c :: _ => p c = false end.
Proof.
  induction s as [|c s IH]; [exact I|].
  simpl. destruct (p c) eqn:Hc; [exact IH|exact Hc].
Qed.

Lemma drop_while_fixed (p : Z -> bool) (s : jsstring) :
  match s with [] => True | c :: _ => p c = false end -> drop_while p s = s.
Proof. destruct s as [|c s]; [reflexivity|]. simpl. by intros ->. Qed.

Lemma js_trim_trimmed (s : jsstring) : trimmed (js_trim s).
Proof.
  unfold js_trim.
  set (u := drop_while is_space s).
  pose proof (drop_while_head is_space s) as Hu. fold u in Hu.
  destruct (drop_while_suffix is_space (reverse u)) as [pre Hpre].
  pose proof (drop_while_head is_space (reverse u)) as Hv.
  set (v := drop_while is_space (reverse u)) in *.
  assert (Hu' : u = reverse v ++ reverse pre).
  { rewrite <- (reverse_involutive u), Hpre. by rewrite reverse_app. }
  destruct v as [|c v] using rev_ind; [exact I|]. clear IHv.
  rewrite reverse_snoc. unfold trimmed. split.
  - rewrite reverse_snoc in Hu'. rewrite Hu' in Hu. exact Hu.
  - destruct (v ++ [c]) as [|c0 v'] eqn:Hvc; [by destruct v|].
    exists c0. split; [|exact Hv].
    change (c :: reverse v) with (reverse [] ++ c :: reverse v).
    rewrite <- reverse_snoc, <- (reverse_involutive (reverse (v ++ [c]))).
    rewrite reverse_involutive. rewrite Hvc. rewrite reverse_cons. apply last_snoc.
Qed.

Lemma trimmed_js_trim (s : jsstring) : trimmed s -> js_trim s = s.
Proof.
  unfold trimmed, js_trim. destruct s as [|c s]; [reflexivity|].
  intros [Hc (c' & Hlast & Hc')].
  rewrite (drop_while_fixed is_space (c :: s)) by exact Hc.
  assert (Hrev : exists r, reverse (c :: s) = c' :: r).
  { destruct (c :: s) as [|c0 l] using rev_ind; [discriminate|].
    rewrite last_snoc in Hlast. injection Hlast as ->.
    rewrite reverse_snoc. by eexists. }
  destruct Hrev as [r Hr].
  rewrite drop_while_fixed by (rewrite Hr; exact Hc').
  apply reverse_involutive.
Qed.

Lemma contact_text_trimmed (fld : option field) (fallback : jsstring) :
  trimmed (contact_text fld fallback) /\
  js_trim (contact_text fld fallback) = contact_text fld fallback.
Proof.
  unfold contact_text. cbv zeta.
  split; [apply js_trim_trimmed|apply trimmed_js_trim, js_trim_trimmed].
Qed.

Lemma contact_text_prefers (f : field) (v fallback : jsstring) :
  f_value f = Some v -> js_trim v <> [] ->
  contact_text (Some f) fallback = js_trim v.
Proof.
  intros Hv Hne. unfold contact_text. cbv zeta. rewrite Hv.
  assert (Ht : truthy (Some v) = true).
  { destruct v; [|reflexivity]. by destruct Hne. }
  rewrite Ht. simpl default.
  destruct (js_trim v) as [|c0 t] eqn:Htrim; [done|].
  cbn [or_else]. rewrite <- Htrim. apply trimmed_js_trim, js_trim_trimmed.
Qed.

Section ContactProperties.

Variable parseContactInfo : jsstring -> contact.

(** X28. Whatever the text parser answers, the name, the email and the phone of
    the contact [buildContactFromStructured] returns carry no white space at
    either end, so that trimming them again changes nothing; and a
    recognised field whose value is not blank is the one returned, trimmed,
    in place of the parser's. *)
Theorem buildContactFromStructured_trimmed (s : structured) :
  (trimmed (c_name (buildContactFromStructured parseContactInfo s)) /\
   trimmed (c_email (buildContactFromStructured parseContactInfo s)) /\
   trimmed (c_phone (buildContactFromStructured parseContactInfo s))) /\
  (js_trim (c_name (buildContactFromStructured parseContactInfo s))
   = c_name (buildContactFromStructured parseContactInfo s) /\
   js_trim (c_email (buildContactFromStructured parseContactInfo s))
   = c_email (buildContactFromStructured parseContactInfo s) /\
   js_trim (c_phone (buildContactFromStructured parseContactInfo s))
   = c_phone (buildContactFromStructured parseContactInfo s)) /\
  (forall flds f v, s_fields s = Some flds -> f_value f = Some v -> js_trim v <> [] ->
     (cf_name flds = Some f ->
      c_name (buildContactFromStructured parseContactInfo s) = js_trim v) /\
     (cf_email flds = Some f ->
      c_email (buildContactFromStructured parseContactInfo s) = js_trim v) /\
     (cf_phone flds = Some f ->
      c_phone (buildContactFromStructured parseContactInfo s) = js_trim v)).
Proof.
  unfold buildContactFromStructured. cbv zeta. cbn [c_name c_email c_phone].
  split; [|split].
  - repeat split; apply contact_text_trimmed.
  - repeat split; apply contact_text_trimmed.
  - intros flds f v Hflds Hv Hne. rewrite Hflds. simpl.
    repeat split; intros ->; by apply contact_text_prefers.
Qed.

End ContactProperties.
